(** * Cassette objects: slot table, reference registry and string arena

    A shallow embedding of the three containers of the Cassette Objects
    library ([cinputs], [cref], [cbook]) and the proofs of their documented
    behaviour.

    Conventions of the embedding.
    - C integers are [Z]; every place where the C arithmetic can wrap is
      written with [size_wrap] / [uint_wrap] / [int16_of_int].
    - A backing array is a [list]; its length is the number of allocated
      elements.  Reading or writing outside of it is undefined behaviour in
      C: functions that index an array return [option], and [None] means
      "no defined result" (an out-of-bounds access, or a loop that does not
      terminate).
    - The C library decides whether an allocation succeeds and what the new
      cells contain: every function that allocates takes that decision as an
      argument ([alloc]).
    - The target is an LP64 platform: [size_t] has 64 bits, [unsigned int]
      has 32 bits. *)

From Stdlib Require Import ZArith Lia Bool String Ascii.
From stdpp Require Import base option list sorting.

Open Scope Z_scope.

(** ** Platform constants and checked arithmetic *)

Definition SIZE_MAX : Z := 18446744073709551615.
Definition UINT_MAX : Z := 4294967295.

Definition size_wrap (z : Z) : Z := z mod (SIZE_MAX + 1).
Definition uint_wrap (z : Z) : Z := z mod (UINT_MAX + 1).

(** Conversion of an [int] to [int16_t] (modular, as GCC and Clang do). *)
Definition int16_of_int (z : Z) : Z := (z + 32768) mod 65536 - 32768.

(** Modelled from the spec: the type declaration [enum cerr] of cerr.h is not
    part of the sources; the spec lists the error states
    [{NONE, INVALID, PARAM, OVERFLOW, MEMORY}], and [CERR_NONE] is the value
    that tests false in [if (x->err)]. *)
Inductive cerr : Type :=
  | CERR_NONE
  | CERR_INVALID
  | CERR_OVERFLOW
  | CERR_MEMORY
  | CERR_PARAM.

(** [if (obj->err)] *)
Definition failed (e : cerr) : bool :=
  match e with CERR_NONE => false | _ => true end.

Definition cerr_eqb (a b : cerr) : bool :=
  match a, b with
  | CERR_NONE, CERR_NONE | CERR_INVALID, CERR_INVALID
  | CERR_OVERFLOW, CERR_OVERFLOW | CERR_MEMORY, CERR_MEMORY
  | CERR_PARAM, CERR_PARAM => true
  | _, _ => false
  end.

(** The errors that [repair] clears. *)
Definition recoverable (e : cerr) : Prop :=
  e = CERR_PARAM \/ e = CERR_OVERFLOW \/ e = CERR_MEMORY.

(** Modelled from the spec: [safe_mul] of safe.h is not part of the sources.
    The spec's growth helper contract: "given a requested element count and
    element size, report whether the product overflows the platform's
    maximum addressable size".  [Some p] is the C result [true] with the
    product [p] stored through the (optional) result pointer, [None] is
    [false]. *)
Definition safe_mul (a b : Z) : option Z :=
  if a * b <=? SIZE_MAX then Some (a * b) else None.

(** ** Memory *)

(** What the allocator answers to one request: [None] when it fails
    (returns NULL), otherwise the indeterminate contents of the cells that
    are new. *)
Definition alloc (A : Type) : Type := option (nat -> A).

(** [realloc (old, n * sizeof A)]: the common prefix is kept. *)
Definition realloc {A : Type} (o : alloc A) (old : list A) (n : Z) : option (list A) :=
  match o with
  | None => None
  | Some junk =>
      Some (take (Z.to_nat n) old
              ++ (junk <$> seq (length old) (Z.to_nat n - length old)))
  end.

(** [buf[i]] *)
Definition load {A : Type} (buf : list A) (i : Z) : option A :=
  if (0 <=? i) && (i <? Z.of_nat (length buf))
  then buf !! Z.to_nat i else None.

(** [buf[i] = v] *)
Definition store {A : Type} (buf : list A) (i : Z) (v : A) : option (list A) :=
  if (0 <=? i) && (i <? Z.of_nat (length buf))
  then Some (<[Z.to_nat i := v]> buf) else None.

(** [memmove (buf + dst, buf + src, cnt * sizeof A)], counted in elements.
    A buffer's byte size fits [size_t], so the byte count of a region that
    lies inside the buffer does not wrap. *)
Definition memmove {A : Type} (buf : list A) (dst src cnt : Z) : option (list A) :=
  if (0 <=? dst) && (0 <=? src) && (0 <=? cnt)
     && (src + cnt <=? Z.of_nat (length buf))
     && (dst + cnt <=? Z.of_nat (length buf))
  then Some (take (Z.to_nat dst) buf
               ++ take (Z.to_nat cnt) (drop (Z.to_nat src) buf)
               ++ drop (Z.to_nat (dst + cnt)) buf)
  else None.

(** [memcpy (dst + off, src, |src| * sizeof A)] from another object. *)
Definition memcpy_at {A : Type} (dst : list A) (off : Z) (src : list A) : option (list A) :=
  if (0 <=? off) && (off + Z.of_nat (length src) <=? Z.of_nat (length dst))
  then Some (take (Z.to_nat off) dst ++ src
               ++ drop (Z.to_nat off + length src) dst)
  else None.

(** The first [cnt] elements of [src], as [memcpy] reads them. *)
Definition region {A : Type} (src : list A) (cnt : Z) : option (list A) :=
  if (0 <=? cnt) && (cnt <=? Z.of_nat (length src))
  then Some (take (Z.to_nat cnt) src) else None.

(** ** Slot table (cinputs) *)

Module Cinputs.

Definition sizeof_slot : Z := 16.

Record slot : Type := Slot { id : Z; x : Z; y : Z; ptr : Z }.

Record cinputs : Type := Cinputs {
  slots : list slot;
  n : Z;
  n_alloc : Z;
  default_ptr : Z;
  err : cerr
}.

Definition set_slots (v : list slot) (c : cinputs) : cinputs :=
  Cinputs v (n c) (n_alloc c) (default_ptr c) (err c).
Definition set_n (v : Z) (c : cinputs) : cinputs :=
  Cinputs (slots c) v (n_alloc c) (default_ptr c) (err c).
Definition set_n_alloc (v : Z) (c : cinputs) : cinputs :=
  Cinputs (slots c) (n c) v (default_ptr c) (err c).
Definition set_default_ptr (v : Z) (c : cinputs) : cinputs :=
  Cinputs (slots c) (n c) (n_alloc c) v (err c).
Definition set_err (v : cerr) (c : cinputs) : cinputs :=
  Cinputs (slots c) (n c) (n_alloc c) (default_ptr c) v.

Definition cinputs_placeholder_instance : cinputs :=
  {| slots := []; default_ptr := 0; n := 0; n_alloc := 0; err := CERR_INVALID |}.

(** The object [calloc (1, sizeof (cinputs))] returns: all fields zero. *)
Definition calloc_instance : cinputs :=
  {| slots := []; default_ptr := 0; n := 0; n_alloc := 0; err := CERR_NONE |}.

(** static [resize]; the boolean is the C return value. *)
Definition resize (o : alloc slot) (inputs : cinputs) (n' : Z) : cinputs * bool :=
  if n' =? 0 then (set_err CERR_PARAM inputs, false)
  else match safe_mul n' sizeof_slot with
       | None => (set_err CERR_OVERFLOW inputs, false)
       | Some _ =>
           match realloc o (slots inputs) n' with
           | None => (set_err CERR_MEMORY inputs, false)
           | Some tmp =>
               (set_slots tmp
                  (set_n_alloc n'
                     (set_n (if n' <? n inputs then n' else n inputs) inputs)),
                true)
           end
       end.

Definition cinputs_clear (inputs : cinputs) : cinputs :=
  if failed (err inputs) then inputs else set_n 0 inputs.

Definition cinputs_clone (calloc_ok : bool) (o : alloc slot) (inputs : cinputs)
  : option cinputs :=
  if failed (err inputs) || negb calloc_ok then Some cinputs_placeholder_instance
  else
    match resize o calloc_instance (n_alloc inputs) with
    | (_, false) => Some cinputs_placeholder_instance
    | (inputs_new, true) =>
        src ← region (slots inputs) (n inputs);
        tmp ← memcpy_at (slots inputs_new) 0 src;
        Some (set_err CERR_NONE
                (set_n (n inputs)
                   (set_default_ptr (default_ptr inputs)
                      (set_slots tmp inputs_new))))
    end.

Definition cinputs_create (calloc_ok : bool) (o : alloc slot) (max_inputs : Z)
  : cinputs :=
  if negb calloc_ok then cinputs_placeholder_instance
  else
    match resize o calloc_instance max_inputs with
    | (_, false) => cinputs_placeholder_instance
    | (inputs, true) =>
        set_err CERR_NONE (set_n 0 (set_default_ptr 0 inputs))
    end.

Definition cinputs_error (inputs : cinputs) : cerr := err inputs.

(** The loop of [cinputs_find], at index [i] with [k] iterations left. *)
Fixpoint find_loop (buf : list slot) (id' : Z) (i : Z) (k : nat)
  : option (option Z) :=
  match k with
  | O => Some None
  | S k' =>
      s ← load buf i;
      if id s =? id' then Some (Some i) else find_loop buf id' (i + 1) k'
  end.

(** [Some i]: the C result [true] with [*index = i]; [None]: [false]. *)
Definition cinputs_find (inputs : cinputs) (id' : Z) : option (option Z) :=
  if failed (err inputs) then Some None
  else find_loop (slots inputs) id' 0 (Z.to_nat (n inputs)).

Definition cinputs_id (inputs : cinputs) (index : Z) : option Z :=
  if failed (err inputs) || (n inputs <=? index) then Some 0
  else s ← load (slots inputs) index; Some (id s).

Definition cinputs_load (inputs : cinputs) : Z :=
  if failed (err inputs) then 0 else n inputs.

Definition cinputs_ptr (inputs : cinputs) (index : Z) : option Z :=
  if failed (err inputs) || (n inputs <=? index) then Some (default_ptr inputs)
  else s ← load (slots inputs) index; Some (ptr s).

Definition cinputs_pull_index (inputs : cinputs) (index : Z) : option cinputs :=
  if failed (err inputs) || (n inputs <=? index) then Some inputs
  else
    let n' := size_wrap (n inputs - 1) in
    tmp ← memmove (slots inputs) index (index + 1) (size_wrap (n' - index));
    Some (set_slots tmp (set_n n' inputs)).

Definition cinputs_pull_id (inputs : cinputs) (id' : Z) : option cinputs :=
  r ← cinputs_find inputs id';
  match r with
  | Some index => cinputs_pull_index inputs index
  | None => Some inputs
  end.

Definition cinputs_push (inputs : cinputs) (id' x' y' ptr' : Z) : option cinputs :=
  if failed (err inputs) then Some inputs
  else
    inputs ← cinputs_pull_id inputs id';
    if n_alloc inputs <=? n inputs then Some inputs
    else
      tmp ← store (slots inputs) (n inputs)
              {| id := id'; x := int16_of_int x'; y := int16_of_int y'; ptr := ptr' |};
      Some (set_n (size_wrap (n inputs + 1)) (set_slots tmp inputs)).

Definition cinputs_repair (inputs : cinputs) : cinputs :=
  if cerr_eqb (err inputs) CERR_INVALID then inputs else set_err CERR_NONE inputs.

Definition cinputs_resize (o : alloc slot) (inputs : cinputs) (max_inputs : Z)
  : cinputs :=
  if failed (err inputs) then inputs else fst (resize o inputs max_inputs).

Definition cinputs_set_default_ptr (inputs : cinputs) (ptr' : Z) : cinputs :=
  if failed (err inputs) then inputs else set_default_ptr ptr' inputs.

Definition cinputs_x (inputs : cinputs) (index : Z) : option Z :=
  if failed (err inputs) || (n inputs <=? index) then Some 0
  else s ← load (slots inputs) index; Some (x s).

Definition cinputs_y (inputs : cinputs) (index : Z) : option Z :=
  if failed (err inputs) || (n inputs <=? index) then Some 0
  else s ← load (slots inputs) index; Some (y s).

(** The public operations on one instance, and what they return. *)
Inductive op : Type :=
  | Clear
  | Clone (calloc_ok : bool) (o : alloc slot)
  | Error
  | Find (id' : Z)
  | Id (index : Z)
  | Load
  | Ptr (index : Z)
  | PullId (id' : Z)
  | PullIndex (index : Z)
  | Push (id' x' y' ptr' : Z)
  | Repair
  | Resize (o : alloc slot) (max_inputs : Z)
  | SetDefaultPtr (ptr' : Z)
  | X (index : Z)
  | Y (index : Z).

Inductive ret : Type :=
  | RVoid
  | RBool (b : bool)
  | RUint (v : Z)
  | RInt16 (v : Z)
  | RSize (v : Z)
  | RPtr (p : Z)
  | RErr (e : cerr)
  | RInstance (c : cinputs).

(** One call: the instance afterwards and the value returned. *)
Definition step (o : op) (inputs : cinputs) : option (cinputs * ret) :=
  match o with
  | Clear => Some (cinputs_clear inputs, RVoid)
  | Clone ok f => c ← cinputs_clone ok f inputs; Some (inputs, RInstance c)
  | Error => Some (inputs, RErr (cinputs_error inputs))
  | Find id' => r ← cinputs_find inputs id'; Some (inputs, RBool (bool_decide (is_Some r)))
  | Id i => v ← cinputs_id inputs i; Some (inputs, RUint v)
  | Load => Some (inputs, RSize (cinputs_load inputs))
  | Ptr i => v ← cinputs_ptr inputs i; Some (inputs, RPtr v)
  | PullId id' => c ← cinputs_pull_id inputs id'; Some (c, RVoid)
  | PullIndex i => c ← cinputs_pull_index inputs i; Some (c, RVoid)
  | Push id' x' y' p => c ← cinputs_push inputs id' x' y' p; Some (c, RVoid)
  | Repair => Some (cinputs_repair inputs, RVoid)
  | Resize f m => Some (cinputs_resize f inputs m, RVoid)
  | SetDefaultPtr p => Some (cinputs_set_default_ptr inputs p, RVoid)
  | X i => v ← cinputs_x inputs i; Some (inputs, RInt16 v)
  | Y i => v ← cinputs_y inputs i; Some (inputs, RInt16 v)
  end.

(** Error control ([error], [repair]) as opposed to the container's
    operations proper. *)
Definition error_control (o : op) : bool :=
  match o with Error | Repair => true | _ => false end.

(** The value each operation returns when it does nothing. *)
Definition default_ret (o : op) (inputs : cinputs) : ret :=
  match o with
  | Clear | PullId _ | PullIndex _ | Push _ _ _ _ | Repair
  | Resize _ _ | SetDefaultPtr _ => RVoid
  | Clone _ _ => RInstance cinputs_placeholder_instance
  | Error => RErr (err inputs)
  | Find _ => RBool false
  | Id _ => RUint 0
  | Load => RSize 0
  | Ptr _ => RPtr (default_ptr inputs)
  | X _ | Y _ => RInt16 0
  end.

(** A run of calls on one instance. *)
Fixpoint run (ops : list op) (inputs : cinputs) : option cinputs :=
  match ops with
  | [] => Some inputs
  | o :: ops' => r ← step o inputs; run ops' r.1
  end.

(** The live entries. *)
Definition live (inputs : cinputs) : list slot :=
  take (Z.to_nat (n inputs)) (slots inputs).

(** The arguments of a call have the C types of the prototype: a [size_t]
    is in range. *)
Definition typed (o : op) : Prop :=
  match o with
  | Id i | Ptr i | PullIndex i | X i | Y i => 0 <= i <= SIZE_MAX
  | Resize _ m => 0 <= m <= SIZE_MAX
  | _ => True
  end.

(** The instances a program can hold: made by [cinputs_create] or
    [cinputs_clone], then used through the public functions. *)
Inductive reachable : cinputs -> Prop :=
  | reach_create ok o m :
      0 <= m <= SIZE_MAX -> reachable (cinputs_create ok o m)
  | reach_clone c ok o c' :
      reachable c -> cinputs_clone ok o c = Some c' -> reachable c'
  | reach_step c o c' r :
      reachable c -> typed o -> step o c = Some (c', r) -> reachable c'.

(** Representation invariant. *)
Record wf (c : cinputs) : Prop := Wf {
  wf_n : 0 <= n c <= n_alloc c;
  wf_len : Z.of_nat (length (slots c)) = n_alloc c;
  wf_size : n_alloc c * sizeof_slot <= SIZE_MAX;
  wf_ids : NoDup (id <$> live c)
}.



(** The entry that [cinputs_push] writes. *)
Definition new_slot (id' x' y' ptr' : Z) : slot :=
  {| id := id'; x := int16_of_int x'; y := int16_of_int y'; ptr := ptr' |}.

(** The test of the loop of [cinputs_find]. *)
Definition has_id (id' : Z) (s : slot) : Prop := id s = id'.

#[global] Instance has_id_dec id' s : Decision (has_id id' s).
Proof. unfold has_id. apply _. Defined.

(** A sequence of [cinputs_push] calls. *)
Definition push_all (args : list (Z * Z * Z * Z)) : list op :=
  (fun a : Z * Z * Z * Z => Push a.1.1.1 a.1.1.2 a.1.2 a.2) <$> args.

(** An allocator that succeeds and hands out zeroed cells. *)
Definition zero_slots : alloc slot := Some (fun _ => Slot 0 0 0 0).

(** A table of capacity 2 that holds the ids 1 and 2. *)
Definition full_table : cinputs :=
  {| slots := [Slot 1 10 10 100; Slot 2 20 20 200];
     n := 2; n_alloc := 2; default_ptr := 0; err := CERR_NONE |}.

(** The payload of an entry. *)
Definition payload (s : slot) : Z * Z * Z := (x s, y s, ptr s).

(** What a caller reads for an id: the index [cinputs_find] reports, then
    [cinputs_x], [cinputs_y] and [cinputs_ptr] at that index; [Some None]
    when [cinputs_find] returns [false]. *)
Definition entry_of (inputs : cinputs) (id' : Z) : option (option (Z * Z * Z)) :=
  r ← cinputs_find inputs id';
  match r with
  | None => Some None
  | Some i =>
      x' ← cinputs_x inputs i;
      y' ← cinputs_y inputs i;
      p ← cinputs_ptr inputs i;
      Some (Some (x', y', p))
  end.

End Cinputs.

(** ** Reference registry (cref) *)

Module Cref.

Definition sizeof_slot : Z := 16.

Record slot : Type := Slot { ptr : Z; n_ref : Z }.

Record cref : Type := Cref {
  slots : list slot;
  n : Z;
  n_alloc : Z;
  default_ptr : Z;
  err : cerr
}.

Definition set_slots (v : list slot) (r : cref) : cref :=
  Cref v (n r) (n_alloc r) (default_ptr r) (err r).
Definition set_n (v : Z) (r : cref) : cref :=
  Cref (slots r) v (n_alloc r) (default_ptr r) (err r).
Definition set_n_alloc (v : Z) (r : cref) : cref :=
  Cref (slots r) (n r) v (default_ptr r) (err r).
Definition set_default_ptr (v : Z) (r : cref) : cref :=
  Cref (slots r) (n r) (n_alloc r) v (err r).
Definition set_err (v : cerr) (r : cref) : cref :=
  Cref (slots r) (n r) (n_alloc r) (default_ptr r) v.

Definition cref_placeholder_instance : cref :=
  {| slots := []; n := 0; n_alloc := 0; default_ptr := 0; err := CERR_INVALID |}.

(** The object [calloc (1, sizeof (cref))] returns: all fields zero. *)
Definition calloc_instance : cref :=
  {| slots := []; n := 0; n_alloc := 0; default_ptr := 0; err := CERR_NONE |}.

(** static [grow]; the boolean is the C return value. *)
Definition grow (o : alloc slot) (ref : cref) (n' : Z) : cref * bool :=
  if n' <=? n_alloc ref then (ref, true)
  else match safe_mul n' sizeof_slot with
       | None => (set_err CERR_OVERFLOW ref, false)
       | Some _ =>
           match realloc o (slots ref) n' with
           | None => (set_err CERR_MEMORY ref, false)
           | Some tmp => (set_slots tmp (set_n_alloc n' ref), true)
           end
       end.

(** static [pull]: [memmove] with the length decremented first. *)
Definition pull (ref : cref) (i : Z) : option cref :=
  let n' := size_wrap (n ref - 1) in
  tmp ← memmove (slots ref) i (i + 1) (size_wrap (n' - i));
  Some (set_slots tmp (set_n n' ref)).

Definition cref_clear (ref : cref) : cref :=
  if failed (err ref) then ref else set_n 0 ref.

Definition cref_clone (calloc_ok : bool) (o : alloc slot) (ref : cref)
  : option cref :=
  if failed (err ref) || negb calloc_ok then Some cref_placeholder_instance
  else
    match grow o calloc_instance (n_alloc ref) with
    | (_, false) => Some cref_placeholder_instance
    | (ref_new, true) =>
        src ← region (slots ref) (n ref);
        tmp ← memcpy_at (slots ref_new) 0 src;
        Some (set_err CERR_NONE
                (set_default_ptr (default_ptr ref)
                   (set_n (n ref) (set_slots tmp ref_new))))
    end.

Definition cref_count (ref : cref) (index : Z) : option Z :=
  if failed (err ref) || (n ref <=? index) then Some 0
  else s ← load (slots ref) index; Some (n_ref s).

Definition cref_create (calloc_ok : bool) (o : alloc slot) : cref :=
  if negb calloc_ok then cref_placeholder_instance
  else
    match grow o calloc_instance 1 with
    | (_, false) => cref_placeholder_instance
    | (ref, true) => set_err CERR_NONE (set_default_ptr 0 (set_n 0 ref))
    end.

Definition cref_error (ref : cref) : cerr := err ref.

(** The loop of [cref_find], at index [i] with [k] iterations left: the
    count returned and the index written through [index], if any. *)
Fixpoint find_loop (buf : list slot) (ptr' : Z) (i : Z) (k : nat)
  : option (Z * option Z) :=
  match k with
  | O => Some (0, None)
  | S k' =>
      s ← load buf i;
      if ptr s =? ptr' then Some (n_ref s, Some i)
      else find_loop buf ptr' (i + 1) k'
  end.

Definition cref_find (ref : cref) (ptr' : Z) : option (Z * option Z) :=
  if failed (err ref) then Some (0, None)
  else find_loop (slots ref) ptr' 0 (Z.to_nat (n ref)).

Definition cref_length (ref : cref) : Z :=
  if failed (err ref) then 0 else n ref.

Definition cref_prealloc (o : alloc slot) (ref : cref) (slots_number : Z) : cref :=
  if failed (err ref) then ref else fst (grow o ref slots_number).

Definition cref_ptr (ref : cref) (index : Z) : option Z :=
  if failed (err ref) || (n ref <=? index) then Some (default_ptr ref)
  else s ← load (slots ref) index; Some (ptr s).

Definition cref_pull_index (ref : cref) (index : Z) : option cref :=
  if failed (err ref) || (n ref <=? index) then Some ref
  else
    s ← load (slots ref) index;
    let c := uint_wrap (n_ref s - 1) in
    tmp ← store (slots ref) index {| ptr := ptr s; n_ref := c |};
    let ref := set_slots tmp ref in
    if 0 <? c then Some ref else pull ref index.

(** The callers of [cref_find] declare [size_t i = 0] and pass [&i]. *)
Definition cref_pull_ptr (ref : cref) (ptr' : Z) : option cref :=
  r ← cref_find ref ptr';
  if 0 <? r.1 then cref_pull_index ref (default 0 r.2) else Some ref.

Definition cref_purge_index (ref : cref) (index : Z) : option cref :=
  if failed (err ref) || (n ref <=? index) then Some ref
  else pull ref index.

Definition cref_purge_ptr (ref : cref) (ptr' : Z) : option cref :=
  r ← cref_find ref ptr';
  if 0 <? r.1 then cref_purge_index ref (default 0 r.2) else Some ref.

Definition cref_push (o : alloc slot) (ref : cref) (ptr' : Z) : option cref :=
  if failed (err ref) then Some ref
  else
    r ← cref_find ref ptr';
    let i := default 0 r.2 in
    if 0 <? r.1 then
      s ← load (slots ref) i;
      if n_ref s =? UINT_MAX then Some (set_err CERR_OVERFLOW ref)
      else
        tmp ← store (slots ref) i {| ptr := ptr s; n_ref := uint_wrap (n_ref s + 1) |};
        Some (set_slots tmp ref)
    else
      let grown :=
        if n_alloc ref <=? n ref then
          match safe_mul (n_alloc ref) 2 with
          | None => (set_err CERR_OVERFLOW ref, false)
          | Some _ => grow o ref (size_wrap (n_alloc ref * 2))
          end
        else (ref, true) in
      if grown.2 then
        tmp ← store (slots grown.1) (n grown.1) {| ptr := ptr'; n_ref := 1 |};
        Some (set_n (size_wrap (n grown.1 + 1)) (set_slots tmp grown.1))
      else Some grown.1.

Definition cref_repair (ref : cref) : cref :=
  if cerr_eqb (err ref) CERR_INVALID then ref else set_err CERR_NONE ref.

Definition cref_set_default_ptr (ref : cref) (ptr' : Z) : cref :=
  if failed (err ref) then ref else set_default_ptr ptr' ref.

(** The public operations on one instance, and what they return. *)
Inductive op : Type :=
  | Clear
  | Clone (calloc_ok : bool) (o : alloc slot)
  | Count (index : Z)
  | Error
  | Find (ptr' : Z)
  | Length
  | Prealloc (o : alloc slot) (slots_number : Z)
  | Ptr (index : Z)
  | PullIndex (index : Z)
  | PullPtr (ptr' : Z)
  | PurgeIndex (index : Z)
  | PurgePtr (ptr' : Z)
  | Push (o : alloc slot) (ptr' : Z)
  | Repair
  | SetDefaultPtr (ptr' : Z).

Inductive ret : Type :=
  | RVoid
  | RUint (v : Z)
  | RSize (v : Z)
  | RPtr (p : Z)
  | RErr (e : cerr)
  | RInstance (r : cref).

(** One call: the instance afterwards and the value returned. *)
Definition step (o : op) (ref : cref) : option (cref * ret) :=
  match o with
  | Clear => Some (cref_clear ref, RVoid)
  | Clone ok f => c ← cref_clone ok f ref; Some (ref, RInstance c)
  | Count i => v ← cref_count ref i; Some (ref, RUint v)
  | Error => Some (ref, RErr (cref_error ref))
  | Find p => r ← cref_find ref p; Some (ref, RUint r.1)
  | Length => Some (ref, RSize (cref_length ref))
  | Prealloc f m => Some (cref_prealloc f ref m, RVoid)
  | Ptr i => v ← cref_ptr ref i; Some (ref, RPtr v)
  | PullIndex i => c ← cref_pull_index ref i; Some (c, RVoid)
  | PullPtr p => c ← cref_pull_ptr ref p; Some (c, RVoid)
  | PurgeIndex i => c ← cref_purge_index ref i; Some (c, RVoid)
  | PurgePtr p => c ← cref_purge_ptr ref p; Some (c, RVoid)
  | Push f p => c ← cref_push f ref p; Some (c, RVoid)
  | Repair => Some (cref_repair ref, RVoid)
  | SetDefaultPtr p => Some (cref_set_default_ptr ref p, RVoid)
  end.

Definition error_control (o : op) : bool :=
  match o with Error | Repair => true | _ => false end.

(** The value each operation returns when it does nothing. *)
Definition default_ret (o : op) (ref : cref) : ret :=
  match o with
  | Clear | Prealloc _ _ | PullIndex _ | PullPtr _ | PurgeIndex _
  | PurgePtr _ | Push _ _ | Repair | SetDefaultPtr _ => RVoid
  | Clone _ _ => RInstance cref_placeholder_instance
  | Count _ | Find _ => RUint 0
  | Error => RErr (err ref)
  | Length => RSize 0
  | Ptr _ => RPtr (default_ptr ref)
  end.

(** A run of calls on one instance. *)
Fixpoint run (ops : list op) (ref : cref) : option cref :=
  match ops with
  | [] => Some ref
  | o :: ops' => r ← step o ref; run ops' r.1
  end.

(** The live entries. *)
Definition live (ref : cref) : list slot :=
  take (Z.to_nat (n ref)) (slots ref).

(** The arguments of a call have the C types of the prototype: a [size_t]
    is in range. *)
Definition typed (o : op) : Prop :=
  match o with
  | Count i | Ptr i | PullIndex i | PurgeIndex i => 0 <= i <= SIZE_MAX
  | Prealloc _ m => 0 <= m <= SIZE_MAX
  | _ => True
  end.

(** The instances a program can hold: made by [cref_create] or
    [cref_clone], then used through the public functions. *)
Inductive reachable : cref -> Prop :=
  | reach_create ok o : reachable (cref_create ok o)
  | reach_clone r ok o r' :
      reachable r -> cref_clone ok o r = Some r' -> reachable r'
  | reach_step r o r' v :
      reachable r -> typed o -> step o r = Some (r', v) -> reachable r'.

(** Representation invariant. *)
Record wf (r : cref) : Prop := Wf {
  wf_n : 0 <= n r <= n_alloc r;
  wf_len : Z.of_nat (length (slots r)) = n_alloc r;
  wf_size : n_alloc r * sizeof_slot <= SIZE_MAX;
  wf_alloc : 1 <= n_alloc r \/ err r = CERR_INVALID;
  wf_ptrs : NoDup (ptr <$> live r);
  wf_refs : Forall (fun s => 1 <= n_ref s <= UINT_MAX) (live r)
}.

(** The test of the loop of [cref_find]. *)
Definition has_ptr (ptr' : Z) (s : slot) : Prop := ptr s = ptr'.

#[global] Instance has_ptr_dec ptr' s : Decision (has_ptr ptr' s).
Proof. unfold has_ptr. apply _. Defined.

(** The count of the first live entry that holds [ptr'], 0 without one. *)
Definition count (r : cref) (ptr' : Z) : Z :=
  match list_find (has_ptr ptr') (live r) with
  | Some (_, s) => n_ref s
  | None => 0
  end.

(** The same on a list of entries. *)
Definition count_in (ptr' : Z) (l : list slot) : Z :=
  match list_find (has_ptr ptr') l with
  | Some (_, s) => n_ref s
  | None => 0
  end.

(** A registry of capacity 1 that holds [ptr'] with [k] references. *)
Definition single (ptr' k : Z) : cref :=
  {| slots := [Slot ptr' k]; n := 1; n_alloc := 1; default_ptr := 0;
     err := CERR_NONE |}.

(** A sequence of [cref_push] calls of one pointer, one allocator answer
    per call. *)
Definition push_all (os : list (alloc slot)) (ptr' : Z) : list op :=
  (fun o => Push o ptr') <$> os.

(** An allocator that succeeds and hands out zeroed cells. *)
Definition zero_slots : alloc slot := Some (fun _ => Slot 0 0).

End Cref.

(** ** String arena (cbook) *)

Module Cbook.

Definition sizeof_size_t : Z := 8.

Record cbook : Type := Cbook {
  chars : list ascii;
  words : list Z;
  groups : list Z;
  n_chars : Z;
  n_words : Z;
  n_groups : Z;
  n_alloc_chars : Z;
  n_alloc_words : Z;
  n_alloc_groups : Z;
  new_group : bool;
  err : cerr
}.

Definition set_chars (v : list ascii) (b : cbook) : cbook :=
  Cbook v (words b) (groups b) (n_chars b) (n_words b) (n_groups b)
    (n_alloc_chars b) (n_alloc_words b) (n_alloc_groups b) (new_group b) (err b).
Definition set_words (v : list Z) (b : cbook) : cbook :=
  Cbook (chars b) v (groups b) (n_chars b) (n_words b) (n_groups b)
    (n_alloc_chars b) (n_alloc_words b) (n_alloc_groups b) (new_group b) (err b).
Definition set_groups (v : list Z) (b : cbook) : cbook :=
  Cbook (chars b) (words b) v (n_chars b) (n_words b) (n_groups b)
    (n_alloc_chars b) (n_alloc_words b) (n_alloc_groups b) (new_group b) (err b).
Definition set_n_chars (v : Z) (b : cbook) : cbook :=
  Cbook (chars b) (words b) (groups b) v (n_words b) (n_groups b)
    (n_alloc_chars b) (n_alloc_words b) (n_alloc_groups b) (new_group b) (err b).
Definition set_n_words (v : Z) (b : cbook) : cbook :=
  Cbook (chars b) (words b) (groups b) (n_chars b) v (n_groups b)
    (n_alloc_chars b) (n_alloc_words b) (n_alloc_groups b) (new_group b) (err b).
Definition set_n_groups (v : Z) (b : cbook) : cbook :=
  Cbook (chars b) (words b) (groups b) (n_chars b) (n_words b) v
    (n_alloc_chars b) (n_alloc_words b) (n_alloc_groups b) (new_group b) (err b).
Definition set_n_alloc_chars (v : Z) (b : cbook) : cbook :=
  Cbook (chars b) (words b) (groups b) (n_chars b) (n_words b) (n_groups b)
    v (n_alloc_words b) (n_alloc_groups b) (new_group b) (err b).
Definition set_n_alloc_words (v : Z) (b : cbook) : cbook :=
  Cbook (chars b) (words b) (groups b) (n_chars b) (n_words b) (n_groups b)
    (n_alloc_chars b) v (n_alloc_groups b) (new_group b) (err b).
Definition set_n_alloc_groups (v : Z) (b : cbook) : cbook :=
  Cbook (chars b) (words b) (groups b) (n_chars b) (n_words b) (n_groups b)
    (n_alloc_chars b) (n_alloc_words b) v (new_group b) (err b).
Definition set_new_group (v : bool) (b : cbook) : cbook :=
  Cbook (chars b) (words b) (groups b) (n_chars b) (n_words b) (n_groups b)
    (n_alloc_chars b) (n_alloc_words b) (n_alloc_groups b) v (err b).
Definition set_err (v : cerr) (b : cbook) : cbook :=
  Cbook (chars b) (words b) (groups b) (n_chars b) (n_words b) (n_groups b)
    (n_alloc_chars b) (n_alloc_words b) (n_alloc_groups b) (new_group b) v.

Definition cbook_placeholder_instance : cbook :=
  {| chars := []; words := []; groups := [];
     n_chars := 0; n_words := 0; n_groups := 0;
     n_alloc_chars := 0; n_alloc_words := 0; n_alloc_groups := 0;
     new_group := false; err := CERR_INVALID |}.

(** The object [calloc (1, sizeof (cbook))] returns: all fields zero. *)
Definition calloc_instance : cbook :=
  {| chars := []; words := []; groups := [];
     n_chars := 0; n_words := 0; n_groups := 0;
     n_alloc_chars := 0; n_alloc_words := 0; n_alloc_groups := 0;
     new_group := false; err := CERR_NONE |}.

(** *** C strings *)

(** The bytes of the C string a [const char *] argument points to: the
    characters before the first NUL. *)
Fixpoint c_bytes (s : string) : list ascii :=
  match s with
  | EmptyString => []
  | String c s' => if Ascii.eqb c Ascii.zero then [] else c :: c_bytes s'
  end.

Definition strlen (s : string) : Z := Z.of_nat (length (c_bytes s)).

(** The C string that starts at the head of [l]; [None] when no NUL
    follows inside the buffer. *)
Fixpoint c_string (l : list ascii) : option string :=
  match l with
  | [] => None
  | c :: l' =>
      if Ascii.eqb c Ascii.zero then Some EmptyString
      else s ← c_string l'; Some (String c s)
  end.

(** The string the pointer [buf + off] denotes. *)
Definition string_at (buf : list ascii) (off : Z) : option string :=
  if off <? 0 then None else c_string (drop (Z.to_nat off) buf).

(** A [const char *] result: a string literal of the library, or a
    pointer into the byte buffer of the book. *)
Inductive cstr : Type :=
  | Literal (s : string)
  | Chars (off : Z).

(** [buf + off]: a pointer into the buffer or one past its end. *)
Definition ptr_into (buf : list ascii) (off : Z) : option cstr :=
  if (0 <=? off) && (off <=? Z.of_nat (length buf))
  then Some (Chars off) else None.

(** *** Static functions *)

Definition group_size (book : cbook) (i : Z) : option Z :=
  if n_groups book <=? i then Some 0
  else if i =? size_wrap (n_groups book - 1) then
    g ← load (groups book) i; Some (size_wrap (n_words book - g))
  else
    g1 ← load (groups book) (i + 1);
    g ← load (groups book) i;
    Some (size_wrap (g1 - g)).

(** The three blocks of [grow]: char, word indexes, group indexes. *)
Definition grow_chars (o : alloc ascii) (book : cbook) (n_chars' : Z) : cbook * bool :=
  if n_alloc_chars book <? n_chars' then
    match realloc o (chars book) n_chars' with
    | None => (set_err CERR_MEMORY book, false)
    | Some tmp => (set_chars tmp (set_n_alloc_chars n_chars' book), true)
    end
  else (book, true).

Definition grow_words (o : alloc Z) (book : cbook) (n_words' : Z) : cbook * bool :=
  if n_alloc_words book <? n_words' then
    match realloc o (words book) n_words' with
    | None => (set_err CERR_MEMORY book, false)
    | Some tmp => (set_words tmp (set_n_alloc_words n_words' book), true)
    end
  else (book, true).

Definition grow_groups (o : alloc Z) (book : cbook) (n_groups' : Z) : cbook * bool :=
  if n_alloc_groups book <? n_groups' then
    match realloc o (groups book) n_groups' with
    | None => (set_err CERR_MEMORY book, false)
    | Some tmp => (set_groups tmp (set_n_alloc_groups n_groups' book), true)
    end
  else (book, true).

(** The allocator's answers to the three requests of one [grow]. *)
Record allocs : Type := Allocs {
  for_chars : alloc ascii;
  for_words : alloc Z;
  for_groups : alloc Z
}.

(** static [grow]; the boolean is the C return value. *)
Definition grow (o : allocs) (book : cbook) (n_chars' n_words' n_groups' : Z)
  : cbook * bool :=
  match safe_mul n_words' sizeof_size_t, safe_mul n_groups' sizeof_size_t with
  | Some _, Some _ =>
      let r := grow_chars (for_chars o) book n_chars' in
      if r.2 then
        let r := grow_words (for_words o) r.1 n_words' in
        if r.2 then grow_groups (for_groups o) r.1 n_groups' else r
      else r
  | _, _ => (set_err CERR_OVERFLOW book, false)
  end.

(** *** Public functions *)

Definition cbook_clear (book : cbook) : cbook :=
  if failed (err book) then book
  else set_new_group true (set_n_chars 0 (set_n_words 0 (set_n_groups 0 book))).

Definition cbook_clone (calloc_ok : bool) (o : allocs) (book : cbook)
  : option cbook :=
  if failed (err book) || negb calloc_ok then Some cbook_placeholder_instance
  else
    match grow o calloc_instance
            (n_alloc_chars book) (n_alloc_words book) (n_alloc_groups book) with
    | (_, false) => Some cbook_placeholder_instance
    | (book_new, true) =>
        src_c ← region (chars book) (n_chars book);
        tmp_c ← memcpy_at (chars book_new) 0 src_c;
        src_w ← region (words book) (n_words book);
        tmp_w ← memcpy_at (words book_new) 0 src_w;
        src_g ← region (groups book) (n_groups book);
        tmp_g ← memcpy_at (groups book_new) 0 src_g;
        Some (set_err CERR_NONE
                (set_new_group (new_group book)
                   (set_n_groups (n_groups book)
                      (set_n_words (n_words book)
                         (set_n_chars (n_chars book)
                            (set_groups tmp_g
                               (set_words tmp_w
                                  (set_chars tmp_c book_new))))))))
    end.

Definition cbook_create (calloc_ok : bool) (o : allocs) : cbook :=
  if negb calloc_ok then cbook_placeholder_instance
  else
    match grow o calloc_instance 1 1 1 with
    | (_, false) => cbook_placeholder_instance
    | (book, true) =>
        set_err CERR_NONE
          (set_new_group true
             (set_n_groups 0 (set_n_words 0 (set_n_chars 0 book))))
    end.

Definition cbook_error (book : cbook) : cerr := err book.

Definition cbook_group_length (book : cbook) (group_index : Z) : option Z :=
  if failed (err book) then Some 0 else group_size book group_index.

Definition cbook_groups_number (book : cbook) : Z :=
  if failed (err book) then 0 else n_groups book.

Definition cbook_length (book : cbook) : Z :=
  if failed (err book) then 0 else n_chars book.

Definition cbook_pop_group (book : cbook) : option cbook :=
  if failed (err book) || (n_groups book =? 0) then Some book
  else
    let ng := size_wrap (n_groups book - 1) in
    g ← load (groups book) ng;
    w ← load (words book) g;
    let book := set_n_words g (set_n_chars w (set_n_groups ng book)) in
    Some (if n_groups book =? 0 then set_new_group true book else book).

Definition cbook_pop_word (book : cbook) : option cbook :=
  if failed (err book) || (n_words book =? 0) then Some book
  else
    g ← load (groups book) (size_wrap (n_groups book - 1));
    let book :=
      if g =? size_wrap (n_words book - 1) then
        let book := set_n_groups (size_wrap (n_groups book - 1)) book in
        if n_groups book =? 0 then set_new_group true book else book
      else book in
    let nw := size_wrap (n_words book - 1) in
    w ← load (words book) nw;
    Some (set_n_chars w (set_n_words nw book)).

Definition cbook_prealloc (o : allocs) (book : cbook)
    (bytes_number words_number groups_number : Z) : cbook :=
  if failed (err book) then book
  else fst (grow o book bytes_number words_number groups_number).

Definition cbook_prepare_new_group (book : cbook) : cbook :=
  if failed (err book) then book else set_new_group true book.

Definition cbook_repair (book : cbook) : cbook :=
  if cerr_eqb (err book) CERR_INVALID then book else set_err CERR_NONE book.

Definition cbook_undo_new_group (book : cbook) : cbook :=
  if failed (err book) || (n_groups book =? 0) then book
  else set_new_group false book.

Definition cbook_word (book : cbook) (word_index : Z) : option cstr :=
  if failed (err book) || (n_words book <=? word_index)
  then Some (Literal EmptyString)
  else w ← load (words book) word_index; ptr_into (chars book) w.

(** The guard shared by [cbook_word_in_group] and [cbook_word_index]:
    [err || group_size == 0 || group_size <= word_local_index]. *)
Definition no_such_word (book : cbook) (group_index word_local_index : Z)
  : option bool :=
  if failed (err book) then Some true
  else
    s ← group_size book group_index;
    Some ((s =? 0) || (s <=? word_local_index)).

Definition cbook_word_in_group (book : cbook) (group_index word_local_index : Z)
  : option cstr :=
  bad ← no_such_word book group_index word_local_index;
  if bad : bool then Some (Literal EmptyString)
  else
    g ← load (groups book) group_index;
    w ← load (words book) (size_wrap (g + word_local_index));
    ptr_into (chars book) w.

(** The characters a returned string points to. *)
Definition deref (book : cbook) (s : cstr) : option string :=
  match s with
  | Literal s => Some s
  | Chars off => string_at (chars book) off
  end.

Definition cbook_word_index (book : cbook) (group_index word_local_index : Z)
  : option Z :=
  bad ← no_such_word book group_index word_local_index;
  if bad : bool then Some 0
  else
    g ← load (groups book) group_index;
    Some (size_wrap (g + word_local_index)).

Definition cbook_words_number (book : cbook) : Z :=
  if failed (err book) then 0 else n_words book.

(** The loop [while (ns > nc - book->n_chars)] of [cbook_write]:
    [Some (Some nc)] when it ends with the capacity [nc], [Some None] when
    [safe_mul] reports an overflow, [None] when [fuel] iterations do not
    end it. *)
Fixpoint fit_chars (fuel : nat) (ns nc n_chars' : Z) : option (option Z) :=
  if size_wrap (nc - n_chars') <? ns then
    match fuel with
    | O => None
    | S fuel' =>
        match safe_mul nc 2 with
        | None => Some None
        | Some nc' => fit_chars fuel' ns nc' n_chars'
        end
    end
  else Some (Some nc).

(** Doubling a capacity of at least one byte overflows [size_t] within 64
    iterations. *)
Definition fit_fuel : nat := 64.

Definition cbook_write (o : allocs) (book : cbook) (str : string) : option cbook :=
  if failed (err book) then Some book
  else
    let ns := size_wrap (strlen str + 1) in
    let nw := size_wrap (n_alloc_words book
                         * (if n_alloc_words book <=? n_words book then 2 else 1)) in
    let ng := size_wrap (n_alloc_groups book
                         * (if n_alloc_groups book <=? n_groups book then 2 else 1)) in
    fit ← fit_chars fit_fuel ns (n_alloc_chars book) (n_chars book);
    match fit with
    | None => Some (set_err CERR_OVERFLOW book)
    | Some nc =>
        let r := grow o book nc nw ng in
        if r.2 then
          let book := r.1 in
          book ← (if new_group book then
                    tmp ← store (groups book) (n_groups book) (n_words book);
                    Some (set_new_group false
                            (set_n_groups (size_wrap (n_groups book + 1))
                               (set_groups tmp book)))
                  else Some book);
          tmp_c ← memcpy_at (chars book) (n_chars book) (c_bytes str ++ [Ascii.zero]);
          tmp_w ← store (words book) (n_words book) (n_chars book);
          Some (set_n_chars (size_wrap (n_chars book + ns))
                  (set_n_words (size_wrap (n_words book + 1))
                     (set_words tmp_w (set_chars tmp_c book))))
        else Some r.1
    end.

Definition cbook_zero (book : cbook) : option cbook :=
  if failed (err book) then Some book
  else
    tmp ← memcpy_at (chars book) 0
            (replicate (Z.to_nat (n_alloc_chars book)) Ascii.zero);
    Some (set_n_chars 0 (set_n_words 0 (set_n_groups 0 (set_chars tmp book)))).

(** The public operations on one instance, and what they return. *)
Inductive op : Type :=
  | Clear
  | Clone (calloc_ok : bool) (o : allocs)
  | Error
  | GroupLength (group_index : Z)
  | GroupsNumber
  | Length
  | PopGroup
  | PopWord
  | Prealloc (o : allocs) (bytes_number words_number groups_number : Z)
  | PrepareNewGroup
  | Repair
  | UndoNewGroup
  | Word (word_index : Z)
  | WordInGroup (group_index word_local_index : Z)
  | WordIndex (group_index word_local_index : Z)
  | WordsNumber
  | Write (o : allocs) (str : string)
  | Zero.

Inductive ret : Type :=
  | RVoid
  | RSize (v : Z)
  | RStr (s : cstr)
  | RErr (e : cerr)
  | RInstance (b : cbook).

(** One call: the instance afterwards and the value returned. *)
Definition step (o : op) (book : cbook) : option (cbook * ret) :=
  match o with
  | Clear => Some (cbook_clear book, RVoid)
  | Clone ok f => c ← cbook_clone ok f book; Some (book, RInstance c)
  | Error => Some (book, RErr (cbook_error book))
  | GroupLength g => v ← cbook_group_length book g; Some (book, RSize v)
  | GroupsNumber => Some (book, RSize (cbook_groups_number book))
  | Length => Some (book, RSize (cbook_length book))
  | PopGroup => b ← cbook_pop_group book; Some (b, RVoid)
  | PopWord => b ← cbook_pop_word book; Some (b, RVoid)
  | Prealloc f c w g => Some (cbook_prealloc f book c w g, RVoid)
  | PrepareNewGroup => Some (cbook_prepare_new_group book, RVoid)
  | Repair => Some (cbook_repair book, RVoid)
  | UndoNewGroup => Some (cbook_undo_new_group book, RVoid)
  | Word i => s ← cbook_word book i; Some (book, RStr s)
  | WordInGroup g i => s ← cbook_word_in_group book g i; Some (book, RStr s)
  | WordIndex g i => v ← cbook_word_index book g i; Some (book, RSize v)
  | WordsNumber => Some (book, RSize (cbook_words_number book))
  | Write f s => b ← cbook_write f book s; Some (b, RVoid)
  | Zero => b ← cbook_zero book; Some (b, RVoid)
  end.

Definition error_control (o : op) : bool :=
  match o with Error | Repair => true | _ => false end.

(** The value each operation returns when it does nothing. *)
Definition default_ret (o : op) (book : cbook) : ret :=
  match o with
  | Clear | PopGroup | PopWord | Prealloc _ _ _ _ | PrepareNewGroup
  | Repair | UndoNewGroup | Write _ _ | Zero => RVoid
  | Clone _ _ => RInstance cbook_placeholder_instance
  | Error => RErr (err book)
  | GroupLength _ | GroupsNumber | Length | WordIndex _ _ | WordsNumber => RSize 0
  | Word _ | WordInGroup _ _ => RStr (Literal EmptyString)
  end.

(** A run of calls on one instance. *)
Fixpoint run (ops : list op) (book : cbook) : option cbook :=
  match ops with
  | [] => Some book
  | o :: ops' => r ← step o book; run ops' r.1
  end.

(** The arguments of a call have the C types of the prototype: a [size_t]
    is in range, and a C string with its terminator fits the address
    space. *)
Definition typed (o : op) : Prop :=
  match o with
  | GroupLength g => 0 <= g <= SIZE_MAX
  | Prealloc _ c w g =>
      0 <= c <= SIZE_MAX /\ 0 <= w <= SIZE_MAX /\ 0 <= g <= SIZE_MAX
  | Word i => 0 <= i <= SIZE_MAX
  | WordInGroup g i | WordIndex g i => 0 <= g <= SIZE_MAX /\ 0 <= i <= SIZE_MAX
  | Write _ s => strlen s + 1 <= SIZE_MAX
  | _ => True
  end.

(** The instances a program can hold: made by [cbook_create] or
    [cbook_clone], then used through the public functions, as far as
    their behaviour is defined. *)
Inductive reachable : cbook -> Prop :=
  | reach_create ok o : reachable (cbook_create ok o)
  | reach_clone b ok o b' :
      reachable b -> cbook_clone ok o b = Some b' -> reachable b'
  | reach_step b o b' v :
      reachable b -> typed o -> step o b = Some (b', v) -> reachable b'.

(** The live word and group offsets. *)
Definition live_words (b : cbook) : list Z :=
  take (Z.to_nat (n_words b)) (words b).
Definition live_groups (b : cbook) : list Z :=
  take (Z.to_nat (n_groups b)) (groups b).

(** The shape of a book: the lengths are within the allocations, the word
    offsets point into the byte buffer, and the group offsets are
    increasing indices of live words. *)
Record shape (b : cbook) : Prop := Shape {
  sh_chars : 0 <= n_chars b <= n_alloc_chars b;
  sh_words : 0 <= n_words b <= n_alloc_words b;
  sh_groups : 0 <= n_groups b <= n_alloc_groups b;
  sh_len_chars : Z.of_nat (length (chars b)) = n_alloc_chars b;
  sh_len_words : Z.of_nat (length (words b)) = n_alloc_words b;
  sh_len_groups : Z.of_nat (length (groups b)) = n_alloc_groups b;
  sh_size_chars : n_alloc_chars b <= SIZE_MAX;
  sh_size_words : n_alloc_words b * sizeof_size_t <= SIZE_MAX;
  sh_size_groups : n_alloc_groups b * sizeof_size_t <= SIZE_MAX;
  sh_word_offsets : Forall (fun w => 0 <= w <= n_alloc_chars b) (live_words b);
  sh_group_offsets : Forall (fun g => 0 <= g < n_words b) (live_groups b);
  sh_group_sorted : StronglySorted Z.lt (live_groups b)
}.

(** Representation invariant: the shape, and storage for at least one
    byte, word and group unless the instance is the placeholder. *)
Record wf (b : cbook) : Prop := Wf {
  wf_shape : shape b;
  wf_alloc : (1 <= n_alloc_chars b /\ 1 <= n_alloc_words b
              /\ 1 <= n_alloc_groups b) \/ err b = CERR_INVALID
}.

(** Every word belongs to a group: while the book holds no group it holds
    no word and the next write opens a group (the placeholder apart, which
    takes no write), and the first group starts at the first word. *)
Record grouped (b : cbook) : Prop := Grouped {
  grouped_flag : n_groups b = 0 -> new_group b = true \/ err b = CERR_INVALID;
  grouped_words : n_groups b = 0 -> n_words b = 0;
  grouped_first : 0 < n_groups b -> live_groups b !! 0%nat = Some 0
}.

(** The calls other than [cbook_zero]. *)
Definition not_zero (o : op) : Prop :=
  match o with Zero => False | _ => True end.

(** What [cbook_length], [cbook_words_number] and [cbook_groups_number]
    report. *)
Definition observe (b : cbook) : Z * Z * Z :=
  (cbook_length b, cbook_words_number b, cbook_groups_number b).

(** A sequence of [cbook_write] calls, one allocator answer per call. *)
Definition write_all (ws : list (allocs * string)) : list op :=
  (fun w : allocs * string => Write w.1 w.2) <$> ws.

(** An allocator that succeeds and hands out zeroed cells. *)
Definition zero_cells : allocs :=
  Allocs (Some (fun _ => Ascii.zero)) (Some (fun _ => 0)) (Some (fun _ => 0)).

(** What a growth of the storage keeps: the lengths, the flag and the live
    offsets; the allocations do not shrink. *)
Record frame (b b' : cbook) : Prop := Frame {
  fr_n_chars : n_chars b' = n_chars b;
  fr_n_words : n_words b' = n_words b;
  fr_n_groups : n_groups b' = n_groups b;
  fr_new_group : new_group b' = new_group b;
  fr_words : live_words b' = live_words b;
  fr_groups : live_groups b' = live_groups b;
  fr_alloc_chars : n_alloc_chars b <= n_alloc_chars b';
  fr_alloc_words : n_alloc_words b <= n_alloc_words b';
  fr_alloc_groups : n_alloc_groups b <= n_alloc_groups b'
}.

(** Two books that agree on the lengths and on the live offsets. *)
Record same_live (b b' : cbook) : Prop := SameLive {
  sl_chars : n_chars b' = n_chars b;
  sl_words : n_words b' = n_words b;
  sl_groups : n_groups b' = n_groups b;
  sl_live_words : live_words b' = live_words b;
  sl_live_groups : live_groups b' = live_groups b
}.

(** The calls that only read. *)
Definition reads (o : op) : bool :=
  match o with
  | Clone _ _ | Error | GroupLength _ | GroupsNumber | Length | Word _
  | WordInGroup _ _ | WordIndex _ _ | WordsNumber => true
  | _ => false
  end.

(** The bytes of a sequence of words as the byte buffer stores them: each
    word is followed by its terminator. *)
Fixpoint flat (ss : list (list ascii)) : list ascii :=
  match ss with
  | [] => []
  | s :: ss' => s ++ Ascii.zero :: flat ss'
  end.

(** Where each of these words starts, the first one at [start]. *)
Fixpoint offsets (start : Z) (ss : list (list ascii)) : list Z :=
  match ss with
  | [] => []
  | s :: ss' => start :: offsets (start + Z.of_nat (length s) + 1) ss'
  end.

(** The book holds the words [ss]: the used part of the byte buffer is
    their bytes, and the live word offsets are where they start. *)
Record holds (b : cbook) (ss : list (list ascii)) : Prop := Holds {
  ho_nul : Forall (fun s => Ascii.zero ∉ s) ss;
  ho_words : live_words b = offsets 0 ss;
  ho_chars : take (Z.to_nat (n_chars b)) (chars b) = flat ss;
  ho_n_chars : n_chars b = Z.of_nat (length (flat ss))
}.

(** What a caller reads as the word at an index: the string that the
    pointer returned by [cbook_word] denotes. *)
Definition word_text (book : cbook) (word_index : Z) : option string :=
  c ← cbook_word book word_index; deref book c.

(** The same through [cbook_word_in_group]. *)
Definition group_word_text (book : cbook) (group_index word_local_index : Z)
  : option string :=
  c ← cbook_word_in_group book group_index word_local_index; deref book c.

(** An allocator that refuses every request. *)
Definition no_memory : allocs := Allocs None None None.

(** A book with two groups: the words "a" and "bc", then the word "d". *)
Definition sample_ops : list op :=
  [Write zero_cells "a"; Write zero_cells "bc"; PrepareNewGroup;
   Write zero_cells "d"].

Definition sample : cbook :=
  Eval vm_compute in
    default cbook_placeholder_instance
      (run sample_ops (cbook_create true zero_cells)).

End Cbook.

(** * Proofs *)

(** ** Arithmetic and memory *)

Lemma size_wrap_id z : 0 <= z <= SIZE_MAX -> size_wrap z = z.
Proof. intros H. unfold size_wrap, SIZE_MAX in *. apply Z.mod_small. lia. Qed.

Lemma uint_wrap_id z : 0 <= z <= UINT_MAX -> uint_wrap z = z.
Proof. intros H. unfold uint_wrap, UINT_MAX in *. apply Z.mod_small. lia. Qed.

Lemma safe_mul_Some a b p : safe_mul a b = Some p -> p = a * b /\ a * b <= SIZE_MAX.
Proof. unfold safe_mul. destruct (Z.leb_spec (a * b) SIZE_MAX); naive_solver. Qed.

Lemma safe_mul_None a b : safe_mul a b = None <-> SIZE_MAX < a * b.
Proof. unfold safe_mul. destruct (Z.leb_spec (a * b) SIZE_MAX); split; (congruence || lia). Qed.

Lemma failed_false e : failed e = false <-> e = CERR_NONE.
Proof. destruct e; simpl; split; congruence. Qed.

Lemma failed_recoverable e : recoverable e -> failed e = true.
Proof. intros [-> | [-> | ->]]; reflexivity. Qed.

Lemma load_in {A} (buf : list A) i :
  0 <= i < Z.of_nat (length buf) -> load buf i = buf !! Z.to_nat i.
Proof.
  intros H. unfold load.
  destruct (Z.leb_spec 0 i), (Z.ltb_spec i (Z.of_nat (length buf))); simpl; lia || done.
Qed.

Lemma load_is_Some {A} (buf : list A) i :
  0 <= i < Z.of_nat (length buf) -> is_Some (load buf i).
Proof.
  intros H. rewrite load_in by done. apply lookup_lt_is_Some. lia.
Qed.

Lemma load_Some {A} (buf : list A) i v :
  load buf i = Some v -> 0 <= i < Z.of_nat (length buf) /\ buf !! Z.to_nat i = Some v.
Proof.
  unfold load.
  destruct (Z.leb_spec 0 i), (Z.ltb_spec i (Z.of_nat (length buf))); simpl; try done.
Qed.

Lemma store_in {A} (buf : list A) i v :
  0 <= i < Z.of_nat (length buf) -> store buf i v = Some (<[Z.to_nat i := v]> buf).
Proof.
  intros H. unfold store.
  destruct (Z.leb_spec 0 i), (Z.ltb_spec i (Z.of_nat (length buf))); simpl; lia || done.
Qed.

Lemma store_Some {A} (buf : list A) i v l :
  store buf i v = Some l ->
  0 <= i < Z.of_nat (length buf) /\ l = <[Z.to_nat i := v]> buf.
Proof.
  unfold store.
  destruct (Z.leb_spec 0 i), (Z.ltb_spec i (Z.of_nat (length buf))); simpl; naive_solver.
Qed.

Lemma realloc_Some {A} (o : alloc A) old n l :
  realloc o old n = Some l ->
  length l = Z.to_nat n /\
  forall k, (k <= Z.to_nat n)%nat -> (k <= length old)%nat -> take k l = take k old.
Proof.
  unfold realloc. destruct o as [junk|]; [|done]. intros [= <-]. split.
  - rewrite length_app, length_take, length_fmap, length_seq. lia.
  - intros k Hk1 Hk2. rewrite take_app_le by (rewrite length_take; lia).
    rewrite take_take. f_equal. lia.
Qed.

Lemma realloc_None {A} (o : alloc A) old n : realloc o old n = None <-> o = None.
Proof. unfold realloc. destruct o; naive_solver. Qed.

(** Removing the element at [i] from the first [n] cells by [memmove]. *)
Lemma memmove_shift {A} (buf : list A) (i n : nat) :
  (i < n)%nat -> (n <= length buf)%nat ->
  exists l, memmove buf (Z.of_nat i) (Z.of_nat i + 1) (Z.of_nat n - 1 - Z.of_nat i) = Some l
    /\ length l = length buf
    /\ take (n - 1) l = delete i (take n buf).
Proof.
  intros Hi Hn. unfold memmove.
  assert (Hc : (0 <=? Z.of_nat i) && (0 <=? Z.of_nat i + 1)
               && (0 <=? Z.of_nat n - 1 - Z.of_nat i)
               && (Z.of_nat i + 1 + (Z.of_nat n - 1 - Z.of_nat i) <=? Z.of_nat (length buf))
               && (Z.of_nat i + (Z.of_nat n - 1 - Z.of_nat i) <=? Z.of_nat (length buf)) = true).
  { repeat (apply andb_true_intro; split); apply Z.leb_le; lia. }
  rewrite Hc. eexists; split; [reflexivity|].
  replace (Z.to_nat (Z.of_nat i)) with i by lia.
  replace (Z.to_nat (Z.of_nat i + 1)) with (S i) by lia.
  replace (Z.to_nat (Z.of_nat n - 1 - Z.of_nat i)) with (n - 1 - i)%nat by lia.
  replace (Z.to_nat (Z.of_nat i + (Z.of_nat n - 1 - Z.of_nat i))) with (n - 1)%nat by lia.
  split.
  - rewrite !length_app, !length_take, !length_drop. lia.
  - rewrite app_assoc, take_app_le
      by (rewrite length_app, !length_take, length_drop; lia).
    rewrite take_ge by (rewrite length_app, !length_take, length_drop; lia).
    rewrite delete_take_drop, take_take, take_drop_commute.
    f_equal; [f_equal; lia|]. do 2 f_equal. lia.
Qed.

Lemma memcpy_at_0 {A} (dst src : list A) :
  (length src <= length dst)%nat ->
  memcpy_at dst 0 src = Some (src ++ drop (length src) dst).
Proof.
  intros H. unfold memcpy_at.
  destruct (Z.leb_spec (0 + Z.of_nat (length src)) (Z.of_nat (length dst))); [|lia].
  simpl. reflexivity.
Qed.

Lemma region_in {A} (src : list A) cnt :
  0 <= cnt <= Z.of_nat (length src) -> region src cnt = Some (take (Z.to_nat cnt) src).
Proof.
  intros H. unfold region.
  destruct (Z.leb_spec 0 cnt), (Z.leb_spec cnt (Z.of_nat (length src))); simpl; lia || done.
Qed.

(** Case analysis on every integer comparison of the goal. *)
Ltac zcases :=
  repeat match goal with
    | |- context [?a <=? ?b] => destruct (Z.leb_spec a b)
    | |- context [?a <? ?b] => destruct (Z.ltb_spec a b)
    | |- context [?a =? ?b] => destruct (Z.eqb_spec a b)
    end.

(** ** Slot table *)

Module CinputsFacts.
Import Cinputs.

Lemma find_loop_list_find buf id' k : forall i : nat,
  (i + k <= length buf)%nat ->
  find_loop buf id' (Z.of_nat i) k
  = Some ((fun p : nat * slot => Z.of_nat (i + p.1))
            <$> list_find (has_id id') (take k (drop i buf))).
Proof.
  induction k as [|k IH]; intros i Hlen; simpl.
  - reflexivity.
  - rewrite load_in by lia. rewrite Nat2Z.id.
    destruct (buf !! i) as [s|] eqn:Hs;
      [|apply lookup_ge_None in Hs; lia].
    rewrite (drop_S _ _ _ Hs). simpl. unfold has_id at 1.
    destruct (Z.eqb_spec (id s) id') as [Heq|Hne].
    + rewrite decide_True by done. simpl. do 2 f_equal. lia.
    + rewrite decide_False by done.
      replace (Z.of_nat i + 1) with (Z.of_nat (S i)) by lia.
      rewrite IH by lia. f_equal.
      destruct (list_find (has_id id') (take k (drop (S i) buf))) as [[j t]|];
        simpl; [|done]. f_equal. lia.
Qed.

Lemma cinputs_find_spec c id' :
  wf c -> err c = CERR_NONE ->
  cinputs_find c id'
  = Some ((fun p : nat * slot => Z.of_nat p.1) <$> list_find (has_id id') (live c)).
Proof.
  intros [Hn Hlen _ _] He. unfold cinputs_find, live. rewrite He. simpl.
  rewrite (find_loop_list_find _ _ _ 0%nat) by lia. rewrite drop_0. done.
Qed.

Lemma live_length c : wf c -> length (live c) = Z.to_nat (n c).
Proof. intros [Hn Hlen _ _]. unfold live. rewrite length_take. lia. Qed.






(** Removing the first entry with a given id removes the only one. *)
Lemma delete_found_ids id' (l : list slot) i s :
  NoDup (id <$> l) -> list_find (has_id id') l = Some (i, s) ->
  (id' ∉ id <$> delete i l) /\ NoDup (id <$> delete i l).
Proof.
  intros Hnd (Hi & Hs & _)%list_find_Some. unfold has_id in Hs.
  rewrite <- (take_drop_middle l i s Hi) in Hnd.
  rewrite delete_take_drop.
  rewrite fmap_app in *. rewrite fmap_cons, Hs in Hnd.
  apply NoDup_app in Hnd as (H1 & H2 & (H3 & H4)%NoDup_cons).
  split.
  - rewrite elem_of_app. intros [H|H]; [|done].
    apply (H2 _ H). left.
  - apply NoDup_app. split_and!; [done| |done].
    intros z Hz Hz'. apply (H2 _ Hz). by right.
Qed.

Lemma wf_setters c e p :
  wf c -> wf (set_err e c) /\ wf (set_default_ptr p c).
Proof. intros [? ? ? ?]. split; constructor; done. Qed.

Lemma wf_set_err c e : wf c -> wf (set_err e c).
Proof. intros H. apply (wf_setters c e 0 H). Qed.

Lemma wf_placeholder : wf cinputs_placeholder_instance.
Proof. constructor; simpl; try done. unfold live. simpl. constructor. Qed.

Lemma resize_spec o c m :
  wf c -> 0 <= m ->
  wf (resize o c m).1
  /\ live (resize o c m).1
     = (if (resize o c m).2 then take (Z.to_nat m) (live c) else live c)
  /\ ((resize o c m).2 = true ->
      n_alloc (resize o c m).1 = m /\ 0 < m /\ err (resize o c m).1 = err c
      /\ default_ptr (resize o c m).1 = default_ptr c).
Proof.
  intros Hwf Hm. pose proof Hwf as [Hn Hlen Hsz Hids]. unfold resize.
  destruct (Z.eqb_spec m 0) as [->|Hm0]; simpl.
  { split; [by apply wf_set_err|]. done. }
  destruct (safe_mul m sizeof_slot) as [p|] eqn:Hmul; simpl.
  2:{ split; [by apply wf_set_err|]. done. }
  apply safe_mul_Some in Hmul as [_ Hmul].
  destruct (realloc o (slots c) m) as [tmp|] eqn:Hr; simpl.
  2:{ split; [by apply wf_set_err|]. done. }
  apply realloc_Some in Hr as [Hl Hpre].
  assert (Hlv : live (set_slots tmp (set_n_alloc m
                  (set_n (if m <? n c then m else n c) c)))
                = take (Z.to_nat m) (live c)).
  { unfold live. simpl. rewrite take_take.
    destruct (Z.ltb_spec m (n c)).
    - rewrite Hpre by lia. f_equal. lia.
    - rewrite Hpre by lia. f_equal. lia. }
  split; [|split; [done|intros _; simpl; split_and!; done || lia]].
  constructor; simpl.
  - destruct (Z.ltb_spec m (n c)); lia.
  - lia.
  - done.
  - rewrite Hlv, fmap_take. eapply sublist_NoDup; [exact Hids|apply sublist_take].
Qed.

Lemma wf_range c : wf c -> 0 <= n c <= n_alloc c /\ n_alloc c <= SIZE_MAX.
Proof. intros [? ? Hs ?]. unfold sizeof_slot in Hs. lia. Qed.

Lemma cinputs_pull_index_spec c i :
  wf c -> err c = CERR_NONE -> 0 <= i < n c ->
  exists c', cinputs_pull_index c i = Some c'
    /\ wf c' /\ live c' = delete (Z.to_nat i) (live c)
    /\ n c' = n c - 1 /\ n_alloc c' = n_alloc c
    /\ default_ptr c' = default_ptr c /\ err c' = err c.
Proof.
  intros Hwf He Hi. pose proof (wf_range c Hwf) as Hr.
  pose proof Hwf as [Hn Hlen Hsz Hids].
  unfold cinputs_pull_index. rewrite He. simpl.
  destruct (Z.leb_spec (n c) i); [lia|].
  rewrite (size_wrap_id (n c - 1)) by lia.
  rewrite (size_wrap_id (n c - 1 - i)) by lia.
  destruct (memmove_shift (slots c) (Z.to_nat i) (Z.to_nat (n c)))
    as (l & Hm & Hl & Ht); [lia..|].
  rewrite !Z2Nat.id in Hm by lia. rewrite Hm. simpl.
  eexists; split; [reflexivity|].
  assert (Hlv : live (set_slots l (set_n (n c - 1) c))
                = delete (Z.to_nat i) (live c)).
  { unfold live. simpl. rewrite <- Ht. f_equal. lia. }
  split; [|by rewrite Hlv].
  constructor; simpl; try lia; try done.
  rewrite Hlv, list_fmap_delete.
  eapply sublist_NoDup; [exact Hids|apply sublist_delete].
Qed.

Lemma cinputs_pull_index_out c i :
  failed (err c) = true \/ n c <= i -> cinputs_pull_index c i = Some c.
Proof.
  intros H. unfold cinputs_pull_index.
  destruct (failed (err c)); simpl; [done|].
  destruct (Z.leb_spec (n c) i); [done|]. destruct H; [done|lia].
Qed.

(** [cinputs_pull_id] removes the first (hence the only) entry with the id. *)
Lemma cinputs_pull_id_spec c id' :
  wf c -> err c = CERR_NONE ->
  exists c', cinputs_pull_id c id' = Some c'
    /\ wf c' /\ (id' ∉ id <$> live c')
    /\ live c' = match list_find (has_id id') (live c) with
                 | Some (i, _) => delete i (live c)
                 | None => live c
                 end
    /\ n_alloc c' = n_alloc c /\ default_ptr c' = default_ptr c
    /\ err c' = err c /\ n c' = Z.of_nat (length (live c')).
Proof.
  intros Hwf He. unfold cinputs_pull_id.
  rewrite cinputs_find_spec by done. simpl.
  pose proof (live_length c Hwf) as Hll. pose proof (wf_range c Hwf) as Hr.
  destruct (list_find (has_id id') (live c)) as [[i s]|] eqn:Hf; simpl.
  - pose proof Hf as (Hi & _)%list_find_Some.
    apply lookup_lt_Some in Hi.
    destruct (cinputs_pull_index_spec c (Z.of_nat i))
      as (c' & Hp & Hwf' & Hlv & Hn' & Ha & Hd & He'); [done|done|lia|].
    rewrite Nat2Z.id in Hlv.
    exists c'. split_and!; try done.
    + rewrite Hlv. eapply delete_found_ids; [apply Hwf|exact Hf].
    + rewrite (live_length c' Hwf'). pose proof (wf_range c' Hwf'). lia.
  - exists c. split_and!; try done; [|lia].
    apply list_find_None in Hf. rewrite list_elem_of_fmap.
    intros (s & -> & Hs). rewrite Forall_forall in Hf. by apply (Hf s).
Qed.

(** [cinputs_push] on the list of live entries. *)
Lemma cinputs_push_spec c id' x' y' ptr' :
  wf c -> err c = CERR_NONE ->
  exists c', cinputs_push c id' x' y' ptr' = Some c'
    /\ wf c'
    /\ n_alloc c' = n_alloc c /\ default_ptr c' = default_ptr c
    /\ err c' = err c
    /\ let l := match list_find (has_id id') (live c) with
                | Some (i, _) => delete i (live c)
                | None => live c
                end in
       live c' = if n_alloc c <=? Z.of_nat (length l) then l
                 else l ++ [new_slot id' x' y' ptr'].
Proof.
  intros Hwf He. unfold cinputs_push, new_slot. rewrite He. simpl.
  destruct (cinputs_pull_id_spec c id' Hwf He)
    as (c1 & Hp & Hwf1 & Hnot & Hlv & Ha & Hd & He1 & Hn1).
  rewrite Hp. simpl. cbv zeta. rewrite <- Hlv, <- Hn1, Ha.
  pose proof (wf_range c1 Hwf1) as Hr. pose proof Hwf1 as [Hn Hlen Hsz Hids].
  destruct (Z.leb_spec (n_alloc c) (n c1)).
  { exists c1. split_and!; congruence || done. }
  rewrite store_in by lia. simpl. rewrite size_wrap_id by lia.
  eexists; split; [reflexivity|].
  set (s := {| id := id'; x := int16_of_int x'; y := int16_of_int y'; ptr := ptr' |}).
  assert (Hlv' : live (set_n (n c1 + 1)
                   (set_slots (<[Z.to_nat (n c1) := s]> (slots c1)) c1))
                 = live c1 ++ [s]).
  { unfold live. simpl.
    replace (Z.to_nat (n c1 + 1)) with (S (Z.to_nat (n c1))) by lia.
    erewrite take_S_r; [|apply list_lookup_insert_eq; lia].
    by rewrite take_insert_ge by lia. }
  split; [|simpl; rewrite Hlv'; split_and!; congruence || done].
  constructor; [simpl; lia|simpl; rewrite length_insert; lia|simpl; lia|].
  rewrite Hlv', fmap_app. apply NoDup_app. split_and!; [done| |apply NoDup_singleton].
  simpl. intros z Hz ->%list_elem_of_singleton. done.
Qed.

Lemma cinputs_clone_spec ok o c :
  wf c -> exists c', cinputs_clone ok o c = Some c' /\ wf c'
    /\ (err c' = CERR_NONE -> live c' = live c /\ n_alloc c' = n_alloc c
                              /\ default_ptr c' = default_ptr c).
Proof.
  intros Hwf. pose proof (wf_range c Hwf) as Hr.
  pose proof Hwf as [Hn Hlen Hsz Hids]. unfold cinputs_clone.
  destruct (failed (err c) || negb ok).
  { eexists; split; [done|]. split; [apply wf_placeholder|done]. }
  assert (Hc : wf calloc_instance).
  { constructor; simpl; try done. unfold live. simpl. constructor. }
  destruct (resize_spec o calloc_instance (n_alloc c) Hc) as (Hw & Hl & Hk); [lia|].
  destruct (resize o calloc_instance (n_alloc c)) as [c1 [|]]; simpl in *.
  2:{ eexists; split; [done|]. split; [apply wf_placeholder|done]. }
  destruct Hk as (Ha & Hpos & He & Hd); [done|].
  rewrite region_in by lia. simpl.
  pose proof Hw as [Hn1 Hlen1 Hsz1 _].
  rewrite memcpy_at_0 by (rewrite length_take; lia). simpl.
  eexists; split; [reflexivity|].
  assert (Hlv : live (set_err CERR_NONE (set_n (n c) (set_default_ptr (default_ptr c)
                  (set_slots (take (Z.to_nat (n c)) (slots c)
                     ++ drop (length (take (Z.to_nat (n c)) (slots c))) (slots c1)) c1))))
                = live c).
  { unfold live. simpl. rewrite take_app_length'; [done|].
    rewrite length_take. lia. }
  split; [|rewrite Hlv; simpl; intros _; split_and!; congruence || done].
  constructor; [simpl; lia| |simpl; congruence|by rewrite Hlv].
  simpl. rewrite length_app, length_drop, !length_take. lia.
Qed.

Lemma wf_create ok o m : 0 <= m <= SIZE_MAX -> wf (cinputs_create ok o m).
Proof.
  intros Hm. unfold cinputs_create. destruct ok; simpl; [|apply wf_placeholder].
  assert (Hc : wf calloc_instance).
  { constructor; simpl; try done. unfold live. simpl. constructor. }
  destruct (resize_spec o calloc_instance m Hc) as (Hw & Hl & Hk); [lia|].
  destruct (resize o calloc_instance m) as [c1 [|]]; simpl in *;
    [|apply wf_placeholder].
  destruct Hk as (Ha & Hpos & He & Hd); [done|].
  destruct Hw as [Hn1 Hlen1 Hsz1 _].
  constructor; simpl; try lia. unfold live. simpl. constructor.
Qed.

(** Every call with well-typed arguments has a defined result and keeps
    the representation invariant. *)
Lemma step_wf o c :
  wf c -> typed o -> exists c' r, step o c = Some (c', r) /\ wf c'.
Proof.
  intros Hwf Ht. pose proof (wf_range c Hwf) as Hr.
  pose proof Hwf as [Hn Hlen Hsz Hids].
  destruct (failed (err c)) eqn:Hf.
  { (* an error is set: nothing happens *)
    destruct o; simpl;
      unfold cinputs_clear, cinputs_clone, cinputs_find, cinputs_id, cinputs_ptr,
        cinputs_pull_id, cinputs_find, cinputs_pull_index, cinputs_push,
        cinputs_repair, cinputs_resize, cinputs_set_default_ptr,
        cinputs_x, cinputs_y; rewrite ?Hf; simpl; eauto.
    destruct (cerr_eqb (err c) CERR_INVALID); eauto using wf_set_err. }
  apply failed_false in Hf.
  destruct o; simpl in *.
  - (* clear *) eexists _, _; split; [done|]. unfold cinputs_clear.
    rewrite Hf. simpl. constructor; simpl; try lia; try done.
    unfold live. simpl. constructor.
  - (* clone *) destruct (cinputs_clone_spec calloc_ok o c Hwf) as (c' & -> & _).
    simpl. eauto.
  - (* error *) eauto.
  - (* find *) rewrite cinputs_find_spec by done. simpl. eauto.
  - (* id *) unfold cinputs_id. rewrite Hf. simpl.
    destruct (Z.leb_spec (n c) index); [eauto|].
    destruct (load_is_Some (slots c) index) as [s ->]; [lia|]. simpl. eauto.
  - (* load *) eauto.
  - (* ptr *) unfold cinputs_ptr. rewrite Hf. simpl.
    destruct (Z.leb_spec (n c) index); [eauto|].
    destruct (load_is_Some (slots c) index) as [s ->]; [lia|]. simpl. eauto.
  - (* pull_id *)
    destruct (cinputs_pull_id_spec c id' Hwf Hf) as (c' & -> & ? & _). simpl. eauto.
  - (* pull_index *)
    destruct (Z.le_gt_cases (n c) index).
    + rewrite cinputs_pull_index_out by auto. simpl. eauto.
    + destruct (cinputs_pull_index_spec c index) as (c' & -> & ? & _);
        [done|done|lia|]. simpl. eauto.
  - (* push *)
    destruct (cinputs_push_spec c id' x' y' ptr' Hwf Hf) as (c' & -> & ? & _).
    simpl. eauto.
  - (* repair *) eexists _, _; split; [done|]. unfold cinputs_repair.
    destruct (cerr_eqb (err c) CERR_INVALID); eauto using wf_set_err.
  - (* resize *) eexists _, _; split; [done|]. unfold cinputs_resize.
    rewrite Hf. simpl. apply resize_spec; [done|lia].
  - (* set_default_ptr *) eexists _, _; split; [done|].
    unfold cinputs_set_default_ptr. rewrite Hf. simpl.
    apply (wf_setters c CERR_NONE ptr' Hwf).
  - (* x *) unfold cinputs_x. rewrite Hf. simpl.
    destruct (Z.leb_spec (n c) index); [eauto|].
    destruct (load_is_Some (slots c) index) as [s ->]; [lia|]. simpl. eauto.
  - (* y *) unfold cinputs_y. rewrite Hf. simpl.
    destruct (Z.leb_spec (n c) index); [eauto|].
    destruct (load_is_Some (slots c) index) as [s ->]; [lia|]. simpl. eauto.
Qed.

Lemma reachable_wf c : reachable c -> wf c.
Proof.
  induction 1 as [ok o m Hm|c ok o c' _ IH Hc|c o c' r _ IH Ht Hs].
  - by apply wf_create.
  - destruct (cinputs_clone_spec ok o c IH) as (c'' & Hc' & Hw & _). congruence.
  - destruct (step_wf o c IH Ht) as (c'' & r' & Hs' & Hw). congruence.
Qed.

End CinputsFacts.

(** *** The claims on the slot table *)

Module CinputsClaims.
Import Cinputs CinputsFacts.







Lemma push_full_absent c id' x' y' ptr' :
  err c = CERR_NONE -> n c = n_alloc c -> cinputs_find c id' = Some None ->
  cinputs_push c id' x' y' ptr' = Some c.
Proof.
  intros He Hn Hf. unfold cinputs_push, cinputs_pull_id.
  rewrite He, Hf. simpl. rewrite Hn.
  destruct (Z.leb_spec (n_alloc c) (n_alloc c)); [done|lia].
Qed.

Lemma three_pushes_capacity_two junk a b d xa ya pa xb yb pb xd yd pd :
  a <> b -> a <> d -> b <> d ->
  exists c',
    run [Push a xa ya pa; Push b xb yb pb; Push d xd yd pd]
      (cinputs_create true (Some junk) 2) = Some c'
    /\ cinputs_load c' = 2
    /\ cinputs_find c' a = Some (Some 0)
    /\ cinputs_find c' b = Some (Some 1)
    /\ cinputs_find c' d = Some None.
Proof.
  intros Hab Had Hbd.
  assert (Eab : (a =? b) = false) by (by apply Z.eqb_neq).
  assert (Ead : (a =? d) = false) by (by apply Z.eqb_neq).
  assert (Ebd : (b =? d) = false) by (by apply Z.eqb_neq).
  eexists. split_and!.
  - unfold cinputs_create, resize, run, step, cinputs_push, cinputs_pull_id,
      cinputs_find. simpl. rewrite Eab. simpl. rewrite Ead, Ebd. simpl.
    reflexivity.
  - reflexivity.
  - unfold cinputs_find. simpl. by rewrite Z.eqb_refl.
  - unfold cinputs_find. simpl. by rewrite Eab, Z.eqb_refl.
  - unfold cinputs_find. simpl. by rewrite Ead, Ebd.
Qed.

(** C3: on an error-free slot table whose length equals its capacity, a
    push of an id that [find] does not report leaves the table as it was:
    the length is unchanged and the id is still not found.  With capacity
    2, three pushes of distinct ids leave the length at 2, the first two
    ids found and the third not. *)
Theorem cinputs_push_beyond_capacity :
  (forall c id' x' y' ptr',
     err c = CERR_NONE -> n c = n_alloc c -> cinputs_find c id' = Some None ->
     exists c', cinputs_push c id' x' y' ptr' = Some c'
       /\ c' = c
       /\ cinputs_load c' = cinputs_load c
       /\ cinputs_find c' id' = Some None)
  /\ (forall junk a b d xa ya pa xb yb pb xd yd pd,
       a <> b -> a <> d -> b <> d ->
       exists c',
         run [Push a xa ya pa; Push b xb yb pb; Push d xd yd pd]
           (cinputs_create true (Some junk) 2) = Some c'
         /\ cinputs_load c' = 2
         /\ cinputs_find c' a = Some (Some 0)
         /\ cinputs_find c' b = Some (Some 1)
         /\ cinputs_find c' d = Some None).
Proof.
  split.
  - intros c id' x' y' ptr' He Hn Hf. exists c.
    split_and!; [by apply push_full_absent|done..].
  - apply three_pushes_capacity_two.
Qed.

Lemma cinputs_push_beyond_capacity_witness :
  run (push_all [(1, 10, 10, 100); (2, 20, 20, 200)])
    (cinputs_create true zero_slots 2) = Some full_table
  /\ exists c', cinputs_push full_table 3 30 30 300 = Some c'
       /\ c' = full_table
       /\ cinputs_load c' = cinputs_load full_table
       /\ cinputs_find c' 3 = Some None.
Proof.
  split; [reflexivity|].
  apply (proj1 cinputs_push_beyond_capacity full_table 3 30 30 300);
    reflexivity.
Defined.

(** C9 as stated does not hold: with the default payload set to 7, the
    accessors [id], [x] and [y] return 0 at an index out of range; only
    [ptr] returns the payload. *)
Lemma cinputs_accessor_defaults_counterexample :
  default_ptr (cinputs_set_default_ptr full_table 7) = 7
  /\ (0 =? default_ptr (cinputs_set_default_ptr full_table 7)) = false
  /\ cinputs_id (cinputs_set_default_ptr full_table 7) 5 = Some 0
  /\ cinputs_x (cinputs_set_default_ptr full_table 7) 5 = Some 0
  /\ cinputs_y (cinputs_set_default_ptr full_table 7) 5 = Some 0
  /\ cinputs_ptr (cinputs_set_default_ptr full_table 7) 5 = Some 7.
Proof. repeat split. Qed.

(** C9, amended: at an index out of range or while an error is set, [ptr]
    returns the default payload, which [set_default_ptr] sets on an
    error-free table, and [id], [x] and [y] return 0. *)
Theorem cinputs_accessor_defaults (c : cinputs) (index : Z) :
  failed (err c) = true \/ n c <= index ->
  cinputs_ptr c index = Some (default_ptr c)
  /\ cinputs_id c index = Some 0
  /\ cinputs_x c index = Some 0
  /\ cinputs_y c index = Some 0
  /\ (forall p, err c = CERR_NONE ->
        default_ptr (cinputs_set_default_ptr c p) = p
        /\ cinputs_ptr (cinputs_set_default_ptr c p) index = Some p).
Proof.
  intros H.
  assert (Hg : failed (err c) || (n c <=? index) = true).
  { destruct H as [->|H]; [done|]. apply orb_true_iff. right. by apply Z.leb_le. }
  unfold cinputs_ptr, cinputs_id, cinputs_x, cinputs_y. rewrite Hg.
  split_and!; try done.
  intros p He. unfold cinputs_set_default_ptr. rewrite He in *. simpl in *.
  rewrite He, Hg. split; reflexivity.
Qed.

Lemma cinputs_accessor_defaults_witness :
  (failed (err full_table) = true \/ n full_table <= 5)
  /\ cinputs_ptr full_table 5 = Some (default_ptr full_table)
  /\ cinputs_id full_table 5 = Some 0
  /\ cinputs_x full_table 5 = Some 0
  /\ cinputs_y full_table 5 = Some 0
  /\ (forall p, err full_table = CERR_NONE ->
        default_ptr (cinputs_set_default_ptr full_table p) = p
        /\ cinputs_ptr (cinputs_set_default_ptr full_table p) 5 = Some p).
Proof.
  assert (H : failed (err full_table) = true \/ n full_table <= 5)
    by (right; simpl; lia).
  split; [exact H|]. exact (cinputs_accessor_defaults full_table 5 H).
Defined.

End CinputsClaims.

(** ** Reference registry *)

Module CrefFacts.
Import Cref.

Lemma ref_find_loop_list_find buf p k : forall i : nat,
  (i + k <= length buf)%nat ->
  find_loop buf p (Z.of_nat i) k
  = Some (match list_find (has_ptr p) (take k (drop i buf)) with
          | Some (j, s) => (n_ref s, Some (Z.of_nat (i + j)))
          | None => (0, None)
          end).
Proof.
  induction k as [|k IH]; intros i Hlen; simpl.
  - reflexivity.
  - rewrite load_in by lia. rewrite Nat2Z.id.
    destruct (buf !! i) as [s|] eqn:Hs;
      [|apply lookup_ge_None in Hs; lia].
    rewrite (drop_S _ _ _ Hs). simpl. unfold has_ptr at 1.
    destruct (Z.eqb_spec (ptr s) p) as [Heq|Hne].
    + rewrite decide_True by done. simpl. do 3 f_equal. lia.
    + rewrite decide_False by done.
      replace (Z.of_nat i + 1) with (Z.of_nat (S i)) by lia.
      rewrite IH by lia. f_equal.
      destruct (list_find (has_ptr p) (take k (drop (S i) buf))) as [[j t]|];
        simpl; [|done]. do 3 f_equal. lia.
Qed.

Lemma ref_range r : wf r -> 0 <= n r <= n_alloc r /\ n_alloc r <= SIZE_MAX.
Proof. intros [? ? Hs ? ? ?]. unfold sizeof_slot in Hs. lia. Qed.

Lemma ref_live_length r : wf r -> length (live r) = Z.to_nat (n r).
Proof. intros [Hn Hlen _ _ _ _]. unfold live. rewrite length_take. lia. Qed.

Lemma ref_live_lookup r (i : nat) s :
  live r !! i = Some s -> slots r !! i = Some s /\ (i < length (live r))%nat.
Proof.
  intros H. pose proof (lookup_lt_Some _ _ _ H) as Hl. split; [|done].
  unfold live in *. by apply lookup_take_Some in H as [? _].
Qed.

Lemma cref_find_spec r p :
  wf r -> err r = CERR_NONE ->
  cref_find r p
  = Some (match list_find (has_ptr p) (live r) with
          | Some (j, s) => (n_ref s, Some (Z.of_nat j))
          | None => (0, None)
          end).
Proof.
  intros [Hn Hlen _ _ _ _] He. unfold cref_find, live. rewrite He. simpl.
  rewrite (ref_find_loop_list_find _ _ _ 0%nat) by lia. rewrite drop_0. done.
Qed.

Lemma cref_find_count r p :
  wf r -> err r = CERR_NONE ->
  exists oi, cref_find r p = Some (count r p, oi).
Proof.
  intros Hwf He. rewrite cref_find_spec by done. unfold count.
  destruct (list_find (has_ptr p) (live r)) as [[j s]|]; eauto.
Qed.

(** Present entries have a positive count, absent pointers count 0. *)
Lemma count_pos r p : wf r -> (0 < count r p <-> p ∈ (ptr <$> live r)).
Proof.
  intros Hwf. unfold count.
  destruct (list_find (has_ptr p) (live r)) as [[j s]|] eqn:Hf.
  - apply list_find_Some in Hf as (Hj & Hs & _).
    apply list_elem_of_lookup_2 in Hj.
    pose proof (wf_refs r Hwf) as Hr. rewrite Forall_forall in Hr.
    specialize (Hr s Hj). split; [intros _|lia].
    apply list_elem_of_fmap. eauto.
  - apply list_find_None in Hf. rewrite Forall_forall in Hf.
    split; [lia|]. intros (s & -> & Hs)%list_elem_of_fmap. by destruct (Hf s Hs).
Qed.

Lemma count_range r p : wf r -> 0 <= count r p <= UINT_MAX.
Proof.
  intros Hwf. unfold count.
  destruct (list_find (has_ptr p) (live r)) as [[j s]|] eqn:Hf;
    [|unfold UINT_MAX; lia].
  apply list_find_Some in Hf as (Hj & _). apply list_elem_of_lookup_2 in Hj.
  pose proof (wf_refs r Hwf) as Hr. rewrite Forall_forall in Hr.
  specialize (Hr s Hj). lia.
Qed.

Lemma ref_wf_set_err r e : wf r -> err r = CERR_NONE -> wf (set_err e r).
Proof.
  intros [? ? ? Ha ? ?] He. constructor; try done. simpl.
  destruct Ha as [?|Ha]; [by left|congruence].
Qed.

Lemma ref_wf_placeholder : wf cref_placeholder_instance.
Proof.
  constructor; simpl; try done; try (by right); unfold live; simpl; constructor.
Qed.

(** [grow] keeps the entries and never shrinks the allocation. *)
Lemma grow_spec o r m :
  0 <= n r <= n_alloc r -> Z.of_nat (length (slots r)) = n_alloc r ->
  n_alloc r * sizeof_slot <= SIZE_MAX -> 0 <= m ->
  0 <= n (grow o r m).1 <= n_alloc (grow o r m).1
  /\ Z.of_nat (length (slots (grow o r m).1)) = n_alloc (grow o r m).1
  /\ n_alloc (grow o r m).1 * sizeof_slot <= SIZE_MAX
  /\ live (grow o r m).1 = live r
  /\ n (grow o r m).1 = n r
  /\ default_ptr (grow o r m).1 = default_ptr r
  /\ n_alloc r <= n_alloc (grow o r m).1
  /\ (if (grow o r m).2
      then err (grow o r m).1 = err r /\ m <= n_alloc (grow o r m).1
      else (grow o r m).1 = set_err CERR_OVERFLOW r
           \/ (grow o r m).1 = set_err CERR_MEMORY r).
Proof.
  intros Hn Hlen Hsz Hm. unfold grow.
  destruct (Z.leb_spec m (n_alloc r)); simpl.
  { split_and!; done || lia. }
  destruct (safe_mul m sizeof_slot) as [p|] eqn:Hmul; simpl.
  2:{ split_and!; try done; try lia. by left. }
  apply safe_mul_Some in Hmul as [_ Hmul].
  destruct (realloc o (slots r) m) as [tmp|] eqn:Hr; simpl.
  2:{ split_and!; try done; try lia. by right. }
  apply realloc_Some in Hr as [Hl Hpre].
  split_and!; try done; try lia.
  unfold live. simpl. apply Hpre; lia.
Qed.

(** An instance with the same live entries inherits the invariant. *)
Lemma ref_wf_same_live r r' :
  wf r -> live r' = live r ->
  0 <= n r' <= n_alloc r' -> Z.of_nat (length (slots r')) = n_alloc r' ->
  n_alloc r' * sizeof_slot <= SIZE_MAX ->
  1 <= n_alloc r' \/ err r' = CERR_INVALID ->
  wf r'.
Proof.
  intros [? ? ? ? Hp Hr] Hl ? ? ? ?. constructor; try done; by rewrite Hl.
Qed.

Lemma grow_wf o r m :
  wf r -> err r = CERR_NONE -> 0 <= m ->
  wf (grow o r m).1
  /\ live (grow o r m).1 = live r
  /\ n (grow o r m).1 = n r
  /\ default_ptr (grow o r m).1 = default_ptr r
  /\ (if (grow o r m).2
      then err (grow o r m).1 = CERR_NONE /\ m <= n_alloc (grow o r m).1
      else (grow o r m).1 = set_err CERR_OVERFLOW r
           \/ (grow o r m).1 = set_err CERR_MEMORY r).
Proof.
  intros Hwf He Hm. pose proof Hwf as [Hn Hlen Hsz Hal Hp Hrf].
  destruct (grow_spec o r m Hn Hlen Hsz Hm)
    as (H1 & H2 & H3 & H4 & H5 & H6 & H7 & H8).
  split_and!; try done.
  - apply (ref_wf_same_live r); try done. left.
    destruct Hal as [?|?]; [lia|congruence].
  - destruct (grow o r m).2; [|done]. destruct H8. split; congruence.
Qed.

Lemma delete_insert_same {A} (l : list A) i x : delete i (<[i:=x]> l) = delete i l.
Proof.
  revert i. induction l as [|y l IH]; intros [|i]; simpl; try done.
  f_equal. apply IH.
Qed.

Lemma list_find_insert_found {A} (P : A -> Prop) `{!forall x, Decision (P x)}
    (l : list A) i s s' :
  list_find P l = Some (i, s) -> P s' ->
  list_find P (<[i:=s']> l) = Some (i, s').
Proof.
  intros (Hi & Hs & Hlt)%list_find_Some Hs'. apply list_find_Some.
  split_and!; [|done|].
  - apply list_lookup_insert_eq. by eapply lookup_lt_Some.
  - intros j y Hj Hji. rewrite list_lookup_insert_ne in Hj by lia. eauto.
Qed.

Lemma list_find_snoc_absent {A} (P : A -> Prop) `{!forall x, Decision (P x)}
    (l : list A) s :
  list_find P l = None -> P s -> list_find P (l ++ [s]) = Some (length l, s).
Proof.
  intros Hn Hs. apply list_find_Some. split_and!; [|done|].
  - by rewrite lookup_app_r, Nat.sub_diag by lia.
  - intros j y Hj Hlt. rewrite lookup_app_l in Hj by lia.
    apply list_find_None in Hn. rewrite Forall_forall in Hn.
    apply Hn. by eapply list_elem_of_lookup_2.
Qed.

(** Removing the first entry that holds a pointer removes the only one. *)
Lemma delete_found_ptrs p (l : list slot) i s :
  NoDup (ptr <$> l) -> list_find (has_ptr p) l = Some (i, s) ->
  list_find (has_ptr p) (delete i l) = None /\ (p ∉ ptr <$> delete i l).
Proof.
  intros Hnd (Hi & Hs & _)%list_find_Some. unfold has_ptr in Hs.
  rewrite <- (take_drop_middle l i s Hi) in Hnd.
  rewrite delete_take_drop.
  rewrite fmap_app in *. rewrite fmap_cons, Hs in Hnd.
  apply NoDup_app in Hnd as (H1 & H2 & (H3 & H4)%NoDup_cons).
  assert (Hnot : p ∉ (ptr <$> take i l) ++ (ptr <$> drop (S i) l)).
  { rewrite elem_of_app. intros [H|H]; [|done]. apply (H2 _ H). left. }
  split; [|done]. apply list_find_None, Forall_forall. intros t Ht Hp.
  apply Hnot. rewrite <- fmap_app. apply list_elem_of_fmap. eauto.
Qed.

(** static [pull]: the entry at index [i] goes, the later ones move down. *)
Lemma pull_shape r i :
  0 <= i < n r -> n r <= Z.of_nat (length (slots r)) -> n r <= SIZE_MAX ->
  exists r', pull r i = Some r'
    /\ live r' = delete (Z.to_nat i) (live r)
    /\ n r' = n r - 1 /\ n_alloc r' = n_alloc r
    /\ default_ptr r' = default_ptr r /\ err r' = err r
    /\ length (slots r') = length (slots r).
Proof.
  intros Hi Hlen Hmax. unfold pull.
  rewrite (size_wrap_id (n r - 1)) by lia.
  rewrite (size_wrap_id (n r - 1 - i)) by lia.
  destruct (memmove_shift (slots r) (Z.to_nat i) (Z.to_nat (n r)))
    as (l & Hm & Hl & Ht); [lia..|].
  rewrite !Z2Nat.id in Hm by lia. rewrite Hm. simpl.
  eexists; split; [reflexivity|]. split_and!; try done.
  unfold live. simpl. rewrite <- Ht. f_equal. lia.
Qed.

Lemma cref_purge_index_spec r i :
  wf r -> err r = CERR_NONE -> 0 <= i < n r ->
  exists r', cref_purge_index r i = Some r'
    /\ wf r' /\ live r' = delete (Z.to_nat i) (live r) /\ err r' = CERR_NONE.
Proof.
  intros Hwf He Hi. pose proof (ref_range r Hwf) as Hr.
  pose proof Hwf as [Hn Hlen Hsz Hal Hp Hrf]. unfold cref_purge_index.
  rewrite He. simpl. destruct (Z.leb_spec (n r) i); [lia|].
  destruct (pull_shape r i) as (r' & -> & Hlv & Hn' & Ha & Hd & He' & Hl);
    [lia..|].
  exists r'. split_and!; try done; [|congruence].
  constructor; try lia; try congruence.
  - rewrite Hlv, list_fmap_delete.
    eapply sublist_NoDup; [exact Hp|apply sublist_delete].
  - rewrite Hlv. by apply Forall_delete.
Qed.

Lemma cref_pull_index_spec r i s :
  wf r -> err r = CERR_NONE -> 0 <= i < n r ->
  live r !! Z.to_nat i = Some s ->
  exists r', cref_pull_index r i = Some r'
    /\ wf r' /\ err r' = CERR_NONE
    /\ live r' = if 1 <? n_ref s
                 then <[Z.to_nat i := Slot (ptr s) (n_ref s - 1)]> (live r)
                 else delete (Z.to_nat i) (live r).
Proof.
  intros Hwf He Hi Hs. pose proof (ref_range r Hwf) as Hr.
  pose proof Hwf as [Hn Hlen Hsz Hal Hp Hrf]. unfold cref_pull_index.
  rewrite He. simpl. destruct (Z.leb_spec (n r) i); [lia|].
  pose proof (ref_live_lookup r _ s Hs) as [Hs' _].
  rewrite load_in, Hs' by lia. simpl.
  assert (Hrs : 1 <= n_ref s <= UINT_MAX).
  { rewrite Forall_forall in Hrf. apply Hrf. by eapply list_elem_of_lookup_2. }
  rewrite uint_wrap_id by lia. rewrite store_in by lia. simpl.
  set (s0 := {| ptr := ptr s; n_ref := n_ref s - 1 |}).
  set (r1 := set_slots (<[Z.to_nat i := s0]> (slots r)) r).
  assert (Hlv1 : live r1 = <[Z.to_nat i := s0]> (live r)).
  { unfold live, r1. simpl. rewrite take_insert_lt by lia. done. }
  destruct (Z.ltb_spec 0 (n_ref s - 1)), (Z.ltb_spec 1 (n_ref s)); try lia.
  - exists r1. split_and!; try done.
    constructor; try done.
    + unfold r1. simpl. rewrite length_insert. done.
    + rewrite Hlv1, list_fmap_insert. simpl.
      rewrite list_insert_id; [done|]. by rewrite list_lookup_fmap, Hs.
    + rewrite Hlv1. apply Forall_insert; [done|]. simpl. lia.
  - destruct (pull_shape r1 i) as (r' & -> & Hlv & Hn' & Ha & Hd & He' & Hl).
    { unfold r1. simpl. lia. }
    { unfold r1. simpl. rewrite length_insert. lia. }
    { unfold r1. simpl. lia. }
    rewrite Hlv1, delete_insert_same in Hlv.
    unfold r1 in *. simpl in *. rewrite length_insert in Hl.
    exists r'. split_and!; try done; [|congruence].
    constructor; try lia; try congruence.
    + rewrite Hlv, list_fmap_delete.
      eapply sublist_NoDup; [exact Hp|apply sublist_delete].
    + rewrite Hlv. by apply Forall_delete.
Qed.

Lemma ref_out_of_range r i :
  failed (err r) = true \/ n r <= i ->
  cref_pull_index r i = Some r /\ cref_purge_index r i = Some r
  /\ cref_count r i = Some 0 /\ cref_ptr r i = Some (default_ptr r).
Proof.
  intros H. unfold cref_pull_index, cref_purge_index, cref_count, cref_ptr.
  assert (failed (err r) || (n r <=? i) = true) as ->; [|done].
  destruct H as [->|H]; [done|]. apply orb_true_iff. right. by apply Z.leb_le.
Qed.

(** [cref_pull_ptr] on the counts. *)
Lemma cref_pull_ptr_spec r p :
  wf r -> err r = CERR_NONE ->
  exists r', cref_pull_ptr r p = Some r'
    /\ wf r' /\ err r' = CERR_NONE
    /\ count r' p = Z.max 0 (count r p - 1)
    /\ (count r p <= 1 -> p ∉ ptr <$> live r').
Proof.
  intros Hwf He. pose proof (ref_range r Hwf) as Hr.
  pose proof (ref_live_length r Hwf) as Hll.
  unfold cref_pull_ptr. rewrite cref_find_spec by done. simpl.
  pose proof (count_pos r p Hwf) as Hcp. unfold count in *.
  destruct (list_find (has_ptr p) (live r)) as [[j s]|] eqn:Hf; simpl.
  2:{ exists r. rewrite Hf. split_and!; try done. intros _ Hin. apply Hcp in Hin. lia. }
  pose proof Hf as (Hj & Hs & _)%list_find_Some.
  pose proof (lookup_lt_Some _ _ _ Hj) as Hlt.
  assert (Hrs : 1 <= n_ref s <= UINT_MAX).
  { pose proof (wf_refs r Hwf) as Hrf. rewrite Forall_forall in Hrf.
    apply Hrf. by eapply list_elem_of_lookup_2. }
  destruct (Z.ltb_spec 0 (n_ref s)); [|lia].
  destruct (cref_pull_index_spec r (Z.of_nat j) s) as (r' & -> & Hwf' & He' & Hlv);
    [done|done|lia|by rewrite Nat2Z.id|].
  rewrite Nat2Z.id in Hlv.
  exists r'. split_and!; try done.
  - destruct (Z.ltb_spec 1 (n_ref s)).
    + rewrite Hlv.
      erewrite list_find_insert_found; [|exact Hf|done]. simpl. lia.
    + rewrite Hlv.
      destruct (delete_found_ptrs p (live r) j s (wf_ptrs r Hwf) Hf) as [-> _]. lia.
  - intros Hle. destruct (Z.ltb_spec 1 (n_ref s)); [lia|]. rewrite Hlv.
    by destruct (delete_found_ptrs p (live r) j s (wf_ptrs r Hwf) Hf) as [_ ?].
Qed.

Lemma cref_purge_ptr_spec r p :
  wf r -> err r = CERR_NONE ->
  exists r', cref_purge_ptr r p = Some r'
    /\ wf r' /\ err r' = CERR_NONE /\ count r' p = 0.
Proof.
  intros Hwf He. pose proof (ref_range r Hwf) as Hr.
  pose proof (ref_live_length r Hwf) as Hll.
  unfold cref_purge_ptr. rewrite cref_find_spec by done. simpl.
  unfold count.
  destruct (list_find (has_ptr p) (live r)) as [[j s]|] eqn:Hf; simpl.
  2:{ exists r. by rewrite Hf. }
  pose proof Hf as (Hj & Hs & _)%list_find_Some.
  pose proof (lookup_lt_Some _ _ _ Hj) as Hlt.
  assert (Hrs : 1 <= n_ref s <= UINT_MAX).
  { pose proof (wf_refs r Hwf) as Hrf. rewrite Forall_forall in Hrf.
    apply Hrf. by eapply list_elem_of_lookup_2. }
  destruct (Z.ltb_spec 0 (n_ref s)); [|lia].
  destruct (cref_purge_index_spec r (Z.of_nat j)) as (r' & -> & Hwf' & Hlv & He');
    [done|done|lia|].
  rewrite Nat2Z.id in Hlv. exists r'. split_and!; try done. rewrite Hlv.
  by destruct (delete_found_ptrs p (live r) j s (wf_ptrs r Hwf) Hf) as [-> _].
Qed.

(** [cref_push] on the counts: one more reference, unless the call fails. *)
Lemma cref_push_spec o r p :
  wf r -> err r = CERR_NONE ->
  exists r', cref_push o r p = Some r'
    /\ wf r'
    /\ (err r' = CERR_NONE -> count r' p = count r p + 1)
    /\ (err r' <> CERR_NONE ->
        r' = set_err CERR_OVERFLOW r \/ r' = set_err CERR_MEMORY r).
Proof.
  intros Hwf He. pose proof (ref_range r Hwf) as Hr.
  pose proof (ref_live_length r Hwf) as Hll.
  pose proof Hwf as [Hn Hlen Hsz Hal Hp Hrf].
  unfold cref_push. rewrite He. simpl. rewrite cref_find_spec by done. simpl.
  unfold count.
  destruct (list_find (has_ptr p) (live r)) as [[j s]|] eqn:Hf; simpl.
  - (* the pointer is present *)
    pose proof Hf as (Hj & Hs & _)%list_find_Some.
    pose proof (lookup_lt_Some _ _ _ Hj) as Hlt.
    pose proof (ref_live_lookup r _ s Hj) as [Hs' _].
    assert (Hrs : 1 <= n_ref s <= UINT_MAX).
    { rewrite Forall_forall in Hrf. apply Hrf. by eapply list_elem_of_lookup_2. }
    destruct (Z.ltb_spec 0 (n_ref s)); [|lia].
    rewrite load_in, Nat2Z.id, Hs' by lia. simpl.
    destruct (Z.eqb_spec (n_ref s) UINT_MAX).
    { eexists; split; [done|]. split_and!; [by apply ref_wf_set_err|done|auto]. }
    rewrite store_in, Nat2Z.id by lia. simpl. rewrite uint_wrap_id by lia.
    set (s1 := {| ptr := ptr s; n_ref := n_ref s + 1 |}).
    set (r1 := set_slots (<[j := s1]> (slots r)) r).
    assert (Hlv1 : live r1 = <[j := s1]> (live r)).
    { unfold live, r1. simpl. rewrite take_insert_lt by lia. done. }
    exists r1. split_and!; [done| | |done].
    + constructor; try done.
      * unfold r1. simpl. rewrite length_insert. done.
      * rewrite Hlv1, list_fmap_insert. simpl.
        rewrite list_insert_id; [done|]. by rewrite list_lookup_fmap, Hj.
      * rewrite Hlv1. apply Forall_insert; [done|]. simpl. lia.
    + intros _. rewrite Hlv1.
      erewrite list_find_insert_found; [|exact Hf|done]. done.
  - (* the pointer is new *)
    destruct (Z.ltb_spec 0 0); [lia|].
    assert (Hg : exists g : cref * bool,
      (if n_alloc r <=? n r
       then match safe_mul (n_alloc r) 2 with
            | Some _ => grow o r (size_wrap (n_alloc r * 2))
            | None => (set_err CERR_OVERFLOW r, false)
            end
       else (r, true)) = g
      /\ wf g.1 /\ live g.1 = live r /\ n g.1 = n r
      /\ (if g.2 then err g.1 = CERR_NONE /\ n r < n_alloc g.1
          else g.1 = set_err CERR_OVERFLOW r \/ g.1 = set_err CERR_MEMORY r)).
    { destruct (Z.leb_spec (n_alloc r) (n r)).
      - destruct (safe_mul (n_alloc r) 2) as [d|] eqn:Hmul.
        + apply safe_mul_Some in Hmul as [_ Hmul].
          rewrite size_wrap_id by lia.
          destruct (grow_wf o r (n_alloc r * 2) Hwf He) as (H1 & H2 & H3 & H4 & H5);
            [lia|].
          eexists; split; [done|]. split_and!; try done.
          destruct (grow o r (n_alloc r * 2)).2; [|done].
          destruct H5 as [? ?]. split; [done|].
          destruct Hal as [?|?]; [lia|congruence].
        + eexists; split; [done|]. simpl.
          split_and!; auto using ref_wf_set_err.
      - eexists; split; [done|]. simpl. split_and!; auto. } 
    destruct Hg as ([g [|]] & -> & Hwg & Hlg & Hng & Hg); simpl in *.
    2:{ exists g. split_and!; try done.
        intros Hne. destruct Hg as [->| ->]; simpl in Hne; congruence. }
    destruct Hg as [Heg Hcap].
    pose proof (ref_range g Hwg) as Hrg. pose proof Hwg as [Hn' Hlen' Hsz' Hal' Hp' Hrf'].
    rewrite store_in by lia. simpl. rewrite size_wrap_id by lia.
    set (s1 := {| ptr := p; n_ref := 1 |}).
    eexists; split; [reflexivity|].
    assert (Hlv : live (set_n (n g + 1) (set_slots (<[Z.to_nat (n g) := s1]> (slots g)) g))
                  = live r ++ [s1]).
    { rewrite <- Hlg. unfold live. simpl.
      replace (Z.to_nat (n g + 1)) with (S (Z.to_nat (n g))) by lia.
      erewrite take_S_r; [|apply list_lookup_insert_eq; lia].
      by rewrite take_insert_ge by lia. }
    split_and!.
    + constructor; [simpl; lia|simpl; rewrite length_insert; lia|done| | |].
      * simpl. destruct Hal' as [?|?]; [by left|congruence].
      * rewrite Hlv, fmap_app. apply NoDup_app.
        split_and!; [done| |apply NoDup_singleton].
        simpl. intros z Hz ->%list_elem_of_singleton.
        apply list_find_None in Hf. rewrite Forall_forall in Hf.
        apply list_elem_of_fmap in Hz as (t & Ht & Hin). by apply (Hf t).
      * rewrite Hlv. apply Forall_app. split; [done|].
        apply Forall_singleton. simpl. unfold UINT_MAX. lia.
    + intros _. rewrite Hlv. erewrite list_find_snoc_absent; [|done..]. done.
    + simpl. congruence.
Qed.

Lemma grow_calloc o m :
  0 <= m ->
  0 <= n (grow o calloc_instance m).1 <= n_alloc (grow o calloc_instance m).1
  /\ Z.of_nat (length (slots (grow o calloc_instance m).1))
     = n_alloc (grow o calloc_instance m).1
  /\ n_alloc (grow o calloc_instance m).1 * sizeof_slot <= SIZE_MAX
  /\ n (grow o calloc_instance m).1 = 0
  /\ ((grow o calloc_instance m).2 = true ->
      err (grow o calloc_instance m).1 = CERR_NONE
      /\ m <= n_alloc (grow o calloc_instance m).1).
Proof.
  intros Hm.
  destruct (grow_spec o calloc_instance m)
    as (H1 & H2 & H3 & H4 & H5 & H6 & H7 & H8); [done|done|done|done|].
  destruct (grow o calloc_instance m) as [g b]. simpl in *.
  split_and!; try done; try lia. intros ->. done.
Qed.

Lemma cref_clone_spec ok o r :
  wf r -> exists r', cref_clone ok o r = Some r' /\ wf r'.
Proof.
  intros Hwf. pose proof (ref_range r Hwf) as Hr.
  pose proof Hwf as [Hn Hlen Hsz Hal Hp Hrf]. unfold cref_clone.
  destruct (failed (err r)) eqn:Hf; simpl.
  { eexists; split; [done|apply ref_wf_placeholder]. }
  apply failed_false in Hf. destruct ok; simpl;
    [|eexists; split; [done|apply ref_wf_placeholder]].
  assert (1 <= n_alloc r) by (destruct Hal; [done|congruence]).
  destruct (grow_calloc o (n_alloc r)) as (H1 & H2 & H3 & H5 & H8); [lia|].
  destruct (grow o calloc_instance (n_alloc r)) as [g [|]]; simpl in *;
    [|eexists; split; [done|apply ref_wf_placeholder]].
  destruct H8 as [He Hcap]; [done|].
  rewrite region_in by lia. simpl.
  rewrite memcpy_at_0 by (rewrite length_take; lia). simpl.
  eexists; split; [reflexivity|].
  apply (ref_wf_same_live r _ Hwf); simpl; try lia.
  - unfold live. simpl. rewrite take_app_length'; [done|].
    rewrite length_take. lia.
  - rewrite length_app, length_drop, !length_take. lia.
Qed.

Lemma ref_wf_create ok o : wf (cref_create ok o).
Proof.
  unfold cref_create. destruct ok; simpl; [|apply ref_wf_placeholder].
  destruct (grow_calloc o 1) as (H1 & H2 & H3 & H5 & H8); [lia|].
  destruct (grow o calloc_instance 1) as [g [|]]; simpl in *;
    [|apply ref_wf_placeholder].
  destruct H8 as [He Hcap]; [done|].
  constructor; simpl; try lia; unfold live; simpl; constructor.
Qed.

(** Every call with well-typed arguments has a defined result and keeps
    the representation invariant. *)
Lemma ref_step_wf o r :
  wf r -> typed o -> exists r' v, step o r = Some (r', v) /\ wf r'.
Proof.
  intros Hwf Ht. pose proof (ref_range r Hwf) as Hr.
  pose proof Hwf as [Hn Hlen Hsz Hal Hp Hrf].
  destruct (failed (err r)) eqn:Hf.
  { (* an error is set: nothing happens *)
    destruct o; simpl;
      unfold cref_clear, cref_clone, cref_count, cref_find, cref_prealloc,
        cref_ptr, cref_pull_index, cref_pull_ptr, cref_purge_index,
        cref_purge_ptr, cref_find, cref_push, cref_repair,
        cref_set_default_ptr; rewrite ?Hf; simpl; eauto.
    destruct (cerr_eqb (err r) CERR_INVALID) eqn:Hi; eauto.
    eexists _, _; split; [done|]. constructor; try done. simpl. left.
    destruct Hal as [?|Hinv]; [done|]. rewrite Hinv in Hi. done. }
  apply failed_false in Hf.
  destruct o; simpl in *.
  - (* clear *) eexists _, _; split; [done|]. unfold cref_clear.
    rewrite Hf. simpl. constructor; simpl; try lia; try done;
      unfold live; simpl; constructor.
  - (* clone *) destruct (cref_clone_spec calloc_ok o r Hwf) as (r' & -> & _).
    simpl. eauto.
  - (* count *) unfold cref_count. rewrite Hf. simpl.
    destruct (Z.leb_spec (n r) index); [eauto|].
    destruct (load_is_Some (slots r) index) as [s ->]; [lia|]. simpl. eauto.
  - (* error *) eauto.
  - (* find *) rewrite cref_find_spec by done. simpl. eauto.
  - (* length *) eauto.
  - (* prealloc *) eexists _, _; split; [done|]. unfold cref_prealloc.
    rewrite Hf. simpl. apply grow_wf; [done|done|lia].
  - (* ptr *) unfold cref_ptr. rewrite Hf. simpl.
    destruct (Z.leb_spec (n r) index); [eauto|].
    destruct (load_is_Some (slots r) index) as [s ->]; [lia|]. simpl. eauto.
  - (* pull_index *)
    destruct (Z.le_gt_cases (n r) index).
    + destruct (ref_out_of_range r index) as (-> & _); [auto|]. simpl. eauto.
    + destruct (lookup_lt_is_Some_2 (live r) (Z.to_nat index)) as [s Hs].
      { rewrite (ref_live_length r Hwf). lia. }
      destruct (cref_pull_index_spec r index s) as (r' & -> & ? & _);
        [done|done|lia|done|]. simpl. eauto.
  - (* pull_ptr *)
    destruct (cref_pull_ptr_spec r ptr' Hwf Hf) as (r' & -> & ? & _). simpl. eauto.
  - (* purge_index *)
    destruct (Z.le_gt_cases (n r) index).
    + destruct (ref_out_of_range r index) as (_ & -> & _); [auto|]. simpl. eauto.
    + destruct (cref_purge_index_spec r index) as (r' & -> & ? & _);
        [done|done|lia|]. simpl. eauto.
  - (* purge_ptr *)
    destruct (cref_purge_ptr_spec r ptr' Hwf Hf) as (r' & -> & ? & _). simpl. eauto.
  - (* push *)
    destruct (cref_push_spec o r ptr' Hwf Hf) as (r' & -> & ? & _). simpl. eauto.
  - (* repair *) eexists _, _; split; [done|]. unfold cref_repair.
    rewrite Hf. simpl. by apply ref_wf_set_err.
  - (* set_default_ptr *) eexists _, _; split; [done|].
    unfold cref_set_default_ptr. rewrite Hf. simpl. by constructor.
Qed.

Lemma ref_reachable_wf r : reachable r -> wf r.
Proof.
  induction 1 as [ok o|r ok o r' _ IH Hc|r o r' v _ IH Ht Hs].
  - apply ref_wf_create.
  - destruct (cref_clone_spec ok o r IH) as (r'' & Hc' & Hw). congruence.
  - destruct (ref_step_wf o r IH Ht) as (r'' & v' & Hs' & Hw). congruence.
Qed.

End CrefFacts.

(** *** The claim on the reference registry *)

Module CrefClaims.
Import Cref CrefFacts.






End CrefClaims.

(** ** String arena *)

Module CbookFacts.
Import Cbook.

Lemma frame_refl b : frame b b.
Proof. constructor; done || lia. Qed.

Lemma frame_trans b1 b2 b3 : frame b1 b2 -> frame b2 b3 -> frame b1 b3.
Proof. intros [] []. constructor; congruence || lia. Qed.

Lemma frame_set_err b e : frame b (set_err e b).
Proof. constructor; done || (simpl; lia). Qed.

Lemma shape_set_err b e : shape b -> shape (set_err e b).
Proof. intros []. constructor; done. Qed.

Lemma shape_range b :
  shape b ->
  n_alloc_words b <= SIZE_MAX /\ n_alloc_groups b <= SIZE_MAX
  /\ n_alloc_words b * 2 <= SIZE_MAX /\ n_alloc_groups b * 2 <= SIZE_MAX.
Proof.
  intros [? ? ? ? ? ? ? Hw Hg _ _ _]. unfold sizeof_size_t in *. lia.
Qed.

Lemma grow_chars_spec o b c :
  shape b -> 0 <= c <= SIZE_MAX ->
  shape (grow_chars o b c).1 /\ frame b (grow_chars o b c).1
  /\ (if (grow_chars o b c).2
      then err (grow_chars o b c).1 = err b
           /\ c <= n_alloc_chars (grow_chars o b c).1
      else err (grow_chars o b c).1 = CERR_MEMORY).
Proof.
  intros Hs Hc. pose proof Hs as [? ? ? ? ? ? ? ? ? Hwo ? ?]. unfold grow_chars.
  destruct (Z.ltb_spec (n_alloc_chars b) c); simpl.
  2:{ split_and!; [done|apply frame_refl|done|lia]. }
  destruct (realloc o (chars b) c) as [tmp|] eqn:Hr; simpl.
  2:{ split_and!; [by apply shape_set_err|apply frame_set_err|done]. }
  apply realloc_Some in Hr as [Hl _].
  split_and!; [|constructor; simpl; done || lia|done|lia].
  constructor; simpl; try done; try lia.
  eapply Forall_impl; [exact Hwo|]. simpl. intros. lia.
Qed.

Lemma grow_words_spec o b w :
  shape b -> 0 <= w -> w * sizeof_size_t <= SIZE_MAX ->
  shape (grow_words o b w).1 /\ frame b (grow_words o b w).1
  /\ (if (grow_words o b w).2
      then err (grow_words o b w).1 = err b
           /\ w <= n_alloc_words (grow_words o b w).1
      else err (grow_words o b w).1 = CERR_MEMORY).
Proof.
  intros Hs Hw Hsz. pose proof Hs as [? ? ? ? ? ? ? ? ? Hwo ? ?]. unfold grow_words.
  destruct (Z.ltb_spec (n_alloc_words b) w); simpl.
  2:{ split_and!; [done|apply frame_refl|done|lia]. }
  destruct (realloc o (words b) w) as [tmp|] eqn:Hr; simpl.
  2:{ split_and!; [by apply shape_set_err|apply frame_set_err|done]. }
  apply realloc_Some in Hr as [Hl Hpre].
  assert (Hlw : live_words (set_words tmp (set_n_alloc_words w b)) = live_words b).
  { unfold live_words. simpl. apply Hpre; lia. }
  split_and!; [|constructor; simpl; done || lia|done|lia].
  constructor; simpl; try done; try lia. by rewrite Hlw.
Qed.

Lemma grow_groups_spec o b g :
  shape b -> 0 <= g -> g * sizeof_size_t <= SIZE_MAX ->
  shape (grow_groups o b g).1 /\ frame b (grow_groups o b g).1
  /\ (if (grow_groups o b g).2
      then err (grow_groups o b g).1 = err b
           /\ g <= n_alloc_groups (grow_groups o b g).1
      else err (grow_groups o b g).1 = CERR_MEMORY).
Proof.
  intros Hs Hg Hsz. pose proof Hs as [? ? ? ? ? ? ? ? ? Hwo Hgo Hgs]. unfold grow_groups.
  destruct (Z.ltb_spec (n_alloc_groups b) g); simpl.
  2:{ split_and!; [done|apply frame_refl|done|lia]. }
  destruct (realloc o (groups b) g) as [tmp|] eqn:Hr; simpl.
  2:{ split_and!; [by apply shape_set_err|apply frame_set_err|done]. }
  apply realloc_Some in Hr as [Hl Hpre].
  assert (Hlg : live_groups (set_groups tmp (set_n_alloc_groups g b)) = live_groups b).
  { unfold live_groups. simpl. apply Hpre; lia. }
  split_and!; [|constructor; simpl; done || lia|done|lia].
  constructor; simpl; try done; try lia; by rewrite Hlg.
Qed.

(** static [grow]: an overflow is found before anything is changed; a
    failed allocation keeps the lengths and the live offsets. *)
Lemma book_grow_spec o b c w g :
  shape b -> 0 <= c <= SIZE_MAX -> 0 <= w -> 0 <= g ->
  shape (grow o b c w g).1 /\ frame b (grow o b c w g).1
  /\ (if (grow o b c w g).2
      then err (grow o b c w g).1 = err b
           /\ c <= n_alloc_chars (grow o b c w g).1
           /\ w <= n_alloc_words (grow o b c w g).1
           /\ g <= n_alloc_groups (grow o b c w g).1
      else (grow o b c w g).1 = set_err CERR_OVERFLOW b
           \/ err (grow o b c w g).1 = CERR_MEMORY).
Proof.
  intros Hs Hc Hw Hg. unfold grow.
  destruct (safe_mul w sizeof_size_t) as [pw|] eqn:Hmw.
  2:{ simpl. split_and!; [by apply shape_set_err|apply frame_set_err|by left]. }
  destruct (safe_mul g sizeof_size_t) as [pg|] eqn:Hmg.
  2:{ simpl. split_and!; [by apply shape_set_err|apply frame_set_err|by left]. }
  apply safe_mul_Some in Hmw as [_ Hmw]. apply safe_mul_Some in Hmg as [_ Hmg].
  destruct (grow_chars_spec (for_chars o) b c Hs Hc) as (Hs1 & Hf1 & Hr1).
  destruct (grow_chars (for_chars o) b c) as [b1 [|]]; simpl in *;
    [|split_and!; auto].
  destruct Hr1 as [He1 Hc1].
  destruct (grow_words_spec (for_words o) b1 w Hs1 Hw Hmw) as (Hs2 & Hf2 & Hr2).
  destruct (grow_words (for_words o) b1 w) as [b2 [|]]; simpl in *;
    [|split_and!; eauto using frame_trans].
  destruct Hr2 as [He2 Hc2].
  destruct (grow_groups_spec (for_groups o) b2 g Hs2 Hg Hmg) as (Hs3 & Hf3 & Hr3).
  destruct (grow_groups (for_groups o) b2 g) as [b3 [|]]; simpl in *;
    [|split_and!; eauto using frame_trans].
  destruct Hr3 as [He3 Hc3].
  assert (Hf : frame b b3) by eauto using frame_trans.
  destruct Hf2, Hf3.
  split_and!; try done; try congruence; lia.
Qed.

Lemma book_grow_overflow o b c w g :
  SIZE_MAX < w * sizeof_size_t \/ SIZE_MAX < g * sizeof_size_t ->
  grow o b c w g = (set_err CERR_OVERFLOW b, false).
Proof.
  intros H. unfold grow.
  destruct (safe_mul w sizeof_size_t) eqn:Hw; [|done].
  destruct (safe_mul g sizeof_size_t) eqn:Hg; [|done].
  apply safe_mul_Some in Hw, Hg. lia.
Qed.

(** The loop of [cbook_write] ends within [fuel] iterations when the
    capacity is at least one byte. *)
Lemma fit_chars_spec ns nch fuel : forall nc,
  0 <= nch <= nc -> 1 <= nc <= SIZE_MAX ->
  SIZE_MAX < nc * 2 ^ Z.of_nat fuel ->
  fit_chars fuel ns nc nch = Some None
  \/ exists nc', fit_chars fuel ns nc nch = Some (Some nc')
       /\ nc <= nc' <= SIZE_MAX /\ ns <= nc' - nch.
Proof.
  induction fuel as [|fuel IH]; intros nc Hn Hc Hp; simpl fit_chars.
  - exfalso. simpl in Hp. lia.
  - rewrite size_wrap_id by lia.
    destruct (Z.ltb_spec (nc - nch) ns); [|right; exists nc; split_and!; done || lia].
    destruct (safe_mul nc 2) as [nc'|] eqn:Hm; [|by left].
    apply safe_mul_Some in Hm as [-> Hm].
    destruct (IH (nc * 2)) as [H1|(nc' & H1 & H2 & H3)]; [lia|lia| |by left|].
    + rewrite Nat2Z.inj_succ, Z.pow_succ_r in Hp by lia. lia.
    + right. exists nc'. split_and!; [done|lia..].
Qed.

(** Boolean comparisons among the hypotheses, as propositions. *)
Ltac zprops :=
  repeat match goal with
    | H : (_ =? _) = true |- _ => apply Z.eqb_eq in H
    | H : (_ =? _) = false |- _ => apply Z.eqb_neq in H
    | H : (_ <=? _) = true |- _ => apply Z.leb_le in H
    | H : (_ <=? _) = false |- _ => apply Z.leb_gt in H
    | H : (_ <? _) = true |- _ => apply Z.ltb_lt in H
    | H : (_ <? _) = false |- _ => apply Z.ltb_ge in H
    end.

Lemma memcpy_at_in {A} (dst : list A) off (src : list A) :
  0 <= off -> off + Z.of_nat (length src) <= Z.of_nat (length dst) ->
  exists l, memcpy_at dst off src = Some l /\ length l = length dst.
Proof.
  intros Ho Hl. unfold memcpy_at.
  destruct (Z.leb_spec 0 off); [|lia].
  destruct (Z.leb_spec (off + Z.of_nat (length src)) (Z.of_nat (length dst))); [|lia].
  simpl. eexists; split; [done|].
  rewrite !length_app, length_take, length_drop. lia.
Qed.

Lemma wf_set_err_book b e : wf b -> err b = CERR_NONE -> wf (set_err e b).
Proof.
  intros [Hs Ha] He. split; [by apply shape_set_err|].
  simpl. destruct Ha as [?|?]; [by left|congruence].
Qed.

Lemma wf_alloc_pos b :
  wf b -> err b = CERR_NONE ->
  1 <= n_alloc_chars b /\ 1 <= n_alloc_words b /\ 1 <= n_alloc_groups b.
Proof. intros [_ [?|?]] He; [done|congruence]. Qed.

Lemma wf_frame b b' :
  wf b -> err b = CERR_NONE -> shape b' -> frame b b' -> wf b'.
Proof.
  intros Hwf He Hs Hf. pose proof (wf_alloc_pos b Hwf He). destruct Hf.
  split; [done|left; lia].
Qed.

(** The last live group and the groups before it. *)
Lemma live_groups_last b :
  shape b -> 0 < n_groups b ->
  exists g,
    load (groups b) (n_groups b - 1) = Some g
    /\ live_groups b = take (Z.to_nat (n_groups b - 1)) (groups b) ++ [g]
    /\ 0 <= g < n_words b
    /\ Forall (fun x => 0 <= x < g) (take (Z.to_nat (n_groups b - 1)) (groups b))
    /\ StronglySorted Z.lt (take (Z.to_nat (n_groups b - 1)) (groups b)).
Proof.
  intros [? ? ? ? ? ? ? ? ? Hwo Hgo Hgs] Hpos.
  destruct (load_is_Some (groups b) (n_groups b - 1)) as [g Hg]; [lia|].
  exists g. split; [done|]. apply load_Some in Hg as [_ Hg].
  assert (Hl : live_groups b = take (Z.to_nat (n_groups b - 1)) (groups b) ++ [g]).
  { unfold live_groups.
    replace (Z.to_nat (n_groups b)) with (S (Z.to_nat (n_groups b - 1))) by lia.
    by apply take_S_r. }
  rewrite Hl in Hgo, Hgs. apply Forall_app in Hgo as [Hgo1 Hgo2].
  rewrite Forall_singleton in Hgo2.
  apply StronglySorted_app in Hgs as (Hs3 & Hs1 & _).
  split_and!; try done; try lia.
  apply Forall_forall. intros x Hx. rewrite Forall_forall in Hgo1.
  specialize (Hgo1 x Hx). specialize (Hs3 x g Hx).
  assert (x < g) by (apply Hs3; by apply list_elem_of_singleton). lia.
Qed.

Lemma live_words_last b :
  shape b -> 0 < n_words b ->
  exists w,
    load (words b) (n_words b - 1) = Some w
    /\ live_words b = take (Z.to_nat (n_words b - 1)) (words b) ++ [w]
    /\ 0 <= w <= n_alloc_chars b.
Proof.
  intros [? ? ? ? ? ? ? ? ? Hwo Hgo Hgs] Hpos.
  destruct (load_is_Some (words b) (n_words b - 1)) as [w Hw]; [lia|].
  exists w. split; [done|]. apply load_Some in Hw as [_ Hw].
  assert (Hl : live_words b = take (Z.to_nat (n_words b - 1)) (words b) ++ [w]).
  { unfold live_words.
    replace (Z.to_nat (n_words b)) with (S (Z.to_nat (n_words b - 1))) by lia.
    by apply take_S_r. }
  rewrite Hl in Hwo. apply Forall_app in Hwo as [_ Hwo].
  rewrite Forall_singleton in Hwo. done.
Qed.

Lemma shape_sizes b :
  shape b -> n_words b <= SIZE_MAX /\ n_groups b <= SIZE_MAX /\ n_chars b <= SIZE_MAX.
Proof.
  intros Hs. pose proof (shape_range b Hs). destruct Hs. lia.
Qed.

(** [cbook_pop_word] on a book with a word and a group. *)
Lemma cbook_pop_word_spec b :
  wf b -> err b = CERR_NONE -> 0 < n_words b -> 0 < n_groups b ->
  exists b' g w,
    cbook_pop_word b = Some b' /\ wf b' /\ err b' = CERR_NONE
    /\ load (groups b) (n_groups b - 1) = Some g
    /\ load (words b) (n_words b - 1) = Some w
    /\ n_chars b' = w /\ n_words b' = n_words b - 1
    /\ n_groups b' = (if g =? n_words b - 1 then n_groups b - 1 else n_groups b)
    /\ new_group b' = (if (g =? n_words b - 1) && (n_groups b - 1 =? 0)
                       then true else new_group b)
    /\ words b' = words b /\ groups b' = groups b.
Proof.
  intros Hwf He Hw Hg. pose proof Hwf as [Hs Ha].
  pose proof (shape_sizes b Hs) as Hsz.
  destruct (live_groups_last b Hs Hg) as (g & Hlg & Hlive & Hgr & Hbefore & Hsorted).
  destruct (live_words_last b Hs Hw) as (w & Hlw & Hlivew & Hwr).
  pose proof Hs as [? ? ? ? ? ? ? ? ? Hwo Hgo Hgs].
  unfold cbook_pop_word. rewrite He. simpl.
  destruct (Z.eqb_spec (n_words b) 0); [lia|].
  rewrite (size_wrap_id (n_groups b - 1)) by lia. rewrite Hlg. simpl.
  rewrite (size_wrap_id (n_words b - 1)) by lia.
  destruct (g =? n_words b - 1) eqn:Hb; destruct (n_groups b - 1 =? 0) eqn:H0;
    simpl; rewrite ?(size_wrap_id (n_words b - 1)) by lia; rewrite Hlw; simpl;
    (eexists _, g, w; split; [reflexivity|]); rewrite ?Hb, ?H0; simpl;
    (split_and!; try done); (split; simpl; [|done]);
    zprops; (constructor; simpl; try done; try lia);
    unfold live_words, live_groups in *; simpl.
  all: try (rewrite Hlivew in Hwo; by apply Forall_app in Hwo as [? _]).
  all: try (eapply Forall_impl; [exact Hbefore|]; simpl; intros; lia).
  all: rewrite Hlive; apply Forall_app; split;
    [eapply Forall_impl; [exact Hbefore|]; simpl; intros; lia
    |apply Forall_singleton; lia].
Qed.

(** The one undefined call: [cbook_pop_word] reads [groups[n_groups - 1]]
    although the book holds no group. *)
Lemma cbook_pop_word_undefined b :
  shape b -> err b = CERR_NONE -> 0 < n_words b -> n_groups b = 0 ->
  cbook_pop_word b = None.
Proof.
  intros Hs He Hw Hg. pose proof (shape_range b Hs) as Hr.
  pose proof Hs as [? ? ? ? ? Hlen ? ? ? _ _ _].
  unfold cbook_pop_word. rewrite He, Hg. simpl.
  destruct (Z.eqb_spec (n_words b) 0); [lia|].
  unfold load. change (size_wrap (0 - 1)) with SIZE_MAX.
  destruct (Z.ltb_spec SIZE_MAX (Z.of_nat (length (groups b)))); [lia|].
  by rewrite andb_false_r.
Qed.

Lemma cbook_pop_group_spec b :
  wf b -> err b = CERR_NONE -> 0 < n_groups b ->
  exists b' g w,
    cbook_pop_group b = Some b' /\ wf b' /\ err b' = CERR_NONE
    /\ load (groups b) (n_groups b - 1) = Some g
    /\ load (words b) g = Some w
    /\ n_chars b' = w /\ n_words b' = g /\ n_groups b' = n_groups b - 1
    /\ new_group b' = (if n_groups b - 1 =? 0 then true else new_group b)
    /\ words b' = words b /\ groups b' = groups b.
Proof.
  intros Hwf He Hg. pose proof Hwf as [Hs Ha].
  pose proof (shape_sizes b Hs) as Hsz.
  destruct (live_groups_last b Hs Hg) as (g & Hlg & Hlive & Hgr & Hbefore & Hsorted).
  pose proof Hs as [? ? ? ? ? ? ? ? ? Hwo Hgo Hgs].
  destruct (load_is_Some (words b) g) as [w Hw]; [lia|].
  assert (Hwr : 0 <= w <= n_alloc_chars b).
  { rewrite Forall_forall in Hwo. apply Hwo. apply load_Some in Hw as [_ Hw].
    apply list_elem_of_lookup. exists (Z.to_nat g). unfold live_words.
    rewrite lookup_take_lt by lia. done. }
  unfold cbook_pop_group. rewrite He. simpl.
  destruct (Z.eqb_spec (n_groups b) 0); [lia|].
  rewrite (size_wrap_id (n_groups b - 1)) by lia. rewrite Hlg. simpl.
  rewrite Hw. simpl.
  assert (Hlw : Forall (fun w0 => 0 <= w0 <= n_alloc_chars b)
                  (take (Z.to_nat g) (words b))).
  { unfold live_words in Hwo.
    replace (take (Z.to_nat g) (words b))
      with (take (Z.to_nat g) (take (Z.to_nat (n_words b)) (words b)))
      by (rewrite take_take; f_equal; lia).
    by apply Forall_take. }
  destruct (n_groups b - 1 =? 0) eqn:H0;
    (eexists _, g, w; split; [reflexivity|]); rewrite ?H0; simpl;
    (split_and!; try done); (split; simpl; [|done]);
    zprops; (constructor; simpl; try done; try lia).
Qed.

Lemma strlen_nonneg s : 0 <= strlen s.
Proof. unfold strlen. lia. Qed.

(** The doubled capacity of a full index buffer, as [cbook_write] computes
    it, leaves room for one more entry. *)
Lemma doubled_room alloc n :
  0 <= n <= alloc -> 1 <= alloc -> alloc * 2 <= SIZE_MAX ->
  size_wrap (alloc * (if alloc <=? n then 2 else 1))
  = alloc * (if alloc <=? n then 2 else 1)
  /\ n < alloc * (if alloc <=? n then 2 else 1).
Proof.
  intros Hn Ha Hm. destruct (Z.leb_spec alloc n);
    (split; [apply size_wrap_id|]); lia.
Qed.

(** [cbook_write]: a successful call appends one word, and opens a group
    when the flag is set; a failed call keeps the lengths and the live
    offsets, and an overflow keeps everything. *)
Lemma cbook_write_spec o b s :
  wf b -> err b = CERR_NONE -> strlen s + 1 <= SIZE_MAX ->
  exists b', cbook_write o b s = Some b' /\ wf b'
    /\ (err b' = CERR_NONE ->
        n_chars b' = n_chars b + strlen s + 1
        /\ n_words b' = n_words b + 1
        /\ n_groups b' = n_groups b + (if new_group b then 1 else 0)
        /\ new_group b' = false
        /\ live_words b' = live_words b ++ [n_chars b]
        /\ live_groups b' = live_groups b ++ (if new_group b then [n_words b] else []))
    /\ (err b' <> CERR_NONE ->
        frame b b' /\ (err b' = CERR_OVERFLOW -> b' = set_err CERR_OVERFLOW b)).
Proof.
  intros Hwf He Hlen. pose proof Hwf as [Hs Ha].
  pose proof (wf_alloc_pos b Hwf He) as (Hac & Haw & Hag).
  pose proof (shape_range b Hs) as (Hrw & Hrg & Hrw2 & Hrg2).
  pose proof (strlen_nonneg s) as Hsl.
  pose proof Hs as [Hc Hw Hg Hlc Hlw Hlg Hzc Hzw Hzg Hwo Hgo Hgs].
  unfold cbook_write. rewrite He. cbn [failed].
  rewrite (size_wrap_id (strlen s + 1)) by lia.
  destruct (doubled_room (n_alloc_words b) (n_words b)) as [-> Hroomw]; [lia..|].
  destruct (doubled_room (n_alloc_groups b) (n_groups b)) as [-> Hroomg]; [lia..|].
  set (nw := n_alloc_words b * (if n_alloc_words b <=? n_words b then 2 else 1)) in *.
  set (ng := n_alloc_groups b * (if n_alloc_groups b <=? n_groups b then 2 else 1)) in *.
  destruct (fit_chars_spec (strlen s + 1) (n_chars b) fit_fuel (n_alloc_chars b))
    as [->|(nc & -> & Hnc & Hfit)]; [lia|lia| | |].
  { change (2 ^ Z.of_nat fit_fuel) with 18446744073709551616.
    unfold SIZE_MAX in *. lia. }
  { simpl. eexists; split; [done|]. split_and!.
    - by apply wf_set_err_book.
    - done.
    - intros _. split; [apply frame_set_err|done]. }
  simpl.
  destruct (book_grow_spec o b nc nw ng Hs) as (Hs1 & Hf1 & Hr1); [lia..|].
  destruct (grow o b nc nw ng) as [b1 [|]]; simpl in *.
  2:{ exists b1. split_and!; [done|by eapply wf_frame| |].
      - intros He1. destruct Hr1 as [->|Hr1]; [done|congruence].
      - intros _. split; [done|]. intros Ho.
        destruct Hr1 as [->|Hr1]; [done|congruence]. }
  destruct Hr1 as (He1 & Hc1 & Hw1 & Hg1).
  pose proof Hf1 as [Fc Fw Fg Fn Flw Flg Fac Faw Fag].
  pose proof Hs1 as [Hc' Hw' Hg' Hlc' Hlw' Hlg' Hzc' Hzw' Hzg' Hwo' Hgo' Hgs'].
  rewrite Fn.
  (* the group boundary *)
  assert (Hgrp : exists b2,
    (if new_group b
     then tmp ← store (groups b1) (n_groups b1) (n_words b1);
          Some (set_new_group false
                  (set_n_groups (size_wrap (n_groups b1 + 1)) (set_groups tmp b1)))
     else Some b1) = Some b2
    /\ chars b2 = chars b1 /\ words b2 = words b1
    /\ n_chars b2 = n_chars b /\ n_words b2 = n_words b
    /\ n_alloc_chars b2 = n_alloc_chars b1 /\ n_alloc_words b2 = n_alloc_words b1
    /\ n_alloc_groups b2 = n_alloc_groups b1 /\ err b2 = CERR_NONE
    /\ length (groups b2) = length (groups b1)
    /\ n_groups b2 = n_groups b + (if new_group b then 1 else 0)
    /\ (new_group b = true -> new_group b2 = false)
    /\ (new_group b = false -> new_group b2 = new_group b1)
    /\ live_groups b2
       = live_groups b ++ (if new_group b then [n_words b] else [])).
  { destruct (new_group b) eqn:Hng.
    - rewrite store_in by lia. simpl. rewrite size_wrap_id by lia.
      eexists; split; [reflexivity|]. simpl.
      split_and!; try done; try lia; try congruence.
      + by rewrite length_insert.
      + rewrite <- Flg. unfold live_groups. simpl. rewrite Fw.
        replace (Z.to_nat (n_groups b1 + 1)) with (S (Z.to_nat (n_groups b1))) by lia.
        erewrite take_S_r; [|apply list_lookup_insert_eq; lia].
        by rewrite take_insert_ge by lia.
    - exists b1. split_and!; try done; try lia; try congruence.
      by rewrite app_nil_r. }
  destruct Hgrp as (b2 & -> & Hch2 & Hwd2 & Hnc2 & Hnw2 & Hac2 & Haw2 & Hag2
                    & He2 & Hlg2 & Hng2 & Hfl2 & Hfl2' & Hlv2).
  simpl. rewrite Hch2, Hwd2, Hnc2, Hnw2.
  destruct (memcpy_at_in (chars b1) (n_chars b) (c_bytes s ++ [Ascii.zero]))
    as (tmp_c & -> & Hltc); [lia| |].
  { rewrite length_app. simpl. unfold strlen in *. lia. }
  simpl. rewrite store_in by lia. simpl.
  rewrite !size_wrap_id by lia.
  eexists; split; [reflexivity|].
  assert (Hlvw : live_words
            (set_n_chars (n_chars b + (strlen s + 1))
               (set_n_words (n_words b + 1)
                  (set_words (<[Z.to_nat (n_words b) := n_chars b]> (words b1))
                     (set_chars tmp_c b2))))
          = live_words b ++ [n_chars b]).
  { rewrite <- Flw. unfold live_words. simpl. rewrite Fw.
    replace (Z.to_nat (n_words b + 1)) with (S (Z.to_nat (n_words b))) by lia.
    erewrite take_S_r; [|apply list_lookup_insert_eq; lia].
    by rewrite take_insert_ge by lia. }
  assert (Hlvg : live_groups
            (set_n_chars (n_chars b + (strlen s + 1))
               (set_n_words (n_words b + 1)
                  (set_words (<[Z.to_nat (n_words b) := n_chars b]> (words b1))
                     (set_chars tmp_c b2))))
          = live_groups b ++ (if new_group b then [n_words b] else [])).
  { rewrite <- Hlv2. done. }
  split_and!.
  - split; [|simpl; left; lia].
    constructor; simpl; try lia.
    + rewrite Hng2, Hag2. destruct (new_group b); lia.
    + rewrite length_insert. lia.
    + rewrite Hlvw. apply Forall_app. split.
      * rewrite Hac2, <- Flw. done.
      * apply Forall_singleton. lia.
    + rewrite Hlvg. apply Forall_app. split.
      * eapply Forall_impl; [exact Hgo|]. simpl. intros. lia.
      * destruct (new_group b); [apply Forall_singleton; lia|constructor].
    + rewrite Hlvg. destruct (new_group b).
      * apply StronglySorted_app_2; [|done|repeat constructor].
        intros x1 x2 Hx1 ->%list_elem_of_singleton.
        rewrite Forall_forall in Hgo. apply (Hgo x1 Hx1).
      * by rewrite app_nil_r.
  - intros _. simpl. split_and!; try done; try lia.
    destruct (new_group b) eqn:Hng; [by apply Hfl2|].
    rewrite Hfl2' by done. congruence.
  - simpl. intros Hne. congruence.
Qed.

Lemma sorted_lookup_lt (l : list Z) (i j : nat) a c :
  StronglySorted Z.lt l -> l !! i = Some a -> l !! j = Some c ->
  (i < j)%nat -> a < c.
Proof.
  intros Hs Hi Hj Hlt. rewrite <- (take_drop j l) in Hs.
  eapply StronglySorted_app_1_elem_of; [exact Hs| |].
  - apply list_elem_of_lookup. exists i. by rewrite lookup_take_lt.
  - apply list_elem_of_lookup. exists 0%nat. rewrite lookup_drop.
    by rewrite Nat.add_0_r.
Qed.

Lemma live_groups_lookup b i :
  shape b -> 0 <= i < n_groups b ->
  exists g, load (groups b) i = Some g
    /\ live_groups b !! Z.to_nat i = Some g /\ 0 <= g < n_words b.
Proof.
  intros [? ? ? ? ? ? ? ? ? Hwo Hgo Hgs] Hi.
  destruct (load_is_Some (groups b) i) as [g Hg]; [lia|].
  exists g. split; [done|]. apply load_Some in Hg as [_ Hg].
  assert (Hl : live_groups b !! Z.to_nat i = Some g).
  { unfold live_groups. rewrite lookup_take_lt by lia. done. }
  split; [done|]. rewrite Forall_forall in Hgo. apply Hgo.
  by eapply list_elem_of_lookup_2.
Qed.

Lemma live_words_lookup b i :
  shape b -> 0 <= i < n_words b ->
  exists w, load (words b) i = Some w /\ 0 <= w <= n_alloc_chars b.
Proof.
  intros [? ? ? ? ? ? ? ? ? Hwo Hgo Hgs] Hi.
  destruct (load_is_Some (words b) i) as [w Hw]; [lia|].
  exists w. split; [done|]. apply load_Some in Hw as [_ Hw].
  rewrite Forall_forall in Hwo. apply Hwo.
  apply list_elem_of_lookup. exists (Z.to_nat i). unfold live_words.
  rewrite lookup_take_lt by lia. done.
Qed.

(** static [group_size]: defined, and a group of positive size lies among
    the live words. *)
Lemma group_size_spec b i :
  shape b -> 0 <= i ->
  exists s, group_size b i = Some s /\ 0 <= s
    /\ (s = 0 \/ exists g, i < n_groups b /\ load (groups b) i = Some g
                    /\ 0 <= g /\ g + s <= n_words b).
Proof.
  intros Hs Hi. pose proof (shape_sizes b Hs) as Hsz.
  pose proof Hs as [? ? ? ? ? ? ? ? ? Hwo Hgo Hgs]. unfold group_size.
  destruct (Z.leb_spec (n_groups b) i); [exists 0; split_and!; auto; lia|].
  rewrite (size_wrap_id (n_groups b - 1)) by lia.
  destruct (live_groups_lookup b i Hs) as (g & Hg & Hlg & Hgr); [lia|].
  destruct (Z.eqb_spec i (n_groups b - 1)).
  - rewrite Hg. simpl. rewrite size_wrap_id by lia.
    eexists; split_and!; [done|lia|]. right. exists g. split_and!; done || lia.
  - destruct (live_groups_lookup b (i + 1) Hs) as (g1 & Hg1 & Hlg1 & Hgr1); [lia|].
    rewrite Hg1. simpl. rewrite Hg. simpl.
    assert (g < g1).
    { eapply (sorted_lookup_lt (live_groups b)); [done|exact Hlg|exact Hlg1|lia]. }
    rewrite size_wrap_id by lia.
    eexists; split_and!; [done|lia|]. right. exists g. split_and!; done || lia.
Qed.

Lemma ptr_into_in buf off :
  0 <= off <= Z.of_nat (length buf) -> ptr_into buf off = Some (Chars off).
Proof.
  intros H. unfold ptr_into.
  destruct (Z.leb_spec 0 off), (Z.leb_spec off (Z.of_nat (length buf)));
    simpl; done || lia.
Qed.

Lemma book_accessors_defined b g i :
  shape b -> 0 <= g <= SIZE_MAX -> 0 <= i <= SIZE_MAX ->
  is_Some (cbook_group_length b g) /\ is_Some (cbook_word b i)
  /\ is_Some (cbook_word_in_group b g i) /\ is_Some (cbook_word_index b g i).
Proof.
  intros Hs Hg Hi. pose proof (shape_sizes b Hs) as Hsz.
  pose proof Hs as [? ? ? Hlc ? ? ? ? ? Hwo Hgo Hgs].
  destruct (group_size_spec b g Hs) as (s & Hgs' & Hs0 & Hin); [lia|].
  unfold cbook_group_length, cbook_word, cbook_word_in_group, cbook_word_index,
    no_such_word.
  destruct (failed (err b)); simpl; [split_and!; eauto|].
  rewrite Hgs'. simpl. split_and!; [eauto| | |].
  - destruct (Z.leb_spec (n_words b) i); [eauto|].
    destruct (live_words_lookup b i Hs) as (w & -> & Hw); [lia|]. simpl.
    rewrite ptr_into_in by lia. eauto.
  - destruct (Z.eqb_spec s 0); simpl; [eauto|].
    destruct (Z.leb_spec s i); simpl; [eauto|].
    destruct Hin as [?|(g0 & Hlt & -> & Hg0 & Hsum)]; [lia|]. simpl.
    rewrite size_wrap_id by lia.
    destruct (live_words_lookup b (g0 + i) Hs) as (w & -> & Hw); [lia|]. simpl.
    rewrite ptr_into_in by lia. eauto.
  - destruct (Z.eqb_spec s 0); simpl; [eauto|].
    destruct (Z.leb_spec s i); simpl; [eauto|].
    destruct Hin as [?|(g0 & Hlt & -> & Hg0 & Hsum)]; [lia|]. simpl. eauto.
Qed.

Lemma wf_placeholder_book : wf cbook_placeholder_instance.
Proof.
  split; [|by right].
  constructor; simpl; try done; unfold live_words, live_groups; simpl;
    constructor.
Qed.

Lemma shape_calloc : shape calloc_instance.
Proof.
  constructor; simpl; try done; unfold live_words, live_groups; simpl;
    constructor.
Qed.

Lemma book_wf_create ok o : wf (cbook_create ok o).
Proof.
  unfold cbook_create. destruct ok; simpl; [|apply wf_placeholder_book].
  destruct (book_grow_spec o calloc_instance 1 1 1 shape_calloc)
    as (Hs & Hf & Hr); [unfold SIZE_MAX; lia|lia|lia|].
  destruct (grow o calloc_instance 1 1 1) as [b [|]]; simpl in *;
    [|apply wf_placeholder_book].
  destruct Hr as (He & Hc & Hw & Hg). destruct Hs.
  split; [|simpl; left; lia].
  constructor; simpl; try done; try lia; unfold live_words, live_groups;
    simpl; constructor.
Qed.

Lemma cbook_clone_spec ok o b :
  wf b -> exists b', cbook_clone ok o b = Some b' /\ wf b'
    /\ (err b' = CERR_NONE ->
        n_groups b' = n_groups b /\ n_words b' = n_words b
        /\ new_group b' = new_group b /\ live_groups b' = live_groups b).
Proof.
  intros Hwf. pose proof Hwf as [Hs Ha]. unfold cbook_clone.
  destruct (failed (err b)) eqn:Hf; simpl.
  { eexists; split; [done|]. split; [apply wf_placeholder_book|done]. }
  apply failed_false in Hf. destruct ok; simpl;
    [|eexists; split; [done|]; split; [apply wf_placeholder_book|done]].
  pose proof (wf_alloc_pos b Hwf Hf) as (Hac & Haw & Hag).
  pose proof Hs as [Hc Hw Hg Hlc Hlw Hlg Hzc Hzw Hzg Hwo Hgo Hgs].
  destruct (book_grow_spec o calloc_instance
              (n_alloc_chars b) (n_alloc_words b) (n_alloc_groups b) shape_calloc)
    as (Hs1 & Hf1 & Hr1); [lia..|].
  destruct (grow o calloc_instance
              (n_alloc_chars b) (n_alloc_words b) (n_alloc_groups b)) as [b1 [|]];
    simpl in *;
    [|eexists; split; [done|]; split; [apply wf_placeholder_book|done]].
  destruct Hr1 as (He1 & Hc1 & Hw1 & Hg1).
  pose proof Hs1 as [Hc' Hw' Hg' Hlc' Hlw' Hlg' Hzc' Hzw' Hzg' Hwo' Hgo' Hgs'].
  rewrite !region_in by lia. simpl.
  rewrite !memcpy_at_0 by (rewrite length_take; lia). simpl.
  eexists; split; [reflexivity|].
  assert (Hlvw : forall (l k : list Z) m, Z.of_nat (length l) = m -> 0 <= n_words b <= m ->
            take (Z.to_nat (n_words b))
              (take (Z.to_nat (n_words b)) l
                 ++ drop (length (take (Z.to_nat (n_words b)) l)) k)
            = take (Z.to_nat (n_words b)) l).
  { intros l k m Hl Hm. rewrite take_app_length'; [done|]. rewrite length_take. lia. }
  assert (Hlvg : forall (l k : list Z) m, Z.of_nat (length l) = m -> 0 <= n_groups b <= m ->
            take (Z.to_nat (n_groups b))
              (take (Z.to_nat (n_groups b)) l
                 ++ drop (length (take (Z.to_nat (n_groups b)) l)) k)
            = take (Z.to_nat (n_groups b)) l).
  { intros l k m Hl Hm. rewrite take_app_length'; [done|]. rewrite length_take. lia. }
  split; [|simpl; intros _; split_and!; try done;
           unfold live_groups; simpl; eapply Hlvg; eauto].
  split; [|simpl; left; lia].
  constructor; simpl; try lia.
  - rewrite length_app, length_drop, !length_take. lia.
  - rewrite length_app, length_drop, !length_take. lia.
  - rewrite length_app, length_drop, !length_take. lia.
  - unfold live_words. simpl. erewrite Hlvw by eauto.
    eapply Forall_impl; [exact Hwo|]. simpl. intros. lia.
  - unfold live_groups. simpl. erewrite Hlvg by eauto. done.
  - unfold live_groups. simpl. erewrite Hlvg by eauto. done.
Qed.

Lemma shape_set_new_group b v : shape b -> shape (set_new_group v b).
Proof. intros []. constructor; done. Qed.

Lemma wf_set_new_group b v : wf b -> wf (set_new_group v b).
Proof. intros [Hs Ha]. split; [by apply shape_set_new_group|done]. Qed.

Lemma wf_emptied b cs :
  wf b -> length cs = length (chars b) ->
  wf (set_n_chars 0 (set_n_words 0 (set_n_groups 0 (set_chars cs b)))).
Proof.
  intros [Hs Ha] Hl. pose proof Hs as [? ? ? ? ? ? ? ? ? _ _ _].
  split; [|done].
  constructor; simpl; try done; try lia; unfold live_words, live_groups;
    simpl; constructor.
Qed.

Lemma cbook_zero_spec b :
  wf b -> err b = CERR_NONE ->
  cbook_zero b
  = Some (set_n_chars 0 (set_n_words 0 (set_n_groups 0
            (set_chars (replicate (Z.to_nat (n_alloc_chars b)) Ascii.zero) b))))
  /\ wf (set_n_chars 0 (set_n_words 0 (set_n_groups 0
            (set_chars (replicate (Z.to_nat (n_alloc_chars b)) Ascii.zero) b)))).
Proof.
  intros Hwf He. pose proof Hwf as [Hs Ha].
  pose proof Hs as [? ? ? Hlc ? ? ? ? ? _ _ _].
  unfold cbook_zero. rewrite He. simpl.
  rewrite memcpy_at_0 by (rewrite length_replicate; lia). simpl.
  rewrite length_replicate, drop_ge, app_nil_r by lia.
  split; [done|]. apply wf_emptied; [done|]. rewrite length_replicate. lia.
Qed.

(** Every call with well-typed arguments keeps the representation
    invariant; the only call without a defined result is a
    [cbook_pop_word] on a book that holds words but no group. *)
Lemma book_step_wf o b :
  wf b -> typed o ->
  (exists b' v, step o b = Some (b', v) /\ wf b')
  \/ (o = PopWord /\ err b = CERR_NONE /\ 0 < n_words b /\ n_groups b = 0
      /\ step o b = None).
Proof.
  intros Hwf Ht. pose proof Hwf as [Hs Ha].
  pose proof Hs as [Hc Hw Hg Hlc Hlw Hlg Hzc Hzw Hzg Hwo Hgo Hgs].
  destruct (failed (err b)) eqn:Hf.
  { (* an error is set: nothing happens *)
    left. destruct o; simpl;
      unfold cbook_clear, cbook_clone, cbook_group_length, cbook_pop_group,
        cbook_pop_word, cbook_prealloc, cbook_prepare_new_group, cbook_repair,
        cbook_undo_new_group, cbook_word, cbook_word_in_group, cbook_word_index,
        no_such_word, cbook_write, cbook_zero; rewrite ?Hf; simpl; eauto.
    destruct (cerr_eqb (err b) CERR_INVALID) eqn:Hi; eauto.
    eexists _, _; split; [done|]. split; [by apply shape_set_err|].
    simpl. left. destruct Ha as [?|Hinv]; [done|]. rewrite Hinv in Hi. done. }
  apply failed_false in Hf.
  destruct o; simpl in *.
  - (* clear *) left. eexists _, _; split; [done|]. unfold cbook_clear.
    rewrite Hf. simpl. apply wf_set_new_group.
    apply (wf_emptied (set_chars (chars b) b)); [|done].
    by destruct b.
  - (* clone *) left.
    destruct (cbook_clone_spec calloc_ok o b Hwf) as (b' & -> & _). simpl. eauto.
  - (* error *) left. eauto.
  - (* group_length *) left.
    destruct (book_accessors_defined b group_index 0 Hs) as ([v ->] & _);
      [lia|unfold SIZE_MAX; lia|]. simpl. eauto.
  - (* groups_number *) left. eauto.
  - (* length *) left. eauto.
  - (* pop_group *) left.
    destruct (Z.eq_dec (n_groups b) 0) as [H0|H0].
    + unfold cbook_pop_group. rewrite Hf, H0. simpl. eauto.
    + destruct (cbook_pop_group_spec b Hwf Hf) as (b' & g & w & -> & ? & _);
        [lia|]. simpl. eauto.
  - (* pop_word *)
    destruct (Z.eq_dec (n_words b) 0) as [H0|H0].
    { left. unfold cbook_pop_word. rewrite Hf, H0. simpl. eauto. }
    destruct (Z.eq_dec (n_groups b) 0) as [G0|G0].
    + right. rewrite cbook_pop_word_undefined by (done || lia).
      split_and!; done || lia.
    + left. destruct (cbook_pop_word_spec b Hwf Hf) as (b' & g & w & -> & ? & _);
        [lia..|]. simpl. eauto.
  - (* prealloc *) left. eexists _, _; split; [done|].
    unfold cbook_prealloc. rewrite Hf. simpl.
    destruct (book_grow_spec o b bytes_number words_number groups_number Hs)
      as (Hs1 & Hf1 & _); [lia..|]. by eapply wf_frame.
  - (* prepare_new_group *) left. eexists _, _; split; [done|].
    unfold cbook_prepare_new_group. rewrite Hf. simpl. by apply wf_set_new_group.
  - (* repair *) left. eexists _, _; split; [done|]. unfold cbook_repair.
    rewrite Hf. simpl. by apply wf_set_err_book.
  - (* undo_new_group *) left. eexists _, _; split; [done|].
    unfold cbook_undo_new_group. rewrite Hf. simpl.
    destruct (n_groups b =? 0); [done|by apply wf_set_new_group].
  - (* word *) left.
    destruct (book_accessors_defined b 0 word_index Hs) as (_ & [v ->] & _);
      [unfold SIZE_MAX; lia|lia|]. simpl. eauto.
  - (* word_in_group *) left.
    destruct (book_accessors_defined b group_index word_local_index Hs)
      as (_ & _ & [v ->] & _); [lia..|]. simpl. eauto.
  - (* word_index *) left.
    destruct (book_accessors_defined b group_index word_local_index Hs)
      as (_ & _ & _ & [v ->]); [lia..|]. simpl. eauto.
  - (* words_number *) left. eauto.
  - (* write *) left.
    destruct (cbook_write_spec o b str Hwf Hf Ht) as (b' & -> & ? & _).
    simpl. eauto.
  - (* zero *) left. destruct (cbook_zero_spec b Hwf Hf) as [-> ?]. simpl. eauto.
Qed.

Lemma book_reachable_wf b : reachable b -> wf b.
Proof.
  induction 1 as [ok o|b ok o b' _ IH Hc|b o b' v _ IH Ht Hs].
  - apply book_wf_create.
  - destruct (cbook_clone_spec ok o b IH) as (b'' & Hc' & Hw & _). congruence.
  - destruct (book_step_wf o b IH Ht) as [(b'' & v' & Hs' & Hw)|(_ & _ & _ & _ & Hn)];
      congruence.
Qed.

End CbookFacts.

(** *** Books whose words all belong to groups *)

Module CbookGroups.
Import Cbook CbookFacts.

Lemma grouped_placeholder : grouped cbook_placeholder_instance.
Proof. constructor; simpl; intros; try done; try lia; by right. Qed.

Lemma grouped_has_group b :
  grouped b -> shape b -> 0 < n_words b -> 0 < n_groups b.
Proof.
  intros [_ Hw _] [_ ? ? _ _ _ _ _ _ _ _ _] Hpos.
  destruct (Z.eq_dec (n_groups b) 0) as [H0|H0]; [|lia].
  specialize (Hw H0). lia.
Qed.

Lemma step_reads o b b' v : reads o = true -> step o b = Some (b', v) -> b' = b.
Proof.
  destruct o; simpl; try done; intros _ H;
    repeat match goal with
      | H : (?m ≫= _) = Some _ |- _ =>
          let E := fresh in destruct m eqn:E; simpl in H; [|done]
      end; congruence.
Qed.

Lemma first_group_kept b b' :
  grouped b -> n_groups b' = n_groups b -> 0 < n_groups b ->
  live_groups b' !! 0%nat = live_groups b !! 0%nat ->
  0 < n_groups b' -> live_groups b' !! 0%nat = Some 0.
Proof. intros [_ _ Hf] Hn Hpos Hl _. rewrite Hl. by apply Hf. Qed.

Lemma grouped_frame b b' :
  grouped b -> err b = CERR_NONE -> frame b b' -> grouped b'.
Proof.
  intros [Hf Hw Hg] He [Fc Fw Fg Fn Flw Flg _ _ _].
  constructor; rewrite ?Fg, ?Fw, ?Fn, ?Flg; try done.
  intros H0. destruct (Hf H0); [by left|congruence].
Qed.

Lemma grouped_set_new_group b v :
  grouped b -> (n_groups b = 0 -> v = true) -> grouped (set_new_group v b).
Proof.
  intros [Hf Hw Hg] Hv. constructor; [simpl; auto|exact Hw|exact Hg].
Qed.

Lemma grouped_set_err b e :
  grouped b -> (n_groups b = 0 -> new_group b = true) -> grouped (set_err e b).
Proof.
  intros [Hf Hw Hg] Hv. constructor; [simpl; auto|exact Hw|exact Hg].
Qed.

(** Without [cbook_zero], every call is defined and keeps the words in
    groups. *)
Lemma book_step_grouped o b :
  wf b -> grouped b -> typed o -> not_zero o ->
  exists b' v, step o b = Some (b', v) /\ wf b' /\ grouped b'.
Proof.
  intros Hwf Hgr Ht Hnz. pose proof Hwf as [Hs Ha].
  pose proof Hgr as [Hgf Hgw Hg1].
  pose proof Hs as [Hc Hw Hg Hlc Hlw Hlg Hzc Hzw Hzg Hwo Hgo Hgs].
  destruct (reads o) eqn:Hro.
  { destruct (book_step_wf o b Hwf Ht) as [(b' & v & Hst & Hwf')|(-> & _)];
      [|done].
    pose proof (step_reads o b b' v Hro Hst) as ->. eauto. }
  destruct (failed (err b)) eqn:Hf.
  { (* an error is set: nothing happens *)
    destruct o; simpl in *; try done;
      unfold cbook_clear, cbook_pop_group, cbook_pop_word, cbook_prealloc,
        cbook_prepare_new_group, cbook_repair, cbook_undo_new_group,
        cbook_write; rewrite ?Hf; simpl; eauto.
    destruct (cerr_eqb (err b) CERR_INVALID) eqn:Hi; eauto.
    eexists _, _; split; [done|]. split.
    - split; [by apply shape_set_err|]. simpl. left.
      destruct Ha as [?|Hinv]; [done|]. rewrite Hinv in Hi. done.
    - apply grouped_set_err; [done|]. intros H0.
      destruct (Hgf H0) as [?|Hinv]; [done|]. rewrite Hinv in Hi. done. }
  apply failed_false in Hf.
  destruct o; simpl in *; try done.
  - (* clear *)
    destruct (book_step_wf Clear b Hwf I) as [(b' & v & Hst & Hwf')|(? & _)];
      [|done].
    simpl in Hst. eexists _, _; split; [exact Hst|]. split; [done|].
    injection Hst as <- _. unfold cbook_clear. rewrite Hf. simpl.
    constructor; simpl; intros; try done; try lia; by left.
  - (* pop_group *)
    destruct (Z.eq_dec (n_groups b) 0) as [H0|H0].
    { unfold cbook_pop_group. rewrite Hf, H0. simpl. eauto. }
    destruct (cbook_pop_group_spec b Hwf Hf)
      as (b' & g & w & -> & Hwf' & He' & Hlg0 & Hlw0 & Hnc & Hnw & Hng & Hfl & Hws & Hgs');
      [lia|].
    simpl. eexists _, _; split; [done|]. split; [done|].
    constructor.
    + rewrite Hng, Hfl. intros H1. rewrite H1. simpl. by left.
    + rewrite Hng, Hnw. intros H1. rewrite H1 in Hlg0.
      apply load_Some in Hlg0 as [_ Hlg0]. change (Z.to_nat 0) with 0%nat in Hlg0.
      specialize (Hg1 ltac:(lia)). unfold live_groups in Hg1.
      rewrite lookup_take_lt in Hg1 by lia. congruence.
    + rewrite Hng. intros Hpos. unfold live_groups in *. rewrite Hgs', Hng.
      specialize (Hg1 ltac:(lia)).
      rewrite lookup_take_lt in Hg1 by lia. rewrite lookup_take_lt by lia. done.
  - (* pop_word *)
    destruct (Z.eq_dec (n_words b) 0) as [H0|H0].
    { unfold cbook_pop_word. rewrite Hf, H0. simpl. eauto. }
    pose proof (grouped_has_group b Hgr Hs ltac:(lia)) as Hpos.
    destruct (cbook_pop_word_spec b Hwf Hf)
      as (b' & g & w & -> & Hwf' & He' & Hlg0 & Hlw0 & Hnc & Hnw & Hng & Hfl & Hws & Hgs');
      [lia..|].
    simpl. eexists _, _; split; [done|]. split; [done|].
    specialize (Hg1 Hpos). unfold live_groups in Hg1.
    rewrite lookup_take_lt in Hg1 by lia.
    constructor.
    + rewrite Hng, Hfl. destruct (g =? n_words b - 1); [|lia].
      intros H1. rewrite H1. simpl. by left.
    + rewrite Hng, Hnw. destruct (Z.eqb_spec g (n_words b - 1)); [|lia].
      intros H1. rewrite H1 in Hlg0.
      apply load_Some in Hlg0 as [_ Hlg0]. change (Z.to_nat 0) with 0%nat in Hlg0.
      assert (g = 0) by congruence. lia.
    + intros Hpos'. unfold live_groups. rewrite Hgs'.
      rewrite lookup_take_lt by lia. done.
  - (* prealloc *)
    eexists _, _; split; [done|]. unfold cbook_prealloc. rewrite Hf. simpl.
    destruct (book_grow_spec o b bytes_number words_number groups_number Hs)
      as (Hs1 & Hf1 & _); [lia..|].
    split; [by eapply wf_frame|by eapply grouped_frame].
  - (* prepare_new_group *)
    eexists _, _; split; [done|]. unfold cbook_prepare_new_group.
    rewrite Hf. simpl. split; [by apply wf_set_new_group|].
    by apply grouped_set_new_group.
  - (* repair *)
    eexists _, _; split; [done|]. unfold cbook_repair. rewrite Hf. simpl.
    split; [by apply wf_set_err_book|]. apply grouped_set_err; [done|].
    intros H0. destruct (Hgf H0); [done|congruence].
  - (* undo_new_group *)
    eexists _, _; split; [done|]. unfold cbook_undo_new_group.
    rewrite Hf. simpl. destruct (Z.eqb_spec (n_groups b) 0); [done|].
    split; [by apply wf_set_new_group|]. by apply grouped_set_new_group.
  - (* write *)
    destruct (cbook_write_spec o b str Hwf Hf Ht) as (b' & -> & Hwf' & Hok & Hko).
    simpl. eexists _, _; split; [done|]. split; [done|].
    destruct (failed (err b')) eqn:Hf'.
    + eapply grouped_frame; [done|done|]. apply Hko. intros He'.
      rewrite He' in Hf'. done.
    + apply failed_false in Hf'.
      destruct (Hok Hf') as (Hnc & Hnw & Hng & Hfl & Hlvw & Hlvg).
      assert (Hpos : 0 < n_groups b').
      { rewrite Hng. destruct (Z.eq_dec (n_groups b) 0) as [H0|H0].
        - destruct (Hgf H0) as [->|?]; [lia|congruence].
        - destruct (new_group b); lia. }
      constructor; [lia|lia|]. intros _. rewrite Hlvg.
      destruct (Z.eq_dec (n_groups b) 0) as [H0|H0].
      * destruct (Hgf H0) as [->|?]; [|congruence].
        unfold live_groups. rewrite H0. simpl. rewrite (Hgw H0). done.
      * rewrite lookup_app_l; [apply Hg1; lia|].
        unfold live_groups. rewrite length_take. lia.
Qed.

Lemma grouped_create ok o : grouped (cbook_create ok o).
Proof.
  unfold cbook_create. destruct ok; simpl; [|apply grouped_placeholder].
  destruct (grow o calloc_instance 1 1 1) as [b [|]]; [|apply grouped_placeholder].
  constructor; simpl; intros; try done; try lia; by left.
Qed.

(** A run without [cbook_zero] is defined throughout. *)
Lemma run_grouped ops : forall b,
  wf b -> grouped b -> Forall typed ops -> Forall not_zero ops ->
  exists b', run ops b = Some b' /\ wf b' /\ grouped b'.
Proof.
  induction ops as [|o ops IH]; intros b Hwf Hgr Ht Hnz; simpl; [eauto|].
  apply Forall_cons in Ht as [Ho Ht]. apply Forall_cons in Hnz as [Hz Hnz].
  destruct (book_step_grouped o b Hwf Hgr Ho Hz) as (b1 & v & -> & Hwf1 & Hgr1).
  simpl. by apply IH.
Qed.

End CbookGroups.

(** *** The claims on the string arena *)

Module CbookClaims.
Import Cbook CbookFacts CbookGroups.

Lemma same_live_refl b : same_live b b.
Proof. by constructor. Qed.

Lemma live_words_length b :
  shape b -> length (live_words b) = Z.to_nat (n_words b).
Proof. intros []. unfold live_words. rewrite length_take. lia. Qed.

Lemma live_groups_length b :
  shape b -> length (live_groups b) = Z.to_nat (n_groups b).
Proof. intros []. unfold live_groups. rewrite length_take. lia. Qed.

Lemma run_app ops1 ops2 b : run (ops1 ++ ops2) b = run ops1 b ≫= run ops2.
Proof.
  revert b. induction ops1 as [|o ops1 IH]; intros b; simpl; [done|].
  destruct (step o b) as [[b' v]|]; simpl; [apply IH|done].
Qed.

Lemma writes_failed ws b :
  failed (err b) = true -> run (write_all ws) b = Some b.
Proof.
  intros Hf. induction ws as [|w ws IH]; simpl; [done|].
  unfold cbook_write. rewrite Hf. simpl. exact IH.
Qed.

(** [cbook_pop_word] undoes the last [cbook_write] of a book whose words
    all belong to groups. *)
Lemma pop_undoes_write o b s b1 b2 :
  wf b -> grouped b -> err b = CERR_NONE -> strlen s + 1 <= SIZE_MAX ->
  cbook_write o b s = Some b1 -> err b1 = CERR_NONE ->
  wf b2 -> err b2 = CERR_NONE -> same_live b1 b2 ->
  exists b3, cbook_pop_word b2 = Some b3 /\ wf b3 /\ err b3 = CERR_NONE
    /\ same_live b b3.
Proof.
  intros Hwf Hgr He Hlen Hwr He1 Hwf2 He2 [Sc Sw Sg Slw Slg].
  pose proof Hwf as [Hs _]. pose proof Hwf2 as [Hs2 _].
  pose proof Hs as [Hc Hw Hg _ _ _ _ _ _ _ Hgo _].
  destruct (cbook_write_spec o b s Hwf He Hlen) as (b' & Hwr' & _ & Hok & _).
  rewrite Hwr in Hwr'. injection Hwr' as <-.
  destruct (Hok He1) as (Hnc & Hnw & Hng & Hfl & Hlvw & Hlvg). clear Hok.
  pose proof (live_words_length b Hs) as Hlw.
  pose proof (live_groups_length b Hs) as Hlg.
  assert (Hpos : 0 < n_groups b2).
  { rewrite Sg, Hng. destruct (Z.eq_dec (n_groups b) 0) as [H0|H0].
    - destruct (grouped_flag b Hgr H0) as [->|?]; [lia|congruence].
    - destruct (new_group b); lia. }
  destruct (cbook_pop_word_spec b2 Hwf2 He2)
    as (b3 & g & w & Hpop & Hwf3 & He3 & Hlg0 & Hlw0 & Hnc3 & Hnw3 & Hng3 & _ & Hws & Hgs);
    [lia..|].
  exists b3. split_and!; try done.
  (* the offsets that the pop reads are those that the write stored *)
  assert (Hw_eq : w = n_chars b).
  { apply load_Some in Hlw0 as [? Hlw0].
    assert (live_words b2 !! Z.to_nat (n_words b2 - 1) = Some w) as Hl.
    { unfold live_words. rewrite lookup_take_lt by lia. done. }
    rewrite Slw, Hlvw, lookup_app_r in Hl by lia.
    replace (Z.to_nat (n_words b2 - 1) - length (live_words b))%nat with 0%nat in Hl
      by lia. simpl in Hl. congruence. }
  assert (Hg_eq : (g =? n_words b2 - 1) = new_group b).
  { apply load_Some in Hlg0 as [? Hlg0].
    assert (live_groups b2 !! Z.to_nat (n_groups b2 - 1) = Some g) as Hl.
    { unfold live_groups. rewrite lookup_take_lt by lia. done. }
    rewrite Slg, Hlvg in Hl. destruct (new_group b).
    - rewrite lookup_app_r in Hl by lia.
      replace (Z.to_nat (n_groups b2 - 1) - length (live_groups b))%nat with 0%nat in Hl
        by lia. simpl in Hl. apply Z.eqb_eq. injection Hl as <-. lia.
    - rewrite app_nil_r in Hl. apply Z.eqb_neq.
      apply list_elem_of_lookup_2 in Hl. rewrite Forall_forall in Hgo.
      specialize (Hgo g Hl). lia. }
  rewrite Hg_eq in Hng3.
  constructor.
  - lia.
  - lia.
  - destruct (new_group b); lia.
  - unfold live_words. rewrite Hws, Hnw3, Sw, Hnw.
    replace (Z.to_nat (n_words b + 1 - 1)) with (Z.to_nat (n_words b)) by lia.
    transitivity (take (Z.to_nat (n_words b)) (live_words b2)).
    { unfold live_words. rewrite take_take. f_equal. lia. }
    rewrite Slw, Hlvw. by apply take_app_length'.
  - unfold live_groups. rewrite Hgs, Hng3, Sg, Hng.
    transitivity (take (Z.to_nat (n_groups b)) (live_groups b2)).
    { unfold live_groups. rewrite take_take. f_equal.
      destruct (new_group b); lia. }
    rewrite Slg, Hlvg. by apply take_app_length'.
Qed.

(** The stack law, for books whose words all belong to groups: as many
    [cbook_pop_word] calls as successful [cbook_write] calls restore the
    lengths and the live offsets. *)
Lemma stack_law ws : forall b,
  wf b -> grouped b -> err b = CERR_NONE -> Forall typed (write_all ws) ->
  exists b1, run (write_all ws) b = Some b1 /\ wf b1
    /\ (err b1 = CERR_NONE ->
        exists b2, run (replicate (length ws) PopWord) b1 = Some b2
          /\ wf b2 /\ err b2 = CERR_NONE /\ same_live b b2).
Proof.
  induction ws as [|[o s] ws IH]; intros b Hwf Hgr He Ht.
  - exists b. split_and!; [done..|]. intros _. exists b.
    split_and!; try done; apply same_live_refl.
  - simpl in Ht. apply Forall_cons in Ht as [Hs Ht]. simpl in Hs.
    remember (replicate (length ((o, s) :: ws)) PopWord) as pops eqn:Hpops_eq.
    destruct (book_step_grouped (Write o s) b Hwf Hgr Hs I)
      as (b' & v & Hst & Hwf' & Hgr').
    simpl in Hst. destruct (cbook_write o b s) as [bw|] eqn:Hwr; [|done].
    simpl in Hst. injection Hst as -> _.
    simpl. rewrite Hwr. simpl.
    destruct (failed (err b')) eqn:Hf.
    + fold (write_all ws). rewrite writes_failed by done.
      exists b'. split_and!; [done..|]. intros He'. rewrite He' in Hf. done.
    + apply failed_false in Hf. fold (write_all ws).
      destruct (IH b' Hwf' Hgr' Hf Ht) as (b1 & Hrun & Hwf1 & Hpops).
      exists b1. split_and!; [done..|]. intros He1.
      destruct (Hpops He1) as (b2 & Hrun2 & Hwf2 & He2 & Hsl).
      subst pops. cbn [length]. rewrite replicate_S_end, run_app, Hrun2. simpl.
      destruct (pop_undoes_write o b s b' b2) as (b3 & -> & Hwf3 & He3 & Hsl3);
        try done.
      simpl. exists b3. done.
Qed.

(** The stack law holds on every book that is made and used without
    [cbook_zero]: as many [pop_word] calls as successful [write] calls
    restore [length], [words_number] and [groups_number]. *)
Theorem cbook_stack_law_without_zero ok o ops b ws :
  Forall typed ops -> Forall not_zero ops ->
  run ops (cbook_create ok o) = Some b -> err b = CERR_NONE ->
  Forall typed (write_all ws) ->
  exists b1, run (write_all ws) b = Some b1
    /\ (err b1 = CERR_NONE ->
        exists b2, run (replicate (length ws) PopWord) b1 = Some b2
          /\ observe b2 = observe b).
Proof.
  intros Ht Hnz Hrun He Hws.
  destruct (run_grouped ops (cbook_create ok o)
              (book_wf_create ok o) (grouped_create ok o) Ht Hnz)
    as (b' & Hrun' & Hwf & Hgr).
  rewrite Hrun in Hrun'. injection Hrun' as <-.
  destruct (stack_law ws b Hwf Hgr He Hws) as (b1 & Hr1 & _ & Hpops).
  exists b1. split; [done|]. intros He1.
  destruct (Hpops He1) as (b2 & Hr2 & _ & He2 & [Sc Sw Sg _ _]).
  exists b2. split; [done|].
  unfold observe, cbook_length, cbook_words_number, cbook_groups_number.
  rewrite He, He2. simpl. congruence.
Qed.

Lemma cbook_stack_law_without_zero_witness :
  exists b1,
    run (write_all [(zero_cells, "a"%string); (zero_cells, "bb"%string)])
      (cbook_create true zero_cells) = Some b1
    /\ (err b1 = CERR_NONE ->
        exists b2, run (replicate 2 PopWord) b1 = Some b2
          /\ observe b2 = observe (cbook_create true zero_cells)).
Proof.
  apply (cbook_stack_law_without_zero true zero_cells []
           (cbook_create true zero_cells)
           [(zero_cells, "a"%string); (zero_cells, "bb"%string)]).
  - constructor.
  - constructor.
  - reflexivity.
  - reflexivity.
  - repeat constructor; vm_compute; discriminate.
Defined.

(** C5 fails after [cbook_zero]: the arena made by [create], [write "a"],
    [zero] is error-free and empty, but its flag is clear; a write then
    adds a word that belongs to no group, and [cbook_pop_word] reads
    [groups[n_groups - 1]] with [n_groups = 0], outside of the array. *)
Theorem cbook_pop_after_zero_undefined :
  err <$> run [Write zero_cells "a"; Zero] (cbook_create true zero_cells)
  = Some CERR_NONE
  /\ observe <$> run [Write zero_cells "a"; Zero] (cbook_create true zero_cells)
     = Some (0, 0, 0)
  /\ new_group <$> run [Write zero_cells "a"; Zero] (cbook_create true zero_cells)
     = Some false
  /\ err <$> run [Write zero_cells "a"; Zero; Write zero_cells "b"]
               (cbook_create true zero_cells)
     = Some CERR_NONE
  /\ observe <$> run [Write zero_cells "a"; Zero; Write zero_cells "b"]
                   (cbook_create true zero_cells)
     = Some (2, 1, 0)
  /\ run [Write zero_cells "a"; Zero; Write zero_cells "b"; PopWord]
       (cbook_create true zero_cells)
     = None.
Proof. split_and!; vm_compute; reflexivity. Qed.

(** C7 fails: [cbook_zero] resets the three lengths and zeroes the byte
    buffer, but unlike [cbook_clear] it leaves the flag [new_group] as it
    is.  After [create], [write "a"], the next write opens a group after
    [clear] and none after [zero], and [pop_word] is then undefined. *)
Theorem cbook_zero_differs_from_clear :
  observe <$> run [Write zero_cells "a"; Zero] (cbook_create true zero_cells)
  = Some (0, 0, 0)
  /\ observe <$> run [Write zero_cells "a"; Clear] (cbook_create true zero_cells)
     = Some (0, 0, 0)
  /\ chars <$> run [Write zero_cells "a"; Zero] (cbook_create true zero_cells)
     = Some [Ascii.zero; Ascii.zero]
  /\ new_group <$> run [Write zero_cells "a"; Clear] (cbook_create true zero_cells)
     = Some true
  /\ new_group <$> run [Write zero_cells "a"; Zero] (cbook_create true zero_cells)
     = Some false
  /\ observe <$> run [Write zero_cells "a"; Clear; Write zero_cells "b"]
                   (cbook_create true zero_cells)
     = Some (2, 1, 1)
  /\ observe <$> run [Write zero_cells "a"; Zero; Write zero_cells "b"]
                   (cbook_create true zero_cells)
     = Some (2, 1, 0)
  /\ observe <$> run [Write zero_cells "a"; Clear; Write zero_cells "b"; PopWord]
                   (cbook_create true zero_cells)
     = Some (0, 0, 0)
  /\ run [Write zero_cells "a"; Zero; Write zero_cells "b"; PopWord]
       (cbook_create true zero_cells)
     = None.
Proof. split_and!; vm_compute; reflexivity. Qed.

(** C6 as stated does not hold: on a fresh book no group has been opened,
    yet [undo_new_group] after [prepare_new_group] leaves the flag set, and
    the next write opens a group. *)
Lemma cbook_undo_new_group_counterexample :
  n_groups (cbook_create true zero_cells) = 0
  /\ new_group (cbook_undo_new_group
                 (cbook_prepare_new_group (cbook_create true zero_cells))) = true
  /\ cbook_groups_number <$>
       cbook_write zero_cells
         (cbook_undo_new_group
            (cbook_prepare_new_group (cbook_create true zero_cells))) "a"
     = Some 1.
Proof. split_and!; vm_compute; reflexivity. Qed.

Lemma set_new_group_same b : set_new_group (new_group b) b = b.
Proof. by destruct b. Qed.

(** C6, amended: on an error-free book, [prepare_new_group] sets the flag
    and the next successful write opens a group that starts at the new
    word; [undo_new_group] clears the flag when the book holds at least
    one group, so that the next write joins the last group, and it does
    nothing when the book holds no group (the flag stays set) or when the
    flag is already clear. *)
Theorem cbook_new_group_flag (b : cbook) (o : allocs) (s : string) :
  reachable b -> err b = CERR_NONE -> strlen s + 1 <= SIZE_MAX ->
  new_group (cbook_prepare_new_group b) = true
  /\ (exists b1, cbook_write o (cbook_prepare_new_group b) s = Some b1
        /\ (err b1 = CERR_NONE ->
            cbook_groups_number b1 = cbook_groups_number b + 1
            /\ live_groups b1 = live_groups b ++ [n_words b]
            /\ new_group b1 = false))
  /\ (0 < n_groups b ->
      cbook_undo_new_group (cbook_prepare_new_group b) = set_new_group false b
      /\ exists b1,
           cbook_write o (cbook_undo_new_group (cbook_prepare_new_group b)) s
           = Some b1
           /\ (err b1 = CERR_NONE ->
               cbook_groups_number b1 = cbook_groups_number b
               /\ live_groups b1 = live_groups b))
  /\ (n_groups b = 0 ->
      cbook_undo_new_group (cbook_prepare_new_group b)
      = cbook_prepare_new_group b)
  /\ (0 < n_groups b -> new_group b = false -> cbook_undo_new_group b = b).
Proof.
  intros Hreach He Hlen. pose proof (book_reachable_wf b Hreach) as Hwf.
  unfold cbook_prepare_new_group, cbook_undo_new_group. rewrite He. simpl.
  rewrite He. simpl.
  split_and!.
  - done.
  - destruct (cbook_write_spec o (set_new_group true b) s) as (b1 & -> & _ & Hok & _);
      [by apply wf_set_new_group|done|done|].
    exists b1. split; [done|]. intros He1.
    destruct (Hok He1) as (_ & _ & Hng & Hfl & _ & Hlvg). simpl in *.
    unfold cbook_groups_number. rewrite He1, He. simpl. done.
  - intros Hpos. destruct (Z.eqb_spec (n_groups b) 0); [lia|].
    split; [done|].
    destruct (cbook_write_spec o (set_new_group false (set_new_group true b)) s)
      as (b1 & -> & _ & Hok & _);
      [by do 2 apply wf_set_new_group|done|done|].
    exists b1. split; [done|]. intros He1.
    destruct (Hok He1) as (_ & _ & Hng & Hfl & _ & Hlvg). simpl in *.
    unfold cbook_groups_number. rewrite He1, He. simpl.
    rewrite app_nil_r in Hlvg. split; [lia|done].
  - intros H0. rewrite H0. simpl. done.
  - intros Hpos Hfl. destruct (Z.eqb_spec (n_groups b) 0); [lia|].
    rewrite <- Hfl. apply set_new_group_same.
Qed.

Lemma cbook_new_group_flag_witness :
  err (cbook_create true zero_cells) = CERR_NONE
  /\ new_group (cbook_prepare_new_group (cbook_create true zero_cells)) = true
  /\ (n_groups (cbook_create true zero_cells) = 0 ->
      cbook_undo_new_group (cbook_prepare_new_group (cbook_create true zero_cells))
      = cbook_prepare_new_group (cbook_create true zero_cells)).
Proof.
  split; [reflexivity|].
  pose proof (cbook_new_group_flag (cbook_create true zero_cells) zero_cells "a"
                (reach_create true zero_cells) eq_refl) as H.
  destruct H as (H1 & _ & _ & H4 & _).
  - vm_compute. discriminate.
  - split; [exact H1|exact H4].
Defined.

End CbookClaims.

(** ** The claims on all three containers *)

Module SharedClaims.

(** *** Sticky errors *)

Lemma cinputs_step_failed o c :
  failed (Cinputs.err c) = true -> Cinputs.error_control o = false ->
  Cinputs.step o c = Some (c, Cinputs.default_ret o c).
Proof.
  intros Hf Ho. destruct o; try discriminate Ho; simpl;
    unfold Cinputs.cinputs_clear, Cinputs.cinputs_clone, Cinputs.cinputs_find,
      Cinputs.cinputs_id, Cinputs.cinputs_load, Cinputs.cinputs_ptr,
      Cinputs.cinputs_pull_id, Cinputs.cinputs_find, Cinputs.cinputs_pull_index,
      Cinputs.cinputs_push, Cinputs.cinputs_resize,
      Cinputs.cinputs_set_default_ptr, Cinputs.cinputs_x, Cinputs.cinputs_y;
    rewrite ?Hf; reflexivity.
Qed.

Lemma cinputs_run_failed ops c :
  failed (Cinputs.err c) = true -> Forall (fun o => o <> Cinputs.Repair) ops ->
  Cinputs.run ops c = Some c.
Proof.
  intros Hf. induction 1 as [|o ops Ho _ IH]; simpl; [done|].
  destruct (Cinputs.error_control o) eqn:Hc.
  - destruct o; try discriminate Hc; [|done]. simpl. exact IH.
  - rewrite cinputs_step_failed by done. simpl. exact IH.
Qed.

Lemma cref_step_failed o r :
  failed (Cref.err r) = true -> Cref.error_control o = false ->
  Cref.step o r = Some (r, Cref.default_ret o r).
Proof.
  intros Hf Ho. destruct o; try discriminate Ho; simpl;
    unfold Cref.cref_clear, Cref.cref_clone, Cref.cref_count, Cref.cref_find,
      Cref.cref_length, Cref.cref_prealloc, Cref.cref_ptr, Cref.cref_pull_index,
      Cref.cref_pull_ptr, Cref.cref_purge_index, Cref.cref_purge_ptr,
      Cref.cref_find, Cref.cref_push, Cref.cref_set_default_ptr;
    rewrite ?Hf; reflexivity.
Qed.

Lemma cref_run_failed ops r :
  failed (Cref.err r) = true -> Forall (fun o => o <> Cref.Repair) ops ->
  Cref.run ops r = Some r.
Proof.
  intros Hf. induction 1 as [|o ops Ho _ IH]; simpl; [done|].
  destruct (Cref.error_control o) eqn:Hc.
  - destruct o; try discriminate Hc; [|done]. simpl. exact IH.
  - rewrite cref_step_failed by done. simpl. exact IH.
Qed.

Lemma cbook_step_failed o b :
  failed (Cbook.err b) = true -> Cbook.error_control o = false ->
  Cbook.step o b = Some (b, Cbook.default_ret o b).
Proof.
  intros Hf Ho. destruct o; try discriminate Ho; simpl;
    unfold Cbook.cbook_clear, Cbook.cbook_clone, Cbook.cbook_group_length,
      Cbook.cbook_groups_number, Cbook.cbook_length, Cbook.cbook_pop_group,
      Cbook.cbook_pop_word, Cbook.cbook_prealloc, Cbook.cbook_prepare_new_group,
      Cbook.cbook_undo_new_group, Cbook.cbook_word, Cbook.cbook_word_in_group,
      Cbook.cbook_word_index, Cbook.no_such_word, Cbook.cbook_words_number,
      Cbook.cbook_write, Cbook.cbook_zero;
    rewrite ?Hf; reflexivity.
Qed.

Lemma cbook_run_failed ops b :
  failed (Cbook.err b) = true -> Forall (fun o => o <> Cbook.Repair) ops ->
  Cbook.run ops b = Some b.
Proof.
  intros Hf. induction 1 as [|o ops Ho _ IH]; simpl; [done|].
  destruct (Cbook.error_control o) eqn:Hc.
  - destruct o; try discriminate Hc; [|done]. simpl. exact IH.
  - rewrite cbook_step_failed by done. simpl. exact IH.
Qed.

(** C1: while the stored error of a slot table, a reference registry or a
    string arena is PARAM, OVERFLOW or MEMORY, every public operation
    other than the error control ([error], [repair]) leaves the instance
    as it is and returns the default value of its return type, and so does
    every sequence of calls without [repair]; [repair] then clears the
    error. *)
Theorem sticky_error (e : cerr) :
  recoverable e ->
  (forall c o, Cinputs.err c = e -> Cinputs.error_control o = false ->
     Cinputs.step o c = Some (c, Cinputs.default_ret o c))
  /\ (forall c ops, Cinputs.err c = e ->
        Forall (fun o => o <> Cinputs.Repair) ops -> Cinputs.run ops c = Some c)
  /\ (forall c, Cinputs.err c = e ->
        Cinputs.cinputs_repair c = Cinputs.set_err CERR_NONE c)
  /\ (forall r o, Cref.err r = e -> Cref.error_control o = false ->
        Cref.step o r = Some (r, Cref.default_ret o r))
  /\ (forall r ops, Cref.err r = e ->
        Forall (fun o => o <> Cref.Repair) ops -> Cref.run ops r = Some r)
  /\ (forall r, Cref.err r = e -> Cref.cref_repair r = Cref.set_err CERR_NONE r)
  /\ (forall b o, Cbook.err b = e -> Cbook.error_control o = false ->
        Cbook.step o b = Some (b, Cbook.default_ret o b))
  /\ (forall b ops, Cbook.err b = e ->
        Forall (fun o => o <> Cbook.Repair) ops -> Cbook.run ops b = Some b)
  /\ (forall b, Cbook.err b = e ->
        Cbook.cbook_repair b = Cbook.set_err CERR_NONE b).
Proof.
  intros He. pose proof (failed_recoverable e He) as Hf.
  assert (Hi : cerr_eqb e CERR_INVALID = false)
    by (destruct He as [->|[->| ->]]; reflexivity).
  split_and!.
  - intros c o <- Ho. by apply cinputs_step_failed.
  - intros c ops <- Ho. by apply cinputs_run_failed.
  - intros c <-. unfold Cinputs.cinputs_repair. by rewrite Hi.
  - intros r o <- Ho. by apply cref_step_failed.
  - intros r ops <- Ho. by apply cref_run_failed.
  - intros r <-. unfold Cref.cref_repair. by rewrite Hi.
  - intros b o <- Ho. by apply cbook_step_failed.
  - intros b ops <- Ho. by apply cbook_run_failed.
  - intros b <-. unfold Cbook.cbook_repair. by rewrite Hi.
Qed.

Lemma sticky_error_witness :
  recoverable CERR_OVERFLOW
  /\ Cinputs.step (Cinputs.Push 3 30 30 300)
       (Cinputs.set_err CERR_OVERFLOW Cinputs.full_table)
     = Some (Cinputs.set_err CERR_OVERFLOW Cinputs.full_table, Cinputs.RVoid)
  /\ Cref.step (Cref.Push Cref.zero_slots 42)
       (Cref.set_err CERR_OVERFLOW (Cref.cref_create true Cref.zero_slots))
     = Some (Cref.set_err CERR_OVERFLOW (Cref.cref_create true Cref.zero_slots),
             Cref.RVoid)
  /\ Cbook.step (Cbook.Write Cbook.zero_cells "a")
       (Cbook.set_err CERR_OVERFLOW (Cbook.cbook_create true Cbook.zero_cells))
     = Some (Cbook.set_err CERR_OVERFLOW (Cbook.cbook_create true Cbook.zero_cells),
             Cbook.RVoid).
Proof.
  assert (H : recoverable CERR_OVERFLOW) by (right; left; reflexivity).
  split; [exact H|].
  destruct (sticky_error CERR_OVERFLOW H) as (H1 & _ & _ & H4 & _ & _ & H7 & _).
  split_and!.
  - apply H1; reflexivity.
  - apply H4; reflexivity.
  - apply H7; reflexivity.
Defined.

(** *** Overflow rejection *)

Lemma cinputs_resize_overflow o c m :
  Cinputs.err c = CERR_NONE -> SIZE_MAX < m * Cinputs.sizeof_slot ->
  Cinputs.cinputs_resize o c m = Cinputs.set_err CERR_OVERFLOW c.
Proof.
  intros He Hm. unfold Cinputs.cinputs_resize, Cinputs.resize. rewrite He. simpl.
  destruct (Z.eqb_spec m 0) as [->|_]; [unfold SIZE_MAX in Hm; lia|].
  apply safe_mul_None in Hm. by rewrite Hm.
Qed.

Lemma cinputs_resize_intact o c m :
  Cinputs.err c = CERR_NONE ->
  Cinputs.err (Cinputs.cinputs_resize o c m) = CERR_OVERFLOW ->
  Cinputs.cinputs_resize o c m = Cinputs.set_err CERR_OVERFLOW c.
Proof.
  intros He. unfold Cinputs.cinputs_resize, Cinputs.resize. rewrite He. simpl.
  destruct (m =? 0); simpl; [done|].
  destruct (safe_mul m Cinputs.sizeof_slot); simpl; [|done].
  destruct (realloc o (Cinputs.slots c) m); simpl; [congruence|done].
Qed.

Lemma cref_prealloc_overflow o r m :
  Cref.wf r -> Cref.err r = CERR_NONE -> SIZE_MAX < m * Cref.sizeof_slot ->
  Cref.cref_prealloc o r m = Cref.set_err CERR_OVERFLOW r.
Proof.
  intros Hwf He Hm. pose proof (Cref.wf_size r Hwf) as Hsz.
  unfold Cref.cref_prealloc, Cref.grow. rewrite He. simpl.
  unfold Cref.sizeof_slot in *.
  destruct (Z.leb_spec m (Cref.n_alloc r)); [lia|].
  apply safe_mul_None in Hm. unfold Cref.sizeof_slot. by rewrite Hm.
Qed.

Lemma cref_prealloc_intact o r m :
  Cref.err r = CERR_NONE ->
  Cref.err (Cref.cref_prealloc o r m) = CERR_OVERFLOW ->
  Cref.cref_prealloc o r m = Cref.set_err CERR_OVERFLOW r.
Proof.
  intros He. unfold Cref.cref_prealloc, Cref.grow. rewrite He. simpl.
  destruct (m <=? Cref.n_alloc r); simpl; [congruence|].
  destruct (safe_mul m Cref.sizeof_slot); simpl; [|done].
  destruct (realloc o (Cref.slots r) m); simpl; [congruence|done].
Qed.

Lemma cref_push_overflow o r p :
  Cref.wf r -> Cref.err r = CERR_NONE -> fst <$> Cref.cref_find r p = Some 0 ->
  Cref.n_alloc r <= Cref.n r ->
  SIZE_MAX < Cref.n_alloc r * 2 * Cref.sizeof_slot ->
  Cref.cref_push o r p = Some (Cref.set_err CERR_OVERFLOW r).
Proof.
  intros Hwf He Hfind Hfull Hm.
  pose proof (CrefFacts.ref_range r Hwf) as Hr.
  unfold Cref.cref_push. rewrite He. simpl.
  destruct (Cref.cref_find r p) as [[c oi]|]; [|done]. simpl in *.
  injection Hfind as ->. simpl.
  destruct (Z.leb_spec (Cref.n_alloc r) (Cref.n r)); [|lia].
  destruct (safe_mul (Cref.n_alloc r) 2) as [d|] eqn:Hd; [|done].
  apply safe_mul_Some in Hd as [_ Hd]. rewrite size_wrap_id by lia.
  unfold Cref.grow.
  destruct (Z.leb_spec (Cref.n_alloc r * 2) (Cref.n_alloc r)).
  { unfold Cref.sizeof_slot, SIZE_MAX in *. lia. }
  apply safe_mul_None in Hm. by rewrite Hm.
Qed.

Lemma cref_push_intact o r p r' :
  Cref.wf r -> Cref.err r = CERR_NONE ->
  Cref.cref_push o r p = Some r' -> Cref.err r' = CERR_OVERFLOW ->
  r' = Cref.set_err CERR_OVERFLOW r.
Proof.
  intros Hwf He Hp Ho.
  destruct (CrefFacts.cref_push_spec o r p Hwf He) as (r'' & Hp' & _ & _ & Hko).
  rewrite Hp in Hp'. injection Hp' as <-.
  destruct Hko as [->| ->]; [congruence|done|]. simpl in Ho. congruence.
Qed.

Lemma cbook_prealloc_overflow o b c w g :
  Cbook.err b = CERR_NONE ->
  SIZE_MAX < w * Cbook.sizeof_size_t \/ SIZE_MAX < g * Cbook.sizeof_size_t ->
  Cbook.cbook_prealloc o b c w g = Cbook.set_err CERR_OVERFLOW b.
Proof.
  intros He Hm. unfold Cbook.cbook_prealloc. rewrite He. simpl.
  by rewrite CbookFacts.book_grow_overflow.
Qed.

Lemma cbook_prealloc_intact o b c w g :
  Cbook.wf b -> Cbook.err b = CERR_NONE ->
  0 <= c <= SIZE_MAX -> 0 <= w -> 0 <= g ->
  Cbook.err (Cbook.cbook_prealloc o b c w g) = CERR_OVERFLOW ->
  Cbook.cbook_prealloc o b c w g = Cbook.set_err CERR_OVERFLOW b.
Proof.
  intros [Hs _] He Hc Hw Hg. unfold Cbook.cbook_prealloc. rewrite He. simpl.
  destruct (CbookFacts.book_grow_spec o b c w g Hs Hc Hw Hg) as (_ & _ & Hr).
  destruct (Cbook.grow o b c w g) as [b1 [|]]; simpl in *.
  - destruct Hr as [-> _]. congruence.
  - destruct Hr as [->|Hr]; [done|congruence].
Qed.

Lemma cbook_write_overflow o b s :
  Cbook.wf b -> Cbook.err b = CERR_NONE -> Cbook.strlen s + 1 <= SIZE_MAX ->
  SIZE_MAX < Cbook.n_chars b + Cbook.strlen s + 1
  \/ (Cbook.n_alloc_words b <= Cbook.n_words b
      /\ SIZE_MAX < Cbook.n_alloc_words b * 2 * Cbook.sizeof_size_t)
  \/ (Cbook.n_alloc_groups b <= Cbook.n_groups b
      /\ SIZE_MAX < Cbook.n_alloc_groups b * 2 * Cbook.sizeof_size_t) ->
  Cbook.cbook_write o b s = Some (Cbook.set_err CERR_OVERFLOW b).
Proof.
  intros Hwf He Hlen Hm. pose proof Hwf as [Hs Ha].
  pose proof (CbookFacts.wf_alloc_pos b Hwf He) as (Hac & Haw & Hag).
  pose proof (CbookFacts.shape_range b Hs) as (Hrw & Hrg & Hrw2 & Hrg2).
  pose proof (CbookFacts.strlen_nonneg s) as Hsl.
  pose proof Hs as [Hc Hw Hg Hlc Hlw Hlg Hzc Hzw Hzg Hwo Hgo Hgs].
  unfold Cbook.cbook_write. rewrite He. cbn [failed].
  rewrite (size_wrap_id (Cbook.strlen s + 1)) by lia.
  destruct (CbookFacts.doubled_room (Cbook.n_alloc_words b) (Cbook.n_words b))
    as [-> _]; [lia..|].
  destruct (CbookFacts.doubled_room (Cbook.n_alloc_groups b) (Cbook.n_groups b))
    as [-> _]; [lia..|].
  destruct (CbookFacts.fit_chars_spec (Cbook.strlen s + 1) (Cbook.n_chars b)
              Cbook.fit_fuel (Cbook.n_alloc_chars b))
    as [->|(nc & -> & Hnc & Hfit)]; [lia|lia| |done|].
  { change (2 ^ Z.of_nat Cbook.fit_fuel) with 18446744073709551616.
    unfold SIZE_MAX in *. lia. }
  simpl. destruct Hm as [Hm|[[Hfull Hm]|[Hfull Hm]]]; [lia| |].
  - destruct (Z.leb_spec (Cbook.n_alloc_words b) (Cbook.n_words b)); [|lia].
    rewrite CbookFacts.book_grow_overflow by (left; lia). done.
  - destruct (Z.leb_spec (Cbook.n_alloc_groups b) (Cbook.n_groups b)); [|lia].
    rewrite CbookFacts.book_grow_overflow by (right; lia). done.
Qed.

Lemma cbook_write_intact o b s b' :
  Cbook.wf b -> Cbook.err b = CERR_NONE -> Cbook.strlen s + 1 <= SIZE_MAX ->
  Cbook.cbook_write o b s = Some b' -> Cbook.err b' = CERR_OVERFLOW ->
  b' = Cbook.set_err CERR_OVERFLOW b.
Proof.
  intros Hwf He Hlen Hw Ho.
  destruct (CbookFacts.cbook_write_spec o b s Hwf He Hlen) as (b'' & Hw' & _ & _ & Hko).
  rewrite Hw in Hw'. injection Hw' as <-.
  destruct Hko as [_ Hko]; [congruence|]. by apply Hko.
Qed.

(** C8: on an error-free container, a resize or growth request whose
    element count times the element size exceeds [SIZE_MAX] sets the error
    OVERFLOW and changes nothing else; and whenever a resize, a growth or a
    write ends with the error OVERFLOW, nothing else has changed. *)
Theorem overflow_keeps_state :
  (forall o c m,
     Cinputs.err c = CERR_NONE ->
     (SIZE_MAX < m * Cinputs.sizeof_slot
      \/ Cinputs.err (Cinputs.cinputs_resize o c m) = CERR_OVERFLOW) ->
     Cinputs.cinputs_resize o c m = Cinputs.set_err CERR_OVERFLOW c)
  /\ (forall o r m,
        Cref.reachable r -> Cref.err r = CERR_NONE ->
        (SIZE_MAX < m * Cref.sizeof_slot
         \/ Cref.err (Cref.cref_prealloc o r m) = CERR_OVERFLOW) ->
        Cref.cref_prealloc o r m = Cref.set_err CERR_OVERFLOW r)
  /\ (forall o r p,
        Cref.reachable r -> Cref.err r = CERR_NONE ->
        (fst <$> Cref.cref_find r p = Some 0 /\ Cref.n_alloc r <= Cref.n r
         /\ SIZE_MAX < Cref.n_alloc r * 2 * Cref.sizeof_slot)
        \/ Cref.err <$> Cref.cref_push o r p = Some CERR_OVERFLOW ->
        Cref.cref_push o r p = Some (Cref.set_err CERR_OVERFLOW r))
  /\ (forall o b c w g,
        Cbook.reachable b -> Cbook.err b = CERR_NONE ->
        0 <= c <= SIZE_MAX -> 0 <= w -> 0 <= g ->
        (SIZE_MAX < w * Cbook.sizeof_size_t \/ SIZE_MAX < g * Cbook.sizeof_size_t
         \/ Cbook.err (Cbook.cbook_prealloc o b c w g) = CERR_OVERFLOW) ->
        Cbook.cbook_prealloc o b c w g = Cbook.set_err CERR_OVERFLOW b)
  /\ (forall o b s,
        Cbook.reachable b -> Cbook.err b = CERR_NONE ->
        Cbook.strlen s + 1 <= SIZE_MAX ->
        (SIZE_MAX < Cbook.n_chars b + Cbook.strlen s + 1
         \/ (Cbook.n_alloc_words b <= Cbook.n_words b
             /\ SIZE_MAX < Cbook.n_alloc_words b * 2 * Cbook.sizeof_size_t)
         \/ (Cbook.n_alloc_groups b <= Cbook.n_groups b
             /\ SIZE_MAX < Cbook.n_alloc_groups b * 2 * Cbook.sizeof_size_t)
         \/ Cbook.err <$> Cbook.cbook_write o b s = Some CERR_OVERFLOW) ->
        Cbook.cbook_write o b s = Some (Cbook.set_err CERR_OVERFLOW b)).
Proof.
  split_and!.
  - intros o c m He [Hm|Ho];
      [by apply cinputs_resize_overflow|by apply cinputs_resize_intact].
  - intros o r m Hr He [Hm|Ho];
      [apply cref_prealloc_overflow; auto using CrefFacts.ref_reachable_wf
      |by apply cref_prealloc_intact].
  - intros o r p Hr He [(Hf & Hfull & Hm)|Ho].
    + apply cref_push_overflow; auto using CrefFacts.ref_reachable_wf.
    + destruct (Cref.cref_push o r p) as [r'|] eqn:Hp; [|done].
      simpl in Ho. injection Ho as Ho. f_equal.
      eapply cref_push_intact; eauto using CrefFacts.ref_reachable_wf.
  - intros o b c w g Hr He Hc Hw Hg [Hm|[Hm|Ho]].
    + apply cbook_prealloc_overflow; auto.
    + apply cbook_prealloc_overflow; auto.
    + apply cbook_prealloc_intact; auto using CbookFacts.book_reachable_wf.
  - intros o b s Hr He Hlen Hm.
    pose proof (CbookFacts.book_reachable_wf b Hr) as Hwf.
    destruct Hm as [Hm|[Hm|[Hm|Ho]]];
      [apply cbook_write_overflow; auto..|].
    destruct (Cbook.cbook_write o b s) as [b'|] eqn:Hw; [|done].
    simpl in Ho. injection Ho as Ho. f_equal.
    eapply cbook_write_intact; eauto.
Qed.

Lemma overflow_keeps_state_witness :
  Cinputs.err Cinputs.full_table = CERR_NONE
  /\ SIZE_MAX < 9223372036854775808 * Cinputs.sizeof_slot
  /\ Cinputs.cinputs_resize Cinputs.zero_slots Cinputs.full_table
       9223372036854775808
     = Cinputs.set_err CERR_OVERFLOW Cinputs.full_table
  /\ Cbook.cbook_prealloc Cbook.zero_cells
       (Cbook.cbook_create true Cbook.zero_cells) 4 9223372036854775808 4
     = Cbook.set_err CERR_OVERFLOW (Cbook.cbook_create true Cbook.zero_cells).
Proof.
  assert (Hm : SIZE_MAX < 9223372036854775808 * Cinputs.sizeof_slot)
    by (vm_compute; reflexivity).
  split; [reflexivity|]. split; [exact Hm|].
  destruct overflow_keeps_state as (H1 & _ & _ & H4 & _).
  split.
  - apply H1; [reflexivity|by left].
  - apply H4; [apply Cbook.reach_create|reflexivity| | | |].
    + unfold SIZE_MAX. lia.
    + lia.
    + lia.
    + left. vm_compute. reflexivity.
Defined.





End SharedClaims.

(** * Further properties of the slot table *)

Module CinputsProps.
Import Cinputs CinputsFacts.

(** Inside the live range the accessors read the live entry. *)
Lemma accessors_live c j :
  wf c -> err c = CERR_NONE -> 0 <= j < n c ->
  cinputs_id c j = id <$> live c !! Z.to_nat j
  /\ cinputs_x c j = x <$> live c !! Z.to_nat j
  /\ cinputs_y c j = y <$> live c !! Z.to_nat j
  /\ cinputs_ptr c j = ptr <$> live c !! Z.to_nat j.
Proof.
  intros [Hn Hlen _ _] He Hj.
  unfold cinputs_id, cinputs_x, cinputs_y, cinputs_ptr, live. rewrite He. simpl.
  destruct (Z.leb_spec (n c) j); [lia|].
  rewrite load_in by lia. rewrite lookup_take_lt by lia.
  destruct (slots c !! Z.to_nat j); done.
Qed.

Lemma live_lookup_in c (j : nat) s :
  wf c -> live c !! j = Some s -> 0 <= Z.of_nat j < n c.
Proof.
  intros Hwf Hs. apply lookup_lt_Some in Hs. rewrite live_length in Hs by done.
  destruct Hwf. lia.
Qed.

Lemma full_table_reachable : reachable full_table.
Proof.
  apply (reach_step (set_n 1 (set_slots [Slot 1 10 10 100; Slot 0 0 0 0]
                                (cinputs_create true zero_slots 2)))
                    (Push 2 20 20 200) full_table RVoid); [|exact I|reflexivity].
  apply (reach_step (cinputs_create true zero_slots 2)
                    (Push 1 10 10 100) _ RVoid); [|exact I|reflexivity].
  apply reach_create. unfold SIZE_MAX. lia.
Qed.

(** X2: [cinputs_find] is exact on every table a program can hold.  When
    it reports an index, the index is inside the live range, the entry
    there carries the id, and no other live entry does; when it reports
    nothing, no live entry carries the id. *)
Theorem cinputs_find_exact (c : cinputs) (id' : Z) :
  reachable c ->
  exists r, cinputs_find c id' = Some r
    /\ match r with
       | Some i =>
           0 <= i < cinputs_load c
           /\ cinputs_id c i = Some id'
           /\ (forall j, 0 <= j < cinputs_load c ->
                 cinputs_id c j = Some id' -> j = i)
       | None =>
           forall j, 0 <= j < cinputs_load c ->
             exists v, cinputs_id c j = Some v /\ v <> id'
       end.
Proof.
  intros Hr. pose proof (reachable_wf c Hr) as Hwf.
  destruct (failed (err c)) eqn:Hf.
  { unfold cinputs_find, cinputs_load. rewrite Hf. exists None.
    split; [done|]. intros j Hj. lia. }
  apply failed_false in Hf. rewrite cinputs_find_spec by done.
  unfold cinputs_load. rewrite Hf. simpl.
  destruct (list_find (has_id id') (live c)) as [[i s]|] eqn:Hfind; simpl.
  - eexists; split; [reflexivity|]. simpl.
    apply list_find_Some in Hfind as (Hi & Hid & Hbefore).
    pose proof (live_lookup_in c i s Hwf Hi) as Hin.
    destruct (accessors_live c (Z.of_nat i) Hwf Hf Hin) as (-> & _).
    rewrite Nat2Z.id, Hi. simpl. unfold has_id in Hid. subst id'.
    split_and!; [lia..|done|].
    intros j Hj Hidj.
    destruct (accessors_live c j Hwf Hf Hj) as (Hacc & _).
    rewrite Hacc in Hidj.
    destruct (live c !! Z.to_nat j) as [t|] eqn:Ht; [|done].
    simpl in Hidj. injection Hidj as Hidj.
    destruct Hwf as [_ _ _ Hnd].
    assert (Z.to_nat j = i); [|lia].
    eapply NoDup_lookup; [exact Hnd| |].
    + rewrite list_lookup_fmap, Ht. simpl. by rewrite Hidj.
    + by rewrite list_lookup_fmap, Hi.
  - eexists; split; [reflexivity|]. simpl. intros j Hj.
    destruct (accessors_live c j Hwf Hf Hj) as (-> & _).
    destruct (live c !! Z.to_nat j) as [t|] eqn:Ht.
    + simpl. eexists; split; [done|].
      rewrite list_find_None, Forall_forall in Hfind.
      apply Hfind. by eapply list_elem_of_lookup_2.
    + apply lookup_ge_None in Ht. rewrite live_length in Ht by done. lia.
Qed.

Lemma cinputs_find_exact_witness :
  exists r, cinputs_find full_table 2 = Some r
    /\ match r with
       | Some i =>
           0 <= i < cinputs_load full_table
           /\ cinputs_id full_table i = Some 2
           /\ (forall j, 0 <= j < cinputs_load full_table ->
                 cinputs_id full_table j = Some 2 -> j = i)
       | None =>
           forall j, 0 <= j < cinputs_load full_table ->
             exists v, cinputs_id full_table j = Some v /\ v <> 2
       end.
Proof. apply cinputs_find_exact. exact full_table_reachable. Defined.

Lemma absent_list_find id' (l : list slot) :
  id' ∉ (id <$> l) -> list_find (has_id id') l = None.
Proof.
  intros Hn. apply list_find_None, Forall_forall. intros s Hs Hid.
  apply Hn. unfold has_id in Hid. subst id'. by apply list_elem_of_fmap_2.
Qed.

Lemma int16_of_int_id z : -32768 <= z <= 32767 -> int16_of_int z = z.
Proof. intros Hz. unfold int16_of_int. rewrite Z.mod_small; lia. Qed.

Lemma int16_of_int_range z : -32768 <= int16_of_int z <= 32767.
Proof.
  unfold int16_of_int. pose proof (Z.mod_pos_bound (z + 32768) 65536). lia.
Qed.

Lemma filter_all {A} (P : A -> Prop) `{!forall x, Decision (P x)} (l : list A) :
  Forall P l -> filter P l = l.
Proof.
  induction 1 as [|x l Hx _ IH]; [done|].
  by rewrite filter_cons_True, IH.
Qed.

Lemma delete_found_filter id' (l : list slot) :
  NoDup (id <$> l) ->
  match list_find (has_id id') l with
  | Some (i, _) => delete i l
  | None => l
  end = filter (fun s => id s <> id') l.
Proof.
  induction l as [|s l IH]; [done|].
  rewrite fmap_cons, NoDup_cons. intros [Hs Hnd]. specialize (IH Hnd).
  rewrite filter_cons. cbn [list_find]. unfold has_id at 1.
  destruct (decide (id s = id')) as [Heq|Hne].
  - rewrite decide_False by (intros H; by apply H). simpl.
    symmetry. apply filter_all, Forall_forall. intros t Ht Hid.
    apply Hs. rewrite Heq, <- Hid. by apply list_elem_of_fmap_2.
  - rewrite decide_True by done.
    destruct (list_find (has_id id') l) as [[i t]|]; simpl in *; by rewrite <- IH.
Qed.

Lemma filter_other_length id' (l : list slot) :
  NoDup (id <$> l) ->
  (length (filter (fun s => id s <> id') l)
   + (if decide (id' ∈ (id <$> l)) then 1 else 0) = length l)%nat.
Proof.
  induction l as [|s l IH]; [done|].
  rewrite fmap_cons, NoDup_cons. intros [Hs Hnd]. specialize (IH Hnd).
  rewrite filter_cons.
  destruct (decide (id s = id')) as [Heq|Hne].
  - rewrite decide_False by (intros H; by apply H).
    rewrite decide_True by (rewrite Heq; apply list_elem_of_here).
    rewrite <- Heq in IH. rewrite decide_False in IH by done.
    rewrite <- Heq. simpl. lia.
  - rewrite decide_True by done.
    destruct (decide (id' ∈ id <$> l)) as [Hin|Hout].
    + rewrite decide_True by (by apply list_elem_of_further). simpl. lia.
    + rewrite decide_False
        by (intros [?|?]%elem_of_cons; [congruence|done]).
      simpl. lia.
Qed.

(** What [cinputs_push] leaves when it stores the entry: the entry is the
    last live one, after the others in their order. *)
Lemma cinputs_push_stored c id' x' y' p :
  wf c -> err c = CERR_NONE ->
  n c < n_alloc c \/ id' ∈ (id <$> live c) ->
  exists c', cinputs_push c id' x' y' p = Some c'
    /\ wf c' /\ err c' = CERR_NONE /\ n_alloc c' = n_alloc c
    /\ default_ptr c' = default_ptr c
    /\ live c' = filter (fun s => id s <> id') (live c) ++ [new_slot id' x' y' p]
    /\ list_find (has_id id') (live c')
       = Some (Z.to_nat (n c' - 1), new_slot id' x' y' p)
    /\ 1 <= n c'
    /\ n c' = n c + (if decide (id' ∈ (id <$> live c)) then 0 else 1).
Proof.
  intros Hwf He Hroom.
  destruct (cinputs_push_spec c id' x' y' p Hwf He)
    as (c' & Hp & Hwf' & Ha & Hd & He' & Hlv).
  destruct (cinputs_pull_id_spec c id' Hwf He)
    as (c1 & _ & Hwf1 & Hnot & Hlv1 & _).
  cbv zeta in Hlv. rewrite <- Hlv1 in Hlv.
  pose proof (live_length c Hwf) as Hlen.
  pose proof (live_length c' Hwf') as Hlen'.
  pose proof (wf_range c Hwf) as Hr. pose proof (wf_range c' Hwf') as Hr'.
  assert (Hfilter : live c1 = filter (fun s => id s <> id') (live c)
                    /\ length (live c1)
                       = (length (live c)
                          - (if decide (id' ∈ (id <$> live c)) then 1 else 0))%nat
                    /\ (id' ∈ (id <$> live c) -> (0 < length (live c))%nat)).
  { destruct Hwf as [_ _ _ Hnd].
    rewrite Hlv1, delete_found_filter by done.
    pose proof (filter_other_length id' (live c) Hnd) as Hfl.
    split_and!; [done|lia|].
    intros Hin. destruct (live c); [by apply elem_of_nil in Hin|simpl; lia]. }
  destruct Hfilter as (Hfl & Hfl2 & Hfl3).
  assert (Hfull : (n_alloc c <=? Z.of_nat (length (live c1))) = false).
  { apply Z.leb_gt. rewrite Hfl2.
    destruct (decide (id' ∈ id <$> live c)) as [Hin|Hout].
    - specialize (Hfl3 Hin). lia.
    - destruct Hroom as [?|?]; [lia|done]. }
  rewrite Hfull, Hfl in Hlv.
  assert (Hn' : Z.to_nat (n c') = S (length (filter (fun s => id s <> id') (live c)))).
  { rewrite <- Hlen', Hlv, length_app. simpl. lia. }
  exists c'. split_and!; try done; try congruence.
  - rewrite Hlv.
    replace (Z.to_nat (n c' - 1))
      with (length (filter (fun s => id s <> id') (live c))) by lia.
    apply CrefFacts.list_find_snoc_absent; [|done].
    rewrite <- Hfl. by apply absent_list_find.
  - lia.
  - rewrite <- Hfl, Hfl2 in Hn'.
    destruct (decide (id' ∈ id <$> live c)) as [Hin|Hout].
    + specialize (Hfl3 Hin). lia.
    + lia.
Qed.

Lemma find_present c id' :
  wf c -> err c = CERR_NONE ->
  (id' ∈ (id <$> live c) <-> exists i, cinputs_find c id' = Some (Some i)).
Proof.
  intros Hwf He. rewrite cinputs_find_spec by done. split.
  - intros Hin. destruct (list_find (has_id id') (live c)) as [[i s]|] eqn:Hf.
    + by eexists.
    + apply list_elem_of_fmap in Hin as (t & -> & Ht).
      rewrite list_find_None, Forall_forall in Hf. by destruct (Hf t Ht).
  - intros [i Hi].
    destruct (list_find (has_id id') (live c)) as [[j s]|] eqn:Hf; [|done].
    apply list_find_Some in Hf as (Hj & Hid & _). unfold has_id in Hid. subst id'.
    apply list_elem_of_fmap_2. by eapply list_elem_of_lookup_2.
Qed.

(** X3: an entry pushed where there is room for it (the table is not full,
    or the id is already there and its old entry makes room) is the last
    live entry afterwards: [find] reports the last index, and [id], [x],
    [y] and [ptr] read back the id, the coordinates converted to
    [int16_t], and the pointer.  The length grows by one exactly when the
    id was absent. *)
Theorem cinputs_push_read_back (c : cinputs) (id' x' y' p : Z) :
  reachable c -> err c = CERR_NONE ->
  (cinputs_load c < n_alloc c \/ exists i, cinputs_find c id' = Some (Some i)) ->
  exists c', cinputs_push c id' x' y' p = Some c'
    /\ err c' = CERR_NONE
    /\ cinputs_load c'
       = cinputs_load c
         + match cinputs_find c id' with Some (Some _) => 0 | _ => 1 end
    /\ cinputs_find c' id' = Some (Some (cinputs_load c' - 1))
    /\ cinputs_id c' (cinputs_load c' - 1) = Some id'
    /\ cinputs_x c' (cinputs_load c' - 1) = Some (int16_of_int x')
    /\ cinputs_y c' (cinputs_load c' - 1) = Some (int16_of_int y')
    /\ cinputs_ptr c' (cinputs_load c' - 1) = Some p
    /\ (-32768 <= x' <= 32767 -> int16_of_int x' = x')
    /\ (-32768 <= y' <= 32767 -> int16_of_int y' = y').
Proof.
  intros Hr He Hroom. pose proof (reachable_wf c Hr) as Hwf.
  destruct (cinputs_push_stored c id' x' y' p Hwf He)
    as (c' & Hp & Hwf' & He' & Ha & Hd & Hlv & Hfind & Hpos & Hn).
  { destruct Hroom as [Hroom|Hroom].
    - left. unfold cinputs_load in Hroom. by rewrite He in Hroom.
    - right. by apply find_present. }
  exists c'. unfold cinputs_load. rewrite He, He'. simpl.
  pose proof (wf_range c' Hwf') as Hr'.
  destruct (accessors_live c' (n c' - 1) Hwf' He') as (-> & -> & -> & ->); [lia|].
  apply list_find_Some in Hfind as (Hlast & _). rewrite Hlast. simpl.
  split_and!; try done.
  - rewrite Hn. f_equal.
    destruct (decide (id' ∈ id <$> live c)) as [Hin|Hout].
    + apply find_present in Hin as [i ->]; done.
    + destruct (cinputs_find c id') as [[i|]|] eqn:Hf; try done.
      destruct Hout. apply find_present; eauto.
  - rewrite cinputs_find_spec by done.
    destruct (list_find (has_id id') (live c')) as [[i s]|] eqn:Hf.
    + simpl. do 2 f_equal.
      apply list_find_Some in Hf as (Hi & Hid & Hbefore).
      destruct (decide (i < Z.to_nat (n c' - 1))%nat) as [Hlt|Hge].
      * exfalso. rewrite Hlv in Hi, Hlast.
        assert (Hlen : length (filter (fun s => id s <> id') (live c))
                       = Z.to_nat (n c' - 1)).
        { apply lookup_lt_Some in Hlast as Hl. rewrite length_app in Hl.
          simpl in Hl.
          destruct (decide (Z.to_nat (n c' - 1)
                            < length (filter (fun s => id s <> id') (live c)))%nat)
            as [Hlt'|?]; [|lia].
          rewrite lookup_app_l in Hlast by done.
          apply list_elem_of_lookup_2, list_elem_of_filter in Hlast as [Hne _].
          by destruct Hne. }
        rewrite lookup_app_l in Hi by lia.
        apply list_elem_of_lookup_2, list_elem_of_filter in Hi as [Hne _].
        by destruct Hne.
      * destruct (decide (i = Z.to_nat (n c' - 1))) as [->|Hne]; [lia|].
        exfalso. apply (Hbefore (Z.to_nat (n c' - 1)) _ Hlast); [lia|done].
    + rewrite list_find_None, Forall_forall in Hf.
      destruct (Hf _ (list_elem_of_lookup_2 _ _ _ Hlast)). done.
  - apply int16_of_int_id.
  - apply int16_of_int_id.
Qed.

Lemma cinputs_push_read_back_witness :
  exists c', cinputs_push full_table 1 70000 (-5) 300 = Some c'
    /\ err c' = CERR_NONE
    /\ cinputs_load c'
       = cinputs_load full_table
         + match cinputs_find full_table 1 with Some (Some _) => 0 | _ => 1 end
    /\ cinputs_find c' 1 = Some (Some (cinputs_load c' - 1))
    /\ cinputs_id c' (cinputs_load c' - 1) = Some 1
    /\ cinputs_x c' (cinputs_load c' - 1) = Some (int16_of_int 70000)
    /\ cinputs_y c' (cinputs_load c' - 1) = Some (int16_of_int (-5))
    /\ cinputs_ptr c' (cinputs_load c' - 1) = Some 300
    /\ (-32768 <= 70000 <= 32767 -> int16_of_int 70000 = 70000)
    /\ (-32768 <= -5 <= 32767 -> int16_of_int (-5) = -5).
Proof.
  apply cinputs_push_read_back.
  - exact full_table_reachable.
  - reflexivity.
  - right. exists 0. reflexivity.
Defined.

Lemma entry_of_live c id' :
  wf c -> err c = CERR_NONE ->
  entry_of c id'
  = Some (payload <$> (snd <$> list_find (has_id id') (live c))).
Proof.
  intros Hwf He. unfold entry_of. rewrite cinputs_find_spec by done. simpl.
  destruct (list_find (has_id id') (live c)) as [[i s]|] eqn:Hf; simpl; [|done].
  apply list_find_Some in Hf as (Hi & _).
  pose proof (live_lookup_in c i s Hwf Hi) as Hin.
  destruct (accessors_live c (Z.of_nat i) Hwf He Hin) as (_ & -> & -> & ->).
  rewrite Nat2Z.id, Hi. done.
Qed.

Lemma list_find_filter_other id' id'' (l : list slot) :
  id'' <> id' ->
  snd <$> list_find (has_id id'') (filter (fun s => id s <> id') l)
  = snd <$> list_find (has_id id'') l.
Proof.
  intros Hne. induction l as [|s l IH]; [done|].
  rewrite filter_cons. cbn [list_find]. unfold has_id at 2.
  destruct (decide (id s = id'')) as [Heq|Hne'].
  - rewrite decide_True by congruence. cbn [list_find].
    unfold has_id at 1. by rewrite decide_True by done.
  - destruct (decide (id s <> id')).
    + cbn [list_find]. unfold has_id at 1. rewrite decide_False by done.
      destruct (list_find (has_id id'') (filter _ l)) as [[i t]|],
               (list_find (has_id id'') l) as [[j u]|]; simpl in *; done.
    + rewrite IH. by destruct (list_find (has_id id'') l) as [[j u]|].
Qed.

Lemma list_find_snoc_other id'' (l : list slot) s :
  id s <> id'' ->
  list_find (has_id id'') (l ++ [s]) = list_find (has_id id'') l.
Proof.
  intros Hne. destruct (list_find (has_id id'') l) as [[i t]|] eqn:Hf.
  - by apply list_find_app_l.
  - rewrite list_find_app_r by done. cbn [list_find]. unfold has_id at 1.
    by rewrite decide_False by done.
Qed.

(** X4: the table is a map from ids to entries.  A push or a removal of
    one id leaves what a caller reads for every other id as it was,
    whether or not the push finds room; and after [cinputs_pull_id] the id
    itself is not found any more. *)
Theorem cinputs_other_ids_kept (c : cinputs) (id' x' y' p id'' : Z) :
  reachable c -> id'' <> id' ->
  exists c1 c2,
    cinputs_push c id' x' y' p = Some c1
    /\ cinputs_pull_id c id' = Some c2
    /\ entry_of c1 id'' = entry_of c id''
    /\ entry_of c2 id'' = entry_of c id''
    /\ entry_of c2 id' = Some None.
Proof.
  intros Hr Hne. pose proof (reachable_wf c Hr) as Hwf.
  destruct (failed (err c)) eqn:Hf.
  { exists c, c. unfold cinputs_push, cinputs_pull_id, entry_of, cinputs_find.
    rewrite Hf. done. }
  apply failed_false in Hf.
  destruct (cinputs_push_spec c id' x' y' p Hwf Hf)
    as (c1 & Hp & Hwf1 & _ & _ & He1 & Hlv1).
  destruct (cinputs_pull_id_spec c id' Hwf Hf)
    as (c2 & Hq & Hwf2 & Hnot & Hlv2 & _ & _ & He2 & _).
  exists c1, c2. rewrite Hf in He1, He2.
  rewrite !entry_of_live by done. cbv zeta in Hlv1. rewrite <- Hlv2 in Hlv1.
  destruct Hwf as [_ _ _ Hnd]. rewrite delete_found_filter in Hlv2 by done.
  split_and!; try done.
  - do 2 f_equal.
    destruct (n_alloc c <=? Z.of_nat (length (live c2))); rewrite Hlv1, Hlv2.
    + by apply list_find_filter_other.
    + rewrite list_find_snoc_other by (simpl; congruence).
      by apply list_find_filter_other.
  - do 2 f_equal. rewrite Hlv2. by apply list_find_filter_other.
  - by rewrite absent_list_find.
Qed.

Lemma cinputs_other_ids_kept_witness :
  exists c1 c2,
    cinputs_push full_table 1 7 8 9 = Some c1
    /\ cinputs_pull_id full_table 1 = Some c2
    /\ entry_of c1 2 = entry_of full_table 2
    /\ entry_of c2 2 = entry_of full_table 2
    /\ entry_of c2 1 = Some None.
Proof.
  apply cinputs_other_ids_kept; [exact full_table_reachable|lia].
Defined.

(** X5: removing the entry at a valid index closes the gap: the entries
    before it stay where they are and the entries after it move down by
    one index, in their order. *)
Theorem cinputs_pull_index_shifts (c : cinputs) (i : Z) :
  reachable c -> err c = CERR_NONE -> 0 <= i < cinputs_load c ->
  exists c', cinputs_pull_index c i = Some c'
    /\ err c' = CERR_NONE
    /\ cinputs_load c' = cinputs_load c - 1
    /\ forall j, 0 <= j ->
         cinputs_id c' j = cinputs_id c (if j <? i then j else j + 1)
         /\ cinputs_x c' j = cinputs_x c (if j <? i then j else j + 1)
         /\ cinputs_y c' j = cinputs_y c (if j <? i then j else j + 1)
         /\ cinputs_ptr c' j = cinputs_ptr c (if j <? i then j else j + 1).
Proof.
  intros Hr He Hi. pose proof (reachable_wf c Hr) as Hwf.
  unfold cinputs_load in *. rewrite He in *. simpl in Hi.
  destruct (cinputs_pull_index_spec c i Hwf He Hi)
    as (c' & Hp & Hwf' & Hlv & Hn & _ & Hd & He').
  exists c'. rewrite He' , He. simpl. split_and!; [done..|].
  intros j Hj. destruct (Z.lt_ge_cases j (n c')) as [Hin|Hout].
  - destruct (accessors_live c' j Hwf') as (-> & -> & -> & ->);
      [congruence|lia|].
    destruct (accessors_live c (if j <? i then j else j + 1) Hwf He)
      as (-> & -> & -> & ->); [destruct (j <? i); lia|].
    rewrite Hlv. destruct (Z.ltb_spec j i).
    + rewrite list_lookup_delete_lt by lia. done.
    + rewrite list_lookup_delete_ge by lia.
      replace (Z.to_nat (j + 1)) with (S (Z.to_nat j)) by lia. done.
  - unfold cinputs_id, cinputs_x, cinputs_y, cinputs_ptr.
    rewrite He', He, Hd. simpl.
    destruct (Z.ltb_spec j i); [lia|].
    destruct (Z.leb_spec (n c') j); [|lia].
    destruct (Z.leb_spec (n c) (j + 1)); [|lia]. done.
Qed.

Lemma cinputs_pull_index_shifts_witness :
  exists c', cinputs_pull_index full_table 0 = Some c'
    /\ err c' = CERR_NONE
    /\ cinputs_load c' = cinputs_load full_table - 1
    /\ forall j, 0 <= j ->
         cinputs_id c' j = cinputs_id full_table (if j <? 0 then j else j + 1)
         /\ cinputs_x c' j = cinputs_x full_table (if j <? 0 then j else j + 1)
         /\ cinputs_y c' j = cinputs_y full_table (if j <? 0 then j else j + 1)
         /\ cinputs_ptr c' j
            = cinputs_ptr full_table (if j <? 0 then j else j + 1).
Proof.
  apply cinputs_pull_index_shifts;
    [exact full_table_reachable|reflexivity|vm_compute; split; [discriminate|reflexivity]].
Defined.

Lemma create_ok junk m :
  1 <= m -> m * sizeof_slot <= SIZE_MAX ->
  err (cinputs_create true (Some junk) m) = CERR_NONE
  /\ n (cinputs_create true (Some junk) m) = 0
  /\ n_alloc (cinputs_create true (Some junk) m) = m
  /\ default_ptr (cinputs_create true (Some junk) m) = 0.
Proof.
  intros Hm Hs. unfold cinputs_create, resize. simpl.
  destruct (Z.eqb_spec m 0); [lia|].
  destruct (safe_mul m sizeof_slot) eqn:Hmul;
    [|apply safe_mul_None in Hmul; lia].
  done.
Qed.

Lemma push_all_fill args : forall c,
  wf c -> err c = CERR_NONE ->
  NoDup ((id <$> live c) ++ ((fun a : Z * Z * Z * Z => a.1.1.1) <$> args)) ->
  exists c', run (push_all args) c = Some c' /\ wf c' /\ err c' = CERR_NONE
    /\ n_alloc c' = n_alloc c
    /\ id <$> live c'
       = take (Z.to_nat (n_alloc c))
           ((id <$> live c) ++ ((fun a : Z * Z * Z * Z => a.1.1.1) <$> args)).
Proof.
  induction args as [|[[[i x'] y'] p] args IH]; intros c Hwf He Hnd.
  - exists c. simpl. split_and!; try done.
    rewrite app_nil_r, take_ge; [done|].
    rewrite length_fmap, live_length by done. destruct Hwf. lia.
  - unfold push_all. rewrite fmap_cons. cbn [run step fst snd]. fold (push_all args).
    rewrite fmap_cons in Hnd. cbn [fst snd] in Hnd.
    destruct (cinputs_push_spec c i x' y' p Hwf He)
      as (c1 & -> & Hwf1 & Ha1 & _ & He1 & Hlv1).
    assert (Hout : i ∉ id <$> live c).
    { apply NoDup_app in Hnd as (_ & Hdis & _). intros Hin.
      apply (Hdis i Hin). apply list_elem_of_here. }
    rewrite (absent_list_find _ _ Hout) in Hlv1. cbv zeta in Hlv1.
    simpl. rewrite He in He1.
    pose proof (live_length c Hwf) as Hlen. pose proof (wf_range c Hwf) as Hrg.
    destruct (Z.leb_spec (n_alloc c) (Z.of_nat (length (live c)))) as [Hfull|Hroom].
    + destruct (IH c1 Hwf1 He1) as (c' & Hrun & Hwf' & He' & Ha' & Hlv').
      { rewrite Hlv1. apply NoDup_app in Hnd as (H1 & H2 & H3).
        apply NoDup_app. split_and!; [done| |by apply NoDup_cons in H3 as [_ ?]].
        intros z Hz Hz'. apply (H2 z Hz). by apply list_elem_of_further. }
      exists c'. split_and!; try done; [congruence|].
      rewrite Hlv', Ha1, Hlv1.
      rewrite !take_app_le by (rewrite length_fmap; lia). done.
    + destruct (IH c1 Hwf1 He1) as (c' & Hrun & Hwf' & He' & Ha' & Hlv').
      { rewrite Hlv1, fmap_app. simpl. by rewrite <- app_assoc. }
      exists c'. split_and!; try done; [congruence|].
      rewrite Hlv', Ha1, Hlv1, fmap_app. simpl. by rewrite <- app_assoc.
Qed.

Lemma find_by_ids c (k : nat) id' :
  wf c -> err c = CERR_NONE ->
  (id <$> live c) !! k = Some id' ->
  cinputs_find c id' = Some (Some (Z.of_nat k)).
Proof.
  intros Hwf He Hk. rewrite cinputs_find_spec by done.
  destruct (list_find (has_id id') (live c)) as [[j s]|] eqn:Hf.
  - simpl. do 3 f_equal.
    apply list_find_Some in Hf as (Hj & Hid & _). unfold has_id in Hid.
    destruct Hwf as [_ _ _ Hnd]. eapply NoDup_lookup; [exact Hnd| |exact Hk].
    rewrite list_lookup_fmap, Hj. simpl. by rewrite Hid.
  - rewrite list_find_None, Forall_forall in Hf.
    rewrite list_lookup_fmap in Hk.
    destruct (live c !! k) as [s|] eqn:Hs; [|done]. simpl in Hk.
    destruct (Hf s (list_elem_of_lookup_2 _ _ _ Hs)). unfold has_id. congruence.
Qed.

(** X6: first come, first served.  Pushing entries with pairwise distinct
    ids into a new table of capacity [m] keeps the first [m] of them, each
    at the index of its arrival; the later ones are dropped and not found. *)
Theorem cinputs_first_come (junk : nat -> slot) (m : Z)
    (args : list (Z * Z * Z * Z)) :
  1 <= m -> m * sizeof_slot <= SIZE_MAX ->
  NoDup ((fun a : Z * Z * Z * Z => a.1.1.1) <$> args) ->
  exists c', run (push_all args) (cinputs_create true (Some junk) m) = Some c'
    /\ err c' = CERR_NONE
    /\ cinputs_load c' = Z.min m (Z.of_nat (length args))
    /\ forall (k : nat) a, args !! k = Some a ->
         cinputs_find c' a.1.1.1
         = Some (if Z.of_nat k <? m then Some (Z.of_nat k) else None).
Proof.
  intros Hm Hs Hnd.
  destruct (create_ok junk m Hm Hs) as (He & Hn & Ha & _).
  assert (Hwf : wf (cinputs_create true (Some junk) m)).
  { apply wf_create. unfold sizeof_slot, SIZE_MAX in *. lia. }
  assert (Hlive : live (cinputs_create true (Some junk) m) = []).
  { unfold live. by rewrite Hn. }
  destruct (push_all_fill args _ Hwf He) as (c' & Hrun & Hwf' & He' & Ha' & Hlv').
  { by rewrite Hlive. }
  rewrite Hlive, Ha in Hlv'. simpl in Hlv'.
  exists c'. split_and!; try done.
  - unfold cinputs_load. rewrite He'. simpl.
    pose proof (live_length c' Hwf') as Hlen. destruct Hwf' as [Hn' _ _ _].
    apply (f_equal length) in Hlv'.
    rewrite length_fmap, length_take, length_fmap in Hlv'. lia.
  - intros k a Hk. destruct (Z.ltb_spec (Z.of_nat k) m).
    + apply find_by_ids; try done.
      rewrite Hlv', lookup_take_lt by lia. by rewrite list_lookup_fmap, Hk.
    + rewrite cinputs_find_spec by done.
      rewrite absent_list_find; [done|].
      rewrite Hlv'. intros Hin.
      apply list_elem_of_lookup in Hin as [j Hj].
      apply lookup_take_Some in Hj as [Hj Hlt].
      assert (j = k); [|lia].
      eapply NoDup_lookup; [exact Hnd|exact Hj|].
      by rewrite list_lookup_fmap, Hk.
Qed.

Lemma cinputs_first_come_witness :
  exists c',
    run (push_all [(5, 1, 1, 10); (6, 2, 2, 20); (7, 3, 3, 30)])
      (cinputs_create true (Some (fun _ => Slot 0 0 0 0)) 2) = Some c'
    /\ err c' = CERR_NONE
    /\ cinputs_load c' = Z.min 2 (Z.of_nat 3)
    /\ forall (k : nat) a,
         [(5, 1, 1, 10); (6, 2, 2, 20); (7, 3, 3, 30)] !! k = Some a ->
         cinputs_find c' a.1.1.1
         = Some (if Z.of_nat k <? 2 then Some (Z.of_nat k) else None).
Proof.
  apply (cinputs_first_come (fun _ => Slot 0 0 0 0) 2
           [(5, 1, 1, 10); (6, 2, 2, 20); (7, 3, 3, 30)]).
  - lia.
  - vm_compute. discriminate.
  - apply (bool_decide_unpack _). vm_compute. exact I.
Defined.

(** What static [resize] answers, case by case. *)
Lemma resize_cases o c m :
  0 <= m ->
  resize o c m
  = if m =? 0 then (set_err CERR_PARAM c, false)
    else if SIZE_MAX <? m * sizeof_slot then (set_err CERR_OVERFLOW c, false)
    else match o with
         | None => (set_err CERR_MEMORY c, false)
         | Some _ => ((resize o c m).1, true)
         end.
Proof.
  intros Hm. unfold resize. destruct (m =? 0); [done|].
  destruct (Z.ltb_spec SIZE_MAX (m * sizeof_slot)) as [Hov|Hfit].
  - apply safe_mul_None in Hov. by rewrite Hov.
  - destruct (safe_mul m sizeof_slot) eqn:Hmul;
      [|apply safe_mul_None in Hmul; lia].
    by destruct o.
Qed.

(** No call turns an instance into an invalid one or takes its storage
    away. *)
Lemma step_alive o c c' r :
  wf c -> typed o -> step o c = Some (c', r) ->
  1 <= n_alloc c -> err c <> CERR_INVALID ->
  1 <= n_alloc c' /\ err c' <> CERR_INVALID.
Proof.
  intros Hwf Ht Hs Ha Hinv.
  destruct (failed (err c)) eqn:Hf.
  { destruct (error_control o) eqn:Hc.
    - destruct o; try discriminate Hc; simpl in Hs; injection Hs as <- _; [done|].
      unfold cinputs_repair. destruct (cerr_eqb (err c) CERR_INVALID); done.
    - rewrite SharedClaims.cinputs_step_failed in Hs by done.
      by injection Hs as <- _. }
  apply failed_false in Hf.
  destruct o; simpl in Hs.
  - injection Hs as <- _. unfold cinputs_clear. rewrite Hf. done.
  - destruct (cinputs_clone calloc_ok o c); [|done]. by injection Hs as <- _.
  - by injection Hs as <- _.
  - destruct (cinputs_find c id'); [|done]. by injection Hs as <- _.
  - destruct (cinputs_id c index); [|done]. by injection Hs as <- _.
  - by injection Hs as <- _.
  - destruct (cinputs_ptr c index); [|done]. by injection Hs as <- _.
  - destruct (cinputs_pull_id_spec c id' Hwf Hf)
      as (c1 & Hp & _ & _ & _ & Ha1 & _ & He1 & _).
    rewrite Hp in Hs. injection Hs as <- _. split; congruence.
  - simpl in Ht. destruct (Z.le_gt_cases (n c) index).
    + rewrite cinputs_pull_index_out in Hs by auto. by injection Hs as <- _.
    + destruct (cinputs_pull_index_spec c index)
        as (c1 & Hp & _ & _ & _ & Ha1 & _ & He1); [done|done|lia|].
      rewrite Hp in Hs. injection Hs as <- _. split; congruence.
  - destruct (cinputs_push_spec c id' x' y' ptr' Hwf Hf)
      as (c1 & Hp & _ & Ha1 & _ & He1 & _).
    rewrite Hp in Hs. injection Hs as <- _. split; congruence.
  - injection Hs as <- _. unfold cinputs_repair. rewrite Hf. done.
  - injection Hs as <- _. unfold cinputs_resize. rewrite Hf. simpl in *.
    destruct (resize_spec o c max_inputs Hwf) as (_ & _ & Hok); [lia|].
    rewrite resize_cases in * by lia.
    destruct (max_inputs =? 0); [done|].
    destruct (SIZE_MAX <? max_inputs * sizeof_slot); [done|].
    destruct o; [|done]. simpl in *.
    destruct Hok as (-> & ? & -> & _); [done|]. split; [lia|congruence].
  - injection Hs as <- _. unfold cinputs_set_default_ptr. rewrite Hf. done.
  - destruct (cinputs_x c index); [|done]. by injection Hs as <- _.
  - destruct (cinputs_y c index); [|done]. by injection Hs as <- _.
Qed.

Lemma clone_cases ok o c :
  wf c ->
  exists c', cinputs_clone ok o c = Some c'
    /\ (c' = cinputs_placeholder_instance
        \/ (err c = CERR_NONE /\ err c' = CERR_NONE /\ 1 <= n_alloc c'
            /\ wf c' /\ live c' = live c /\ n c' = n c
            /\ n_alloc c' = n_alloc c /\ default_ptr c' = default_ptr c))
    /\ (err c = CERR_NONE -> ok = true -> is_Some o -> 1 <= n_alloc c ->
        err c' = CERR_NONE).
Proof.
  intros Hwf. pose proof (wf_range c Hwf) as Hr.
  pose proof Hwf as [Hn Hlen Hsz Hids].
  destruct (cinputs_clone_spec ok o c Hwf) as (c' & Hc & Hwf' & Hsame).
  exists c'. split; [done|]. unfold cinputs_clone in Hc.
  destruct (failed (err c)) eqn:Hf; simpl in Hc.
  { injection Hc as <-. split; [by left|]. intros He. by rewrite He in Hf. }
  apply failed_false in Hf.
  destruct ok; simpl in Hc; [|injection Hc as <-; split; [by left|done]].
  assert (Hcal : wf calloc_instance).
  { constructor; simpl; try done. unfold live. simpl. constructor. }
  destruct (resize_spec o calloc_instance (n_alloc c) Hcal) as (_ & _ & Hok); [lia|].
  rewrite resize_cases in Hc, Hok by lia.
  destruct (Z.eqb_spec (n_alloc c) 0);
    [injection Hc as <-; split; [by left|lia]|].
  destruct (Z.ltb_spec SIZE_MAX (n_alloc c * sizeof_slot)); [lia|].
  destruct o as [junk|]; [|injection Hc as <-; split; [by left|]].
  2:{ intros _ _ Hsome. by apply is_Some_None in Hsome. }
  simpl in Hc, Hok. destruct Hok as (Ha1 & Hpos & _); [done|].
  destruct (region (slots c) (n c)) as [src|]; [|done]. simpl in Hc.
  destruct (memcpy_at _ 0 src) as [tmp|]; [|done]. simpl in Hc.
  injection Hc as <-. simpl in *.
  destruct (Hsame eq_refl) as (Hl & Ha & Hd).
  split; [|done]. right. split_and!; try done; try lia.
Qed.

(** Everything a program can hold is either the placeholder, or a valid
    instance with storage for at least one entry. *)
Lemma reachable_cases c :
  reachable c ->
  c = cinputs_placeholder_instance
  \/ (1 <= n_alloc c /\ err c <> CERR_INVALID).
Proof.
  induction 1 as [ok o m Hm|c ok o c' Hr IH Hc|c o c' r Hr IH Ht Hs].
  - unfold cinputs_create. destruct ok; [|by left]. simpl.
    assert (Hcal : wf calloc_instance).
    { constructor; simpl; try done. unfold live. simpl. constructor. }
    destruct (resize_spec o calloc_instance m Hcal) as (_ & _ & Hok); [lia|].
    destruct (resize o calloc_instance m) as [c1 [|]]; [|by left].
    destruct Hok as (Ha & Hpos & _); [done|]. right. simpl in *. split; [lia|done].
  - destruct (clone_cases ok o c (reachable_wf c Hr)) as (c'' & Hc' & Hcase & _).
    rewrite Hc in Hc'. injection Hc' as <-.
    destruct Hcase as [->|(_ & He & Ha & _)]; [by left|right].
    split; [done|congruence].
  - destruct IH as [->|[Ha He]].
    + left. destruct (error_control o) eqn:Hc.
      * destruct o; try discriminate Hc; simpl in Hs; by injection Hs as <- _.
      * rewrite SharedClaims.cinputs_step_failed in Hs by done.
        by injection Hs as <- _.
    + right. eapply step_alive; eauto using reachable_wf.
Qed.

(** Two error-free tables with the same live entries and default pointer
    answer every read alike. *)
Lemma same_reads c c' :
  wf c -> wf c' -> err c = CERR_NONE -> err c' = CERR_NONE ->
  live c' = live c -> default_ptr c' = default_ptr c ->
  cinputs_load c' = cinputs_load c
  /\ (forall j, 0 <= j ->
        cinputs_id c' j = cinputs_id c j
        /\ cinputs_x c' j = cinputs_x c j
        /\ cinputs_y c' j = cinputs_y c j
        /\ cinputs_ptr c' j = cinputs_ptr c j)
  /\ (forall id', cinputs_find c' id' = cinputs_find c id').
Proof.
  intros Hwf Hwf' He He' Hlv Hd.
  pose proof (live_length c Hwf) as Hl. pose proof (live_length c' Hwf') as Hl'.
  pose proof (wf_range c Hwf) as Hr. pose proof (wf_range c' Hwf') as Hr'.
  assert (Hn : n c' = n c) by (rewrite Hlv in Hl'; lia).
  split_and!.
  - unfold cinputs_load. by rewrite He, He'.
  - intros j Hj. destruct (Z.lt_ge_cases j (n c)).
    + destruct (accessors_live c j Hwf He) as (-> & -> & -> & ->); [lia|].
      destruct (accessors_live c' j Hwf' He') as (-> & -> & -> & ->); [lia|].
      by rewrite Hlv.
    + unfold cinputs_id, cinputs_x, cinputs_y, cinputs_ptr.
      rewrite He, He', Hd, Hn. simpl.
      destruct (Z.leb_spec (n c) j); [done|lia].
  - intros id'. rewrite !cinputs_find_spec by done. by rewrite Hlv.
Qed.

(** X7: a clone of an error-free table made with successful allocations is
    an error-free table of the same capacity that answers every read as
    the original does; in every other case (the original has an error set,
    or an allocation fails) the result is the placeholder. *)
Theorem cinputs_clone_same (c : cinputs) (ok : bool) (o : alloc slot) :
  reachable c ->
  exists c', cinputs_clone ok o c = Some c'
    /\ (err c = CERR_NONE -> ok = true -> is_Some o ->
        err c' = CERR_NONE
        /\ n_alloc c' = n_alloc c
        /\ cinputs_load c' = cinputs_load c
        /\ (forall j, 0 <= j ->
              cinputs_id c' j = cinputs_id c j
              /\ cinputs_x c' j = cinputs_x c j
              /\ cinputs_y c' j = cinputs_y c j
              /\ cinputs_ptr c' j = cinputs_ptr c j)
        /\ (forall id', cinputs_find c' id' = cinputs_find c id'))
    /\ (err c <> CERR_NONE \/ ok = false \/ o = None ->
        c' = cinputs_placeholder_instance).
Proof.
  intros Hr. pose proof (reachable_wf c Hr) as Hwf.
  destruct (clone_cases ok o c Hwf) as (c' & Hc & Hcase & Hok).
  exists c'. split_and!; [done| |].
  - intros He -> Ho.
    destruct (reachable_cases c Hr) as [->|[Ha _]]; [done|].
    specialize (Hok He eq_refl Ho Ha).
    destruct Hcase as [->|(_ & He' & _ & Hwf' & Hlv & _ & Ha' & Hd)]; [done|].
    split_and!; [done|done|..]; by apply same_reads.
  - intros Hbad. destruct Hcase as [->|(He & _)]; [done|].
    unfold cinputs_clone in Hc. rewrite He in Hc. simpl in Hc.
    destruct Hbad as [Hbad|[->| ->]]; [done|by injection Hc as <-|].
    destruct ok; [|by injection Hc as <-]. simpl in Hc.
    pose proof (wf_range c Hwf) as Hrg.
    rewrite resize_cases in Hc by lia.
    destruct (n_alloc c =? 0); [by injection Hc as <-|].
    destruct (SIZE_MAX <? n_alloc c * sizeof_slot); by injection Hc as <-.
Qed.

Lemma cinputs_clone_same_witness :
  exists c', cinputs_clone true zero_slots full_table = Some c'
    /\ (err full_table = CERR_NONE -> true = true -> is_Some zero_slots ->
        err c' = CERR_NONE
        /\ n_alloc c' = n_alloc full_table
        /\ cinputs_load c' = cinputs_load full_table
        /\ (forall j, 0 <= j ->
              cinputs_id c' j = cinputs_id full_table j
              /\ cinputs_x c' j = cinputs_x full_table j
              /\ cinputs_y c' j = cinputs_y full_table j
              /\ cinputs_ptr c' j = cinputs_ptr full_table j)
        /\ (forall id', cinputs_find c' id' = cinputs_find full_table id'))
    /\ (err full_table <> CERR_NONE \/ true = false \/ zero_slots = None ->
        c' = cinputs_placeholder_instance).
Proof. apply cinputs_clone_same. exact full_table_reachable. Defined.

(** X8: [cinputs_resize] on an error-free table.  A capacity of 0 is
    refused with the error PARAM, and a failed allocation gives the error
    MEMORY; both leave the table as it was.  Otherwise the capacity becomes
    [m], the length becomes the smaller of the old length and [m], and the
    entries below the new length are read as before: growing keeps them
    all, shrinking cuts the tail. *)
Theorem cinputs_resize_cases (c : cinputs) (o : alloc slot) (m : Z) :
  reachable c -> err c = CERR_NONE -> 0 <= m <= SIZE_MAX ->
  (m = 0 -> cinputs_resize o c m = set_err CERR_PARAM c)
  /\ (0 < m -> m * sizeof_slot <= SIZE_MAX -> o = None ->
      cinputs_resize o c m = set_err CERR_MEMORY c)
  /\ (0 < m -> m * sizeof_slot <= SIZE_MAX -> is_Some o ->
      err (cinputs_resize o c m) = CERR_NONE
      /\ n_alloc (cinputs_resize o c m) = m
      /\ default_ptr (cinputs_resize o c m) = default_ptr c
      /\ cinputs_load (cinputs_resize o c m) = Z.min (cinputs_load c) m
      /\ (forall j, 0 <= j < Z.min (cinputs_load c) m ->
            cinputs_id (cinputs_resize o c m) j = cinputs_id c j
            /\ cinputs_x (cinputs_resize o c m) j = cinputs_x c j
            /\ cinputs_y (cinputs_resize o c m) j = cinputs_y c j
            /\ cinputs_ptr (cinputs_resize o c m) j = cinputs_ptr c j)).
Proof.
  intros Hr He Hm. pose proof (reachable_wf c Hr) as Hwf.
  unfold cinputs_resize. rewrite He. simpl.
  destruct (resize_spec o c m Hwf) as (Hwf' & Hlv & Hok); [lia|].
  rewrite resize_cases in * by lia. split_and!.
  - intros ->. done.
  - intros Hpos Hfit ->. destruct (Z.eqb_spec m 0); [lia|].
    destruct (Z.ltb_spec SIZE_MAX (m * sizeof_slot)); [lia|done].
  - intros Hpos Hfit [junk ->]. destruct (Z.eqb_spec m 0); [lia|].
    destruct (Z.ltb_spec SIZE_MAX (m * sizeof_slot)); [lia|].
    simpl in *. destruct Hok as (Ha & _ & He' & Hd); [done|].
    rewrite He in He'.
    set (c' := (resize (Some junk) c m).1) in *.
    pose proof (live_length c Hwf) as Hl. pose proof (live_length c' Hwf') as Hl'.
    pose proof (wf_range c Hwf) as Hrg. pose proof (wf_range c' Hwf') as Hrg'.
    assert (Hn : n c' = Z.min (n c) m).
    { rewrite Hlv, length_take in Hl'. lia. }
    unfold cinputs_load. rewrite He, He'. simpl.
    split_and!; try done.
    intros j Hj.
    destruct (accessors_live c j Hwf He) as (-> & -> & -> & ->); [lia|].
    destruct (accessors_live c' j Hwf' He') as (-> & -> & -> & ->); [lia|].
    rewrite Hlv, lookup_take_lt by lia. done.
Qed.

Lemma cinputs_resize_cases_witness :
  err (cinputs_resize zero_slots full_table 1) = CERR_NONE
  /\ n_alloc (cinputs_resize zero_slots full_table 1) = 1
  /\ default_ptr (cinputs_resize zero_slots full_table 1) = default_ptr full_table
  /\ cinputs_load (cinputs_resize zero_slots full_table 1)
     = Z.min (cinputs_load full_table) 1
  /\ (forall j, 0 <= j < Z.min (cinputs_load full_table) 1 ->
        cinputs_id (cinputs_resize zero_slots full_table 1) j
        = cinputs_id full_table j
        /\ cinputs_x (cinputs_resize zero_slots full_table 1) j
           = cinputs_x full_table j
        /\ cinputs_y (cinputs_resize zero_slots full_table 1) j
           = cinputs_y full_table j
        /\ cinputs_ptr (cinputs_resize zero_slots full_table 1) j
           = cinputs_ptr full_table j).
Proof.
  destruct (cinputs_resize_cases full_table zero_slots 1) as (_ & _ & H).
  - exact full_table_reachable.
  - reflexivity.
  - unfold SIZE_MAX. lia.
  - apply H; [lia|vm_compute; discriminate|by eexists].
Defined.

End CinputsProps.

(** * Further properties of the reference registry *)

Module CrefProps.
Import Cref CrefFacts.

(** What [cref_find] reports for a pointer, and where. *)
Lemma find_count r p :
  wf r -> fst <$> cref_find r p = Some (if failed (err r) then 0 else count r p).
Proof.
  intros Hwf. destruct (failed (err r)) eqn:Hf.
  - unfold cref_find. by rewrite Hf.
  - apply failed_false in Hf.
    destruct (cref_find_count r p Hwf Hf) as [oi ->]. done.
Qed.

(** [cref_push] on the live entries: a present pointer gets one more
    reference in place, a new pointer is appended with one reference. *)
Lemma cref_push_live o r p :
  wf r -> err r = CERR_NONE ->
  exists r', cref_push o r p = Some r'
    /\ wf r'
    /\ default_ptr r' = default_ptr r
    /\ (err r' = CERR_NONE ->
        live r' = match list_find (has_ptr p) (live r) with
                  | Some (j, s) => <[j := Slot (ptr s) (n_ref s + 1)]> (live r)
                  | None => live r ++ [Slot p 1]
                  end)
    /\ (err r' <> CERR_NONE ->
        r' = set_err CERR_OVERFLOW r \/ r' = set_err CERR_MEMORY r)
    /\ (count r p = UINT_MAX -> r' = set_err CERR_OVERFLOW r)
    /\ (0 < count r p < UINT_MAX \/ (count r p = 0 /\ n r < n_alloc r) ->
        err r' = CERR_NONE /\ n_alloc r' = n_alloc r).
Proof.
  intros Hwf He. pose proof (ref_range r Hwf) as Hr.
  pose proof (ref_live_length r Hwf) as Hll.
  pose proof Hwf as [Hn Hlen Hsz Hal Hp Hrf].
  unfold cref_push. rewrite He. simpl. rewrite cref_find_spec by done. simpl.
  unfold count.
  destruct (list_find (has_ptr p) (live r)) as [[j s]|] eqn:Hf; simpl.
  - (* the pointer is present *)
    pose proof Hf as (Hj & Hs & _)%list_find_Some.
    pose proof (lookup_lt_Some _ _ _ Hj) as Hlt.
    pose proof (ref_live_lookup r _ s Hj) as [Hs' _].
    assert (Hrs : 1 <= n_ref s <= UINT_MAX).
    { rewrite Forall_forall in Hrf. apply Hrf. by eapply list_elem_of_lookup_2. }
    destruct (Z.ltb_spec 0 (n_ref s)); [|lia].
    rewrite load_in, Nat2Z.id, Hs' by lia. simpl.
    destruct (Z.eqb_spec (n_ref s) UINT_MAX).
    { eexists; split; [done|].
      split_and!; [by apply ref_wf_set_err|done|done|auto|done|].
      intros [?|[? _]]; lia. }
    rewrite store_in, Nat2Z.id by lia. simpl. rewrite uint_wrap_id by lia.
    set (s1 := {| ptr := ptr s; n_ref := n_ref s + 1 |}).
    set (r1 := set_slots (<[j := s1]> (slots r)) r).
    assert (Hlv1 : live r1 = <[j := s1]> (live r)).
    { unfold live, r1. simpl. rewrite take_insert_lt by lia. done. }
    exists r1. split_and!; [done| |done|done|done|done|done].
    constructor; try done.
    * unfold r1. simpl. rewrite length_insert. done.
    * rewrite Hlv1, list_fmap_insert. simpl.
      rewrite list_insert_id; [done|]. by rewrite list_lookup_fmap, Hj.
    * rewrite Hlv1. apply Forall_insert; [done|]. simpl. lia.
  - (* the pointer is new *)
    destruct (Z.ltb_spec 0 0); [lia|].
    assert (Hg : exists g : cref * bool,
      (if n_alloc r <=? n r
       then match safe_mul (n_alloc r) 2 with
            | Some _ => grow o r (size_wrap (n_alloc r * 2))
            | None => (set_err CERR_OVERFLOW r, false)
            end
       else (r, true)) = g
      /\ wf g.1 /\ live g.1 = live r /\ n g.1 = n r
      /\ default_ptr g.1 = default_ptr r
      /\ (n r < n_alloc r -> g = (r, true))
      /\ (if g.2 then err g.1 = CERR_NONE /\ n r < n_alloc g.1
          else g.1 = set_err CERR_OVERFLOW r \/ g.1 = set_err CERR_MEMORY r)).
    { destruct (Z.leb_spec (n_alloc r) (n r)).
      - destruct (safe_mul (n_alloc r) 2) as [d|] eqn:Hmul.
        + apply safe_mul_Some in Hmul as [_ Hmul].
          rewrite size_wrap_id by lia.
          destruct (grow_wf o r (n_alloc r * 2) Hwf He) as (H1 & H2 & H3 & H4 & H5);
            [lia|].
          eexists; split; [done|]. split_and!; [done..|intros; lia|].
          destruct (grow o r (n_alloc r * 2)).2; [|done].
          destruct H5 as [? ?]. split; [done|].
          destruct Hal as [?|?]; [lia|congruence].
        + eexists; split; [done|]. simpl.
          split_and!; auto using ref_wf_set_err. lia.
      - eexists; split; [done|]. simpl. split_and!; auto. }
    destruct Hg as ([g [|]] & -> & Hwg & Hlg & Hng & Hdg & Hroom & Hg); simpl in *.
    2:{ exists g. split_and!; [done|done|done| |by intros _| |].
        - intros Hne. destruct Hg as [->| ->]; simpl in Hne; congruence.
        - unfold UINT_MAX. lia.
        - intros [?|[_ Hlt]]; [lia|]. by specialize (Hroom Hlt). }
    destruct Hg as [Heg Hcap].
    pose proof (ref_range g Hwg) as Hrg. pose proof Hwg as [Hn' Hlen' Hsz' Hal' Hp' Hrf'].
    rewrite store_in by lia. simpl. rewrite size_wrap_id by lia.
    set (s1 := {| ptr := p; n_ref := 1 |}).
    eexists; split; [reflexivity|].
    assert (Hlv : live (set_n (n g + 1) (set_slots (<[Z.to_nat (n g) := s1]> (slots g)) g))
                  = live r ++ [s1]).
    { rewrite <- Hlg. unfold live. simpl.
      replace (Z.to_nat (n g + 1)) with (S (Z.to_nat (n g))) by lia.
      erewrite take_S_r; [|apply list_lookup_insert_eq; lia].
      by rewrite take_insert_ge by lia. }
    split_and!.
    + constructor; [simpl; lia|simpl; rewrite length_insert; lia|done| | |].
      * simpl. destruct Hal' as [?|?]; [by left|congruence].
      * rewrite Hlv, fmap_app. apply NoDup_app.
        split_and!; [done| |apply NoDup_singleton].
        simpl. intros z Hz ->%list_elem_of_singleton.
        apply list_find_None in Hf. rewrite Forall_forall in Hf.
        apply list_elem_of_fmap in Hz as (t & Ht & Hin). by apply (Hf t).
      * rewrite Hlv. apply Forall_app. split; [done|].
        apply Forall_singleton. simpl. unfold UINT_MAX. lia.
    + done.
    + done.
    + simpl. congruence.
    + unfold UINT_MAX. lia.
    + intros [?|[_ Hlt]]; [lia|]. specialize (Hroom Hlt).
      injection Hroom as ->. done.
Qed.

Lemma count_count_in r p : count r p = count_in p (live r).
Proof. reflexivity. Qed.






(** [cref_pull_ptr] and [cref_purge_ptr] on the live entries. *)
Lemma cref_pull_ptr_live r p :
  wf r -> err r = CERR_NONE ->
  exists r', cref_pull_ptr r p = Some r' /\ wf r' /\ err r' = CERR_NONE
    /\ live r' = match list_find (has_ptr p) (live r) with
                 | Some (j, s) =>
                     if 1 <? n_ref s
                     then <[j := Slot (ptr s) (n_ref s - 1)]> (live r)
                     else delete j (live r)
                 | None => live r
                 end.
Proof.
  intros Hwf He. pose proof (ref_range r Hwf) as Hr.
  unfold cref_pull_ptr. rewrite cref_find_spec by done. simpl.
  destruct (list_find (has_ptr p) (live r)) as [[j s]|] eqn:Hf; simpl.
  2:{ by exists r. }
  pose proof Hf as (Hj & Hs & _)%list_find_Some.
  pose proof (lookup_lt_Some _ _ _ Hj) as Hlt.
  rewrite ref_live_length in Hlt by done.
  assert (Hrs : 1 <= n_ref s <= UINT_MAX).
  { pose proof (wf_refs r Hwf) as Hrf. rewrite Forall_forall in Hrf.
    apply Hrf. by eapply list_elem_of_lookup_2. }
  destruct (Z.ltb_spec 0 (n_ref s)); [|lia].
  destruct (cref_pull_index_spec r (Z.of_nat j) s) as (r' & -> & Hwf' & He' & Hlv);
    [done|done|lia|by rewrite Nat2Z.id|].
  rewrite Nat2Z.id in Hlv. by exists r'.
Qed.

Lemma cref_purge_ptr_live r p :
  wf r -> err r = CERR_NONE ->
  exists r', cref_purge_ptr r p = Some r' /\ wf r' /\ err r' = CERR_NONE
    /\ live r' = match list_find (has_ptr p) (live r) with
                 | Some (j, s) => delete j (live r)
                 | None => live r
                 end.
Proof.
  intros Hwf He. pose proof (ref_range r Hwf) as Hr.
  unfold cref_purge_ptr. rewrite cref_find_spec by done. simpl.
  destruct (list_find (has_ptr p) (live r)) as [[j s]|] eqn:Hf; simpl.
  2:{ by exists r. }
  pose proof Hf as (Hj & Hs & _)%list_find_Some.
  pose proof (lookup_lt_Some _ _ _ Hj) as Hlt.
  rewrite ref_live_length in Hlt by done.
  assert (Hrs : 1 <= n_ref s <= UINT_MAX).
  { pose proof (wf_refs r Hwf) as Hrf. rewrite Forall_forall in Hrf.
    apply Hrf. by eapply list_elem_of_lookup_2. }
  destruct (Z.ltb_spec 0 (n_ref s)); [|lia].
  destruct (cref_purge_index_spec r (Z.of_nat j)) as (r' & -> & Hwf' & Hlv & He');
    [done|done|lia|].
  rewrite Nat2Z.id in Hlv. by exists r'.
Qed.



Lemma count_in_found p (l : list slot) j s :
  list_find (has_ptr p) l = Some (j, s) -> count_in p l = n_ref s.
Proof. intros Hf. unfold count_in. by rewrite Hf. Qed.

Lemma count_in_absent p (l : list slot) :
  list_find (has_ptr p) l = None -> count_in p l = 0.
Proof. intros Hf. unfold count_in. by rewrite Hf. Qed.

(** X10: the length of the registry is the number of distinct pointers it
    holds.  A push adds an entry exactly when the pointer had no reference;
    a release removes the entry exactly when it was the last reference; a
    purge removes it whenever there was one; and [cref_clear] empties the
    registry, so that no pointer has a reference left. *)
Theorem cref_length_distinct (r : cref) (o : alloc slot) (p k : Z) :
  reachable r -> err r = CERR_NONE -> fst <$> cref_find r p = Some k ->
  exists r1 r2 r3,
    cref_push o r p = Some r1
    /\ cref_pull_ptr r p = Some r2
    /\ cref_purge_ptr r p = Some r3
    /\ (err r1 = CERR_NONE ->
        cref_length r1 = cref_length r + (if k =? 0 then 1 else 0))
    /\ cref_length r2 = cref_length r - (if k =? 1 then 1 else 0)
    /\ cref_length r3 = cref_length r - (if 0 <? k then 1 else 0)
    /\ cref_length (cref_clear r) = 0
    /\ (forall q, fst <$> cref_find (cref_clear r) q = Some 0).
Proof.
  intros Hr He Hk. pose proof (ref_reachable_wf r Hr) as Hwf.
  rewrite find_count, He in Hk by done. simpl in Hk. injection Hk as Hk.
  rewrite count_count_in in Hk.
  destruct (cref_push_live o r p Hwf He)
    as (r1 & Hp1 & Hwf1 & _ & Hlv1 & _).
  destruct (cref_pull_ptr_live r p Hwf He) as (r2 & Hp2 & Hwf2 & He2 & Hlv2).
  destruct (cref_purge_ptr_live r p Hwf He) as (r3 & Hp3 & Hwf3 & He3 & Hlv3).
  pose proof (ref_live_length r Hwf) as Hl.
  pose proof (ref_live_length r1 Hwf1) as Hl1.
  pose proof (ref_live_length r2 Hwf2) as Hl2.
  pose proof (ref_live_length r3 Hwf3) as Hl3.
  pose proof (ref_range r Hwf) as Hg. pose proof (ref_range r1 Hwf1) as Hg1.
  pose proof (ref_range r2 Hwf2) as Hg2. pose proof (ref_range r3 Hwf3) as Hg3.
  exists r1, r2, r3. unfold cref_length. rewrite He, He2, He3. simpl.
  assert (Hcase : match list_find (has_ptr p) (live r) with
                  | Some (j, s) => k = n_ref s /\ 1 <= k /\ (j < length (live r))%nat
                  | None => k = 0
                  end).
  { destruct (list_find (has_ptr p) (live r)) as [[j s]|] eqn:Hf.
    - rewrite (count_in_found _ _ _ _ Hf) in Hk.
      apply list_find_Some in Hf as (Hj & _).
      pose proof (wf_refs r Hwf) as Hrf. rewrite Forall_forall in Hrf.
      specialize (Hrf s (list_elem_of_lookup_2 _ _ _ Hj)).
      apply lookup_lt_Some in Hj. split_and!; [done|lia|done].
    - by rewrite (count_in_absent _ _ Hf) in Hk. }
  clear Hk. split_and!; [done..| | | | |].
  - intros He1. rewrite He1. simpl. rewrite (Hlv1 He1) in Hl1.
    destruct (list_find (has_ptr p) (live r)) as [[j s]|].
    + destruct Hcase as (_ & ? & _). rewrite length_insert in Hl1.
      destruct (Z.eqb_spec k 0); lia.
    + rewrite length_app in Hl1. cbn [length] in Hl1. subst k. simpl. lia.
  - rewrite Hlv2 in Hl2.
    destruct (list_find (has_ptr p) (live r)) as [[j s]|].
    + destruct Hcase as (-> & ? & ?). destruct (Z.ltb_spec 1 (n_ref s)).
      * rewrite length_insert in Hl2. destruct (Z.eqb_spec (n_ref s) 1); lia.
      * rewrite length_delete in Hl2 by (apply lookup_lt_is_Some; lia).
        destruct (Z.eqb_spec (n_ref s) 1); lia.
    + subst k. simpl. lia.
  - rewrite Hlv3 in Hl3.
    destruct (list_find (has_ptr p) (live r)) as [[j s]|].
    + destruct Hcase as (-> & ? & ?).
      rewrite length_delete in Hl3 by (apply lookup_lt_is_Some; lia).
      destruct (Z.ltb_spec 0 (n_ref s)); lia.
    + subst k. simpl. lia.
  - unfold cref_clear. rewrite He. simpl. rewrite He. done.
  - intros q. unfold cref_clear, cref_find. rewrite He. simpl. rewrite He. done.
Qed.

Lemma cref_length_distinct_witness :
  exists r1 r2 r3,
    cref_push zero_slots (single 42 1) 42 = Some r1
    /\ cref_pull_ptr (single 42 1) 42 = Some r2
    /\ cref_purge_ptr (single 42 1) 42 = Some r3
    /\ (err r1 = CERR_NONE ->
        cref_length r1 = cref_length (single 42 1) + (if 1 =? 0 then 1 else 0))
    /\ cref_length r2 = cref_length (single 42 1) - (if 1 =? 1 then 1 else 0)
    /\ cref_length r3 = cref_length (single 42 1) - (if 0 <? 1 then 1 else 0)
    /\ cref_length (cref_clear (single 42 1)) = 0
    /\ (forall q, fst <$> cref_find (cref_clear (single 42 1)) q = Some 0).
Proof.
  apply cref_length_distinct; [|reflexivity|reflexivity].
  apply (reach_step (cref_create true zero_slots) (Push zero_slots 42) _ RVoid);
    [apply reach_create|exact I|reflexivity].
Defined.

Lemma ref_accessors_live r i :
  wf r -> err r = CERR_NONE -> 0 <= i < n r ->
  cref_ptr r i = ptr <$> live r !! Z.to_nat i
  /\ cref_count r i = n_ref <$> live r !! Z.to_nat i.
Proof.
  intros [Hn Hlen _ _ _ _] He Hi. unfold cref_ptr, cref_count, live.
  rewrite He. simpl. destruct (Z.leb_spec (n r) i); [lia|].
  rewrite load_in by lia. rewrite lookup_take_lt by lia.
  destruct (slots r !! Z.to_nat i); done.
Qed.

(** X11: indices and pointers determine each other.  At every index below
    the length there is a pointer with a count between 1 and [UINT_MAX],
    and [cref_find] of that pointer reports this count and this index;
    conversely, where [cref_find] reports a count above 0 at an index,
    [cref_ptr] and [cref_count] at the index give the pointer and the
    count. *)
Theorem cref_index_round_trip (r : cref) :
  reachable r ->
  (forall i, 0 <= i < cref_length r ->
     exists p k, cref_ptr r i = Some p /\ cref_count r i = Some k
       /\ 1 <= k <= UINT_MAX
       /\ cref_find r p = Some (k, Some i))
  /\ (forall p k i, cref_find r p = Some (k, Some i) -> 0 < k ->
        0 <= i < cref_length r
        /\ cref_ptr r i = Some p /\ cref_count r i = Some k).
Proof.
  intros Hr. pose proof (ref_reachable_wf r Hr) as Hwf.
  destruct (failed (err r)) eqn:Hf.
  { unfold cref_length, cref_find. rewrite Hf. split; [intros; lia|].
    intros p k i Hfind. discriminate Hfind. }
  apply failed_false in Hf. unfold cref_length. rewrite Hf. simpl.
  pose proof (ref_live_length r Hwf) as Hl. split.
  - intros i Hi.
    destruct (ref_accessors_live r i Hwf Hf Hi) as (-> & ->).
    destruct (live r !! Z.to_nat i) as [s|] eqn:Hs;
      [|apply lookup_ge_None in Hs; lia].
    exists (ptr s), (n_ref s). simpl. split_and!; [done|done|..].
    + pose proof (wf_refs r Hwf) as Hrf. rewrite Forall_forall in Hrf.
      apply Hrf. by eapply list_elem_of_lookup_2.
    + pose proof (wf_refs r Hwf) as Hrf. rewrite Forall_forall in Hrf.
      apply Hrf. by eapply list_elem_of_lookup_2.
    + rewrite cref_find_spec by done.
      destruct (list_find (has_ptr (ptr s)) (live r)) as [[j t]|] eqn:Hfind.
      * apply list_find_Some in Hfind as (Hj & Ht & _). unfold has_ptr in Ht.
        assert (j = Z.to_nat i).
        { eapply NoDup_lookup; [exact (wf_ptrs r Hwf)| |].
          - rewrite list_lookup_fmap, Hj. simpl. by rewrite Ht.
          - by rewrite list_lookup_fmap, Hs. }
        subst j. rewrite Hs in Hj. injection Hj as <-.
        do 3 f_equal. lia.
      * rewrite list_find_None, Forall_forall in Hfind.
        by destruct (Hfind s (list_elem_of_lookup_2 _ _ _ Hs)).
  - intros p k i Hfind Hk. rewrite cref_find_spec in Hfind by done.
    destruct (list_find (has_ptr p) (live r)) as [[j t]|] eqn:Hlf;
      [|injection Hfind as <-; lia].
    injection Hfind as <- <-.
    apply list_find_Some in Hlf as (Hj & Ht & _). unfold has_ptr in Ht.
    pose proof (lookup_lt_Some _ _ _ Hj) as Hlt.
    destruct (ref_range r Hwf) as [Hn _].
    destruct (ref_accessors_live r (Z.of_nat j) Hwf Hf) as (-> & ->); [lia|].
    rewrite Nat2Z.id, Hj. simpl. split_and!; [lia|lia|by rewrite Ht|done].
Qed.

Lemma cref_index_round_trip_witness :
  (forall i, 0 <= i < cref_length (single 42 3) ->
     exists p k, cref_ptr (single 42 3) i = Some p
       /\ cref_count (single 42 3) i = Some k
       /\ 1 <= k <= UINT_MAX
       /\ cref_find (single 42 3) p = Some (k, Some i))
  /\ (forall p k i, cref_find (single 42 3) p = Some (k, Some i) -> 0 < k ->
        0 <= i < cref_length (single 42 3)
        /\ cref_ptr (single 42 3) i = Some p
        /\ cref_count (single 42 3) i = Some k).
Proof.
  apply cref_index_round_trip.
  apply (reach_step (single 42 2) (Push zero_slots 42) _ RVoid);
    [|exact I|reflexivity].
  apply (reach_step (single 42 1) (Push zero_slots 42) _ RVoid);
    [|exact I|reflexivity].
  apply (reach_step (cref_create true zero_slots) (Push zero_slots 42) _ RVoid);
    [apply reach_create|exact I|reflexivity].
Defined.

(** One more reference of the only pointer of [single]. *)
Lemma single_push o p k :
  1 <= k < UINT_MAX -> cref_push o (single p k) p = Some (single p (k + 1)).
Proof.
  intros Hk. unfold cref_push, single, cref_find. simpl.
  rewrite Z.eqb_refl. simpl.
  destruct (Z.ltb_spec 0 k); [|lia].
  destruct (Z.eqb_spec k UINT_MAX); [lia|].
  unfold store. simpl. rewrite uint_wrap_id by lia. done.
Qed.

(** Every count up to [UINT_MAX] can be reached. *)
Lemma single_reachable p k : 1 <= k <= UINT_MAX -> reachable (single p k).
Proof.
  intros Hk. replace k with (1 + Z.of_nat (Z.to_nat (k - 1))) by lia.
  assert (Hb : (Z.to_nat (k - 1) <= Z.to_nat (UINT_MAX - 1))%nat) by lia.
  induction (Z.to_nat (k - 1)) as [|m IH].
  - apply (reach_step (cref_create true zero_slots) (Push zero_slots p) _ RVoid);
      [apply reach_create|exact I|reflexivity].
  - apply (reach_step (single p (1 + Z.of_nat m)) (Push zero_slots p) _ RVoid);
      [apply IH; lia|exact I|].
    simpl. rewrite single_push by (unfold UINT_MAX in *; lia). simpl.
    do 3 f_equal. lia.
Qed.

(** X12: the reference counter saturates.  A push of a pointer that already
    has [UINT_MAX] references adds none: it sets the error OVERFLOW and
    changes nothing else, so that after [cref_repair] the registry is
    exactly as before. *)
Theorem cref_count_saturates (r : cref) (o : alloc slot) (p : Z) :
  reachable r -> err r = CERR_NONE ->
  fst <$> cref_find r p = Some UINT_MAX ->
  cref_push o r p = Some (set_err CERR_OVERFLOW r)
  /\ cref_repair (set_err CERR_OVERFLOW r) = r.
Proof.
  intros Hr He Hk. pose proof (ref_reachable_wf r Hr) as Hwf.
  rewrite find_count, He in Hk by done. simpl in Hk. injection Hk as Hk.
  destruct (cref_push_live o r p Hwf He) as (r1 & Hp & _ & _ & _ & _ & Hsat & _).
  rewrite Hp, (Hsat Hk). split; [done|].
  unfold cref_repair. simpl. destruct r; simpl in *; by subst.
Qed.

Lemma cref_count_saturates_witness :
  cref_push zero_slots (single 42 UINT_MAX) 42
  = Some (set_err CERR_OVERFLOW (single 42 UINT_MAX))
  /\ cref_repair (set_err CERR_OVERFLOW (single 42 UINT_MAX))
     = single 42 UINT_MAX.
Proof.
  apply cref_count_saturates.
  - apply single_reachable. unfold UINT_MAX. lia.
  - reflexivity.
  - reflexivity.
Defined.

(** What static [grow] answers, case by case. *)
Lemma ref_grow_cases o r m :
  grow o r m
  = if m <=? n_alloc r then (r, true)
    else if SIZE_MAX <? m * sizeof_slot then (set_err CERR_OVERFLOW r, false)
    else match o with
         | None => (set_err CERR_MEMORY r, false)
         | Some _ => ((grow o r m).1, true)
         end.
Proof.
  unfold grow. destruct (m <=? n_alloc r); [done|].
  destruct (Z.ltb_spec SIZE_MAX (m * sizeof_slot)) as [Hov|Hfit].
  - apply safe_mul_None in Hov. by rewrite Hov.
  - destruct (safe_mul m sizeof_slot) eqn:Hmul;
      [|apply safe_mul_None in Hmul; lia].
    by destruct o.
Qed.

Lemma ref_grow_alloc o r m :
  (grow o r m).2 = true -> n_alloc (grow o r m).1 = Z.max m (n_alloc r).
Proof.
  unfold grow. destruct (Z.leb_spec m (n_alloc r)); simpl; [lia|].
  destruct (safe_mul m sizeof_slot); [|done].
  destruct (realloc o (slots r) m); [|done]. simpl. lia.
Qed.

(** Two error-free registries with the same live entries and default
    pointer answer every read alike. *)
Lemma ref_same_reads r r' :
  wf r -> wf r' -> err r = CERR_NONE -> err r' = CERR_NONE ->
  live r' = live r -> default_ptr r' = default_ptr r ->
  cref_length r' = cref_length r
  /\ (forall p, cref_find r' p = cref_find r p)
  /\ (forall i, 0 <= i ->
        cref_ptr r' i = cref_ptr r i /\ cref_count r' i = cref_count r i).
Proof.
  intros Hwf Hwf' He He' Hlv Hd.
  pose proof (ref_live_length r Hwf) as Hl.
  pose proof (ref_live_length r' Hwf') as Hl'.
  pose proof (ref_range r Hwf) as Hr. pose proof (ref_range r' Hwf') as Hr'.
  assert (Hn : n r' = n r) by (rewrite Hlv in Hl'; lia).
  split_and!.
  - unfold cref_length. by rewrite He, He'.
  - intros p. rewrite !cref_find_spec by done. by rewrite Hlv.
  - intros i Hi. destruct (Z.lt_ge_cases i (n r)).
    + destruct (ref_accessors_live r i Hwf He) as (-> & ->); [lia|].
      destruct (ref_accessors_live r' i Hwf' He') as (-> & ->); [lia|].
      by rewrite Hlv.
    + unfold cref_ptr, cref_count. rewrite He, He', Hd, Hn. simpl.
      destruct (Z.leb_spec (n r) i); [done|lia].
Qed.

(** X13: a clone of an error-free registry made with successful
    allocations is an error-free registry of the same capacity that
    answers every read as the original does; in every other case the
    result is the placeholder. *)
Theorem cref_clone_same (r : cref) (ok : bool) (o : alloc slot) :
  reachable r ->
  exists r', cref_clone ok o r = Some r'
    /\ (err r = CERR_NONE -> ok = true -> is_Some o ->
        err r' = CERR_NONE
        /\ n_alloc r' = n_alloc r
        /\ cref_length r' = cref_length r
        /\ (forall p, cref_find r' p = cref_find r p)
        /\ (forall i, 0 <= i ->
              cref_ptr r' i = cref_ptr r i /\ cref_count r' i = cref_count r i))
    /\ (err r <> CERR_NONE \/ ok = false \/ o = None ->
        r' = cref_placeholder_instance).
Proof.
  intros Hr. pose proof (ref_reachable_wf r Hr) as Hwf.
  pose proof (ref_range r Hwf) as Hrg.
  pose proof Hwf as [Hn Hlen Hsz Hal Hp Hrf].
  destruct (cref_clone_spec ok o r Hwf) as (r' & Hc & Hwf').
  exists r'. split; [done|]. unfold cref_clone in Hc.
  destruct (failed (err r)) eqn:Hf; simpl in Hc.
  { injection Hc as <-. split; [|done]. intros He. by rewrite He in Hf. }
  apply failed_false in Hf.
  destruct ok; simpl in Hc; [|injection Hc as <-; split; [done|done]].
  assert (1 <= n_alloc r) by (destruct Hal; [done|congruence]).
  pose proof (ref_grow_alloc o calloc_instance (n_alloc r)) as Hga.
  destruct (grow_calloc o (n_alloc r)) as (H1 & H2 & H3 & H5 & H8); [lia|].
  rewrite ref_grow_cases in Hc, Hga, H8, H5.
  simpl in Hc, Hga, H8, H5.
  destruct (Z.leb_spec (n_alloc r) 0); [lia|].
  destruct (Z.ltb_spec SIZE_MAX (n_alloc r * sizeof_slot)); [lia|].
  destruct o as [junk|]; [|injection Hc as <-; split; [|done]].
  2:{ intros _ _ Hs. by apply is_Some_None in Hs. }
  simpl in *. destruct H8 as [He Hcap]; [done|]. specialize (Hga eq_refl).
  destruct (region (slots r) (n r)) as [src|] eqn:Hreg; [|done]. simpl in Hc.
  destruct (memcpy_at _ 0 src) as [tmp|] eqn:Hcpy; [|done]. simpl in Hc.
  injection Hc as <-. split.
  - intros _ _ _. simpl.
    rewrite region_in in Hreg by lia. injection Hreg as <-.
    rewrite memcpy_at_0 in Hcpy by (rewrite length_take; lia).
    injection Hcpy as <-.
    split_and!; [done|lia|..]; apply ref_same_reads; try done; simpl;
      unfold live; simpl; rewrite take_app_length'; try done;
      rewrite length_take; lia.
  - intros [Hbad|[Hbad|Hbad]]; done.
Qed.

Lemma cref_clone_same_witness :
  exists r', cref_clone true zero_slots (single 42 3) = Some r'
    /\ (err (single 42 3) = CERR_NONE -> true = true -> is_Some zero_slots ->
        err r' = CERR_NONE
        /\ n_alloc r' = n_alloc (single 42 3)
        /\ cref_length r' = cref_length (single 42 3)
        /\ (forall p, cref_find r' p = cref_find (single 42 3) p)
        /\ (forall i, 0 <= i ->
              cref_ptr r' i = cref_ptr (single 42 3) i
              /\ cref_count r' i = cref_count (single 42 3) i))
    /\ (err (single 42 3) <> CERR_NONE \/ true = false \/ zero_slots = None ->
        r' = cref_placeholder_instance).
Proof.
  apply cref_clone_same. apply single_reachable. unfold UINT_MAX. lia.
Defined.

(** X14: reserved storage is enough.  While the registry holds fewer
    entries than it has slots, a push needs no allocation: it succeeds even
    when the allocator would refuse (unless the counter of the pointer is
    saturated).  [cref_prealloc] never shrinks the storage, does nothing
    when the storage is large enough, and keeps every entry. *)
Theorem cref_reserved_is_enough (r : cref) (o : alloc slot) (m p : Z) :
  reachable r -> err r = CERR_NONE -> 0 <= m <= SIZE_MAX ->
  (m <= n_alloc r -> cref_prealloc o r m = r)
  /\ (err (cref_prealloc o r m) = CERR_NONE ->
      n_alloc (cref_prealloc o r m) = Z.max m (n_alloc r)
      /\ cref_length (cref_prealloc o r m) = cref_length r
      /\ (forall q, cref_find (cref_prealloc o r m) q = cref_find r q))
  /\ (cref_length r < n_alloc r -> fst <$> cref_find r p <> Some UINT_MAX ->
      exists r', cref_push None r p = Some r' /\ err r' = CERR_NONE
        /\ n_alloc r' = n_alloc r).
Proof.
  intros Hr He Hm. pose proof (ref_reachable_wf r Hr) as Hwf.
  split_and!.
  - intros Hle. unfold cref_prealloc, grow. rewrite He. simpl.
    by destruct (Z.leb_spec m (n_alloc r)); [|lia].
  - intros He'. unfold cref_prealloc in *. rewrite He in *. simpl in *.
    destruct (grow_wf o r m Hwf He) as (Hwf' & Hlv & Hn & Hd & Hcase); [lia|].
    pose proof (ref_grow_alloc o r m) as Hga.
    destruct (grow o r m) as [g [|]]; simpl in *.
    + split; [by apply Hga|].
      destruct (ref_same_reads r g) as (? & ? & _); done.
    + destruct Hcase as [-> | ->]; done.
  - intros Hroom Hsat. unfold cref_length in Hroom. rewrite He in Hroom.
    simpl in Hroom. rewrite find_count, He in Hsat by done. simpl in Hsat.
    destruct (cref_push_live None r p Hwf He)
      as (r' & Hp & _ & _ & _ & _ & _ & Hgood).
    exists r'. split; [done|]. apply Hgood.
    pose proof (count_range r p Hwf) as Hc.
    destruct (Z.eq_dec (count r p) 0); [by right|left].
    split; [lia|]. destruct (Z.eq_dec (count r p) UINT_MAX); [|lia].
    destruct Hsat. congruence.
Qed.

Lemma cref_reserved_is_enough_witness :
  exists r',
    cref_push None (cref_prealloc zero_slots (single 42 3) 4) 7 = Some r'
    /\ err r' = CERR_NONE
    /\ n_alloc r' = n_alloc (cref_prealloc zero_slots (single 42 3) 4).
Proof.
  destruct (cref_reserved_is_enough
              (cref_prealloc zero_slots (single 42 3) 4) zero_slots 4 7)
    as (_ & _ & H).
  - apply (reach_step (single 42 3) (Prealloc zero_slots 4) _ RVoid);
      [|simpl; unfold SIZE_MAX; lia|reflexivity].
    apply single_reachable. unfold UINT_MAX. lia.
  - reflexivity.
  - unfold SIZE_MAX. lia.
  - apply H; [vm_compute; reflexivity|vm_compute; discriminate].
Defined.

End CrefProps.

(** * Further properties of the string arena *)

Module CbookProps.
Import Cbook CbookFacts CbookGroups.

(** ** Words in the byte buffer *)

Lemma c_bytes_no_nul s : Ascii.zero ∉ c_bytes s.
Proof.
  induction s as [|c s IH]; simpl; [apply not_elem_of_nil|].
  destruct (Ascii.eqb_spec c Ascii.zero); [apply not_elem_of_nil|].
  apply not_elem_of_cons. split; [congruence|done].
Qed.

Lemma c_bytes_of_list l :
  Ascii.zero ∉ l -> c_bytes (string_of_list_ascii l) = l.
Proof.
  induction l as [|c l IH]; simpl; [done|].
  intros [Hc Hl]%not_elem_of_cons.
  destruct (Ascii.eqb_spec c Ascii.zero); [congruence|]. by rewrite IH.
Qed.

Lemma c_bytes_no_nul_string s :
  Ascii.zero ∉ list_ascii_of_string s ->
  string_of_list_ascii (c_bytes s) = s.
Proof.
  induction s as [|c s IH]; simpl; [done|].
  intros [Hc Hl]%not_elem_of_cons.
  destruct (Ascii.eqb_spec c Ascii.zero); [congruence|]. simpl. by rewrite IH.
Qed.

Lemma c_string_app s rest :
  Ascii.zero ∉ s ->
  c_string (s ++ Ascii.zero :: rest) = Some (string_of_list_ascii s).
Proof.
  induction s as [|c s IH]; simpl; [done|].
  intros [Hc Hl]%not_elem_of_cons.
  destruct (Ascii.eqb_spec c Ascii.zero); [congruence|]. by rewrite IH.
Qed.

Lemma flat_app ss tt : flat (ss ++ tt) = flat ss ++ flat tt.
Proof.
  induction ss as [|s ss IH]; simpl; [done|].
  by rewrite IH, <- app_assoc.
Qed.

Lemma offsets_length start ss : length (offsets start ss) = length ss.
Proof.
  revert start. induction ss as [|s ss IH]; intros start; simpl; [done|].
  by rewrite IH.
Qed.

Lemma offsets_app start ss tt :
  offsets start (ss ++ tt)
  = offsets start ss ++ offsets (start + Z.of_nat (length (flat ss))) tt.
Proof.
  revert start. induction ss as [|s ss IH]; intros start; simpl.
  - by rewrite Z.add_0_r.
  - rewrite IH. do 3 f_equal. rewrite length_app. simpl. lia.
Qed.

Lemma offsets_take start ss k :
  take k (offsets start ss) = offsets start (take k ss).
Proof.
  revert start k. induction ss as [|s ss IH]; intros start [|k]; simpl; try done.
  by rewrite IH.
Qed.

Lemma offsets_lookup ss (i : nat) :
  (i < length ss)%nat ->
  offsets 0 ss !! i = Some (Z.of_nat (length (flat (take i ss)))).
Proof.
  intros Hi. rewrite <- (take_drop i ss) at 1. rewrite offsets_app.
  rewrite lookup_app_r by (rewrite offsets_length, length_take; lia).
  rewrite offsets_length, length_take.
  replace (i - i `min` length ss)%nat with 0%nat by lia.
  destruct (drop i ss) as [|s tt] eqn:Hd.
  - apply (f_equal length) in Hd. rewrite length_drop in Hd. simpl in Hd. lia.
  - done.
Qed.

Lemma flat_take_length ss (i : nat) :
  (length (flat (take i ss)) <= length (flat ss))%nat.
Proof.
  rewrite <- (take_drop i ss) at 2. rewrite flat_app, length_app. lia.
Qed.

Lemma flat_take ss (i : nat) :
  take (length (flat (take i ss))) (flat ss) = flat (take i ss).
Proof.
  rewrite <- (take_drop i ss) at 2. rewrite flat_app. by rewrite take_app_length.
Qed.

Lemma flat_drop ss (i : nat) s :
  ss !! i = Some s ->
  drop (length (flat (take i ss))) (flat ss)
  = s ++ Ascii.zero :: flat (drop (S i) ss).
Proof.
  intros Hs. rewrite <- (take_drop_middle ss i s Hs) at 2.
  rewrite flat_app. simpl. by rewrite drop_app_length.
Qed.

(** ** The words a book holds *)

Lemma memcpy_at_Some {A} (dst : list A) off (src l : list A) :
  memcpy_at dst off src = Some l ->
  0 <= off /\ off + Z.of_nat (length src) <= Z.of_nat (length dst)
  /\ l = take (Z.to_nat off) dst ++ src ++ drop (Z.to_nat off + length src) dst.
Proof.
  unfold memcpy_at. destruct (Z.leb_spec 0 off); simpl; [|done].
  destruct (Z.leb_spec (off + Z.of_nat (length src)) (Z.of_nat (length dst)));
    [|done].
  intros [= <-]. done.
Qed.

Lemma region_Some {A} (src : list A) cnt l :
  region src cnt = Some l ->
  0 <= cnt <= Z.of_nat (length src) /\ l = take (Z.to_nat cnt) src.
Proof.
  unfold region. destruct (Z.leb_spec 0 cnt); simpl; [|done].
  destruct (Z.leb_spec cnt (Z.of_nat (length src))); [|done].
  intros [= <-]. done.
Qed.

(** Static [grow] only touches the storage. *)
Lemma grow_fields o b c w g :
  n_chars (grow o b c w g).1 = n_chars b
  /\ n_words (grow o b c w g).1 = n_words b
  /\ n_groups (grow o b c w g).1 = n_groups b
  /\ new_group (grow o b c w g).1 = new_group b
  /\ ((grow o b c w g).2 = true -> err (grow o b c w g).1 = err b)
  /\ ((grow o b c w g).2 = false ->
      err (grow o b c w g).1 = CERR_OVERFLOW
      \/ err (grow o b c w g).1 = CERR_MEMORY).
Proof.
  unfold grow, grow_chars, grow_words, grow_groups.
  destruct (safe_mul w sizeof_size_t);
    [|simpl; split_and!; done || (intros _; auto)].
  destruct (safe_mul g sizeof_size_t);
    [|simpl; split_and!; done || (intros _; auto)].
  destruct (n_alloc_chars b <? c); simpl;
    [destruct (realloc (for_chars o) (chars b) c); simpl;
     [|split_and!; done || (intros _; auto)]|];
    (destruct (_ <? w); simpl;
     [destruct (realloc (for_words o) _ w); simpl;
      [|split_and!; done || (intros _; auto)]|];
     (destruct (_ <? g); simpl;
      [destruct (realloc (for_groups o) _ g); simpl|];
      split_and!; done || (intros _; auto))).
Qed.

Lemma grow_prefix o b c w g (k : nat) :
  Z.of_nat (length (chars b)) = n_alloc_chars b ->
  (k <= length (chars b))%nat ->
  take k (chars (grow o b c w g).1) = take k (chars b).
Proof.
  intros Hlen Hk. unfold grow, grow_chars, grow_words, grow_groups.
  destruct (safe_mul w sizeof_size_t); [|done].
  destruct (safe_mul g sizeof_size_t); [|done].
  assert (Hc : take k (chars (if n_alloc_chars b <? c
                then match realloc (for_chars o) (chars b) c with
                     | Some tmp => (set_chars tmp (set_n_alloc_chars c b), true)
                     | None => (set_err CERR_MEMORY b, false)
                     end
                else (b, true)).1) = take k (chars b)).
  { destruct (Z.ltb_spec (n_alloc_chars b) c); [|done].
    destruct (realloc (for_chars o) (chars b) c) as [tmp|] eqn:Hr; [|done].
    apply realloc_Some in Hr as [_ Hpre]. simpl. apply Hpre; lia. }
  destruct (if n_alloc_chars b <? c then _ else _) as [b1 [|]]; simpl in *;
    [|done].
  rewrite <- Hc.
  destruct (_ <? w); simpl;
    [destruct (realloc (for_words o) _ w); simpl; [|done]|];
    (destruct (_ <? g); simpl;
     [destruct (realloc (for_groups o) _ g); simpl; done|done]).
Qed.

Lemma pop_chars b b' :
  cbook_pop_group b = Some b' \/ cbook_pop_word b = Some b' ->
  chars b' = chars b.
Proof.
  unfold cbook_pop_group, cbook_pop_word. intros [H|H].
  - destruct (failed (err b) || (n_groups b =? 0)); [by injection H as <-|].
    destruct (load (groups b) _) as [g|]; [|done]. simpl in H.
    destruct (load (words b) g) as [w|]; [|done]. simpl in H.
    injection H as <-. by destruct (_ =? 0).
  - destruct (failed (err b) || (n_words b =? 0)); [by injection H as <-|].
    destruct (load (groups b) _) as [g|]; [|done]. simpl in H.
    destruct (g =? _); simpl in H.
    + destruct (load (words _) _) as [w|]; [|done]. simpl in H.
      injection H as <-. simpl. by destruct (_ =? 0).
    + destruct (load (words b) _) as [w|]; [|done]. simpl in H.
      by injection H as <-.
Qed.

Lemma holds_length b ss :
  shape b -> holds b ss -> length ss = Z.to_nat (n_words b).
Proof.
  intros Hs [_ Hw _ _].
  rewrite <- (CbookClaims.live_words_length b Hs), Hw. by rewrite offsets_length.
Qed.

(** A book with the same live offsets and the same used bytes holds the
    same words. *)
Lemma holds_same b b' ss :
  holds b ss -> live_words b' = live_words b -> n_chars b' = n_chars b ->
  take (Z.to_nat (n_chars b)) (chars b') = take (Z.to_nat (n_chars b)) (chars b) ->
  holds b' ss.
Proof.
  intros [H1 H2 H3 H4] Hw Hn Hc.
  constructor; [done|congruence|by rewrite Hn, Hc|congruence].
Qed.

Lemma holds_empty b : n_words b = 0 -> n_chars b = 0 -> holds b [].
Proof.
  intros Hw Hc. constructor; [constructor| | |done].
  - unfold live_words. by rewrite Hw.
  - by rewrite Hc.
Qed.

(** Cutting the book back to its first [g] words. *)
Lemma holds_cut b b' ss g w :
  shape b -> holds b ss -> 0 <= g < n_words b ->
  load (words b) g = Some w ->
  words b' = words b -> chars b' = chars b -> n_words b' = g -> n_chars b' = w ->
  holds b' (take (Z.to_nat g) ss).
Proof.
  intros Hs Hh Hg Hl Hw Hc Hnw Hnc.
  pose proof (holds_length b ss Hs Hh) as Hlen.
  pose proof Hs as [_ Hsw _ _ Hlw _ _ _ _ _ _ _].
  destruct Hh as [H1 H2 H3 H4].
  apply load_Some in Hl as [_ Hl].
  assert (Hw' : w = Z.of_nat (length (flat (take (Z.to_nat g) ss)))).
  { assert (Hlk : live_words b !! Z.to_nat g = Some w).
    { unfold live_words. by rewrite lookup_take_lt by lia. }
    rewrite H2, offsets_lookup in Hlk by lia. congruence. }
  pose proof (flat_take_length ss (Z.to_nat g)) as Hle.
  constructor.
  - by apply Forall_take.
  - unfold live_words. rewrite Hw, Hnw, <- offsets_take, <- H2.
    unfold live_words. rewrite take_take. f_equal.
    symmetry. apply Nat.min_l. lia.
  - rewrite Hc, Hnc, Hw', Nat2Z.id.
    rewrite <- (flat_take ss (Z.to_nat g)) at 2. rewrite <- H3, take_take.
    f_equal. symmetry. apply Nat.min_l. lia.
  - congruence.
Qed.

Lemma holds_push b b' ss s :
  shape b -> holds b ss -> Ascii.zero ∉ s ->
  live_words b' = live_words b ++ [n_chars b] ->
  n_chars b' = n_chars b + Z.of_nat (length s) + 1 ->
  take (Z.to_nat (n_chars b')) (chars b')
  = take (Z.to_nat (n_chars b)) (chars b) ++ s ++ [Ascii.zero] ->
  holds b' (ss ++ [s]).
Proof.
  intros Hs [H1 H2 H3 H4] Hz Hw Hn Hc. constructor.
  - apply Forall_app. split; [done|]. by apply Forall_singleton.
  - rewrite Hw, H2, H4, offsets_app. done.
  - rewrite Hc, H3, flat_app. done.
  - rewrite Hn, H4, flat_app, !length_app. cbn [flat length].
    rewrite length_app. cbn [length]. lia.
Qed.

(** [cbook_write] on the words: a successful write appends the argument
    (its bytes up to the terminator); a failed write keeps the words. *)
Lemma cbook_write_holds o b s ss :
  wf b -> err b = CERR_NONE -> strlen s + 1 <= SIZE_MAX -> holds b ss ->
  exists b', cbook_write o b s = Some b' /\ wf b'
    /\ holds b' (if failed (err b') then ss else ss ++ [c_bytes s])
    /\ err b' <> CERR_INVALID.
Proof.
  intros Hwf He Ht Hh. pose proof Hwf as [Hs _].
  pose proof Hs as [Hc _ _ Hlc _ _ _ _ _ _ _ _].
  destruct (cbook_write_spec o b s Hwf He Ht) as (b' & Hw & Hwf' & Hok & Hko).
  exists b'. split; [done|]. split; [done|].
  unfold cbook_write in Hw. rewrite He in Hw. cbn [failed] in Hw.
  destruct (fit_chars _ _ _ _) as [[nc|]|]; simpl in Hw; [| |done].
  2:{ injection Hw as <-. simpl. split; [by apply (holds_same b)|done]. }
  pose proof (grow_fields o b nc
    (size_wrap (n_alloc_words b * (if n_alloc_words b <=? n_words b then 2 else 1)))
    (size_wrap (n_alloc_groups b * (if n_alloc_groups b <=? n_groups b then 2 else 1))))
    as (Gc & Gw & Gg & Gn & Ge & Gbad).
  pose proof (grow_prefix o b nc
    (size_wrap (n_alloc_words b * (if n_alloc_words b <=? n_words b then 2 else 1)))
    (size_wrap (n_alloc_groups b * (if n_alloc_groups b <=? n_groups b then 2 else 1)))
    (Z.to_nat (n_chars b)) Hlc) as Gp.
  destruct (grow o b nc _ _) as [b1 [|]]; simpl in *.
  - (* the storage is there *)
    specialize (Ge eq_refl). rewrite He in Ge.
    assert (Hb2 : exists b2,
      (if new_group b1
       then tmp ← store (groups b1) (n_groups b1) (n_words b1);
            Some (set_new_group false
                    (set_n_groups (size_wrap (n_groups b1 + 1)) (set_groups tmp b1)))
       else Some b1) = Some b2
      /\ chars b2 = chars b1 /\ n_chars b2 = n_chars b1 /\ err b2 = err b1).
    { destruct (new_group b1); [|by exists b1].
      destruct (store _ _ _) as [tmp|]; [|done]. simpl in *. by eexists. }
    destruct Hb2 as (b2 & Hb2 & Hch & Hnc & He2).
    rewrite Hb2 in Hw. simpl in Hw. rewrite Hch, Hnc, Gc in Hw.
    destruct (memcpy_at (chars b1) (n_chars b) _) as [tmp_c|] eqn:Hcpy; [|done].
    simpl in Hw. destruct (store (words b2) _ _) as [tmp_w|]; [|done].
    simpl in Hw. injection Hw as Hw.
    assert (Hch' : chars b' = tmp_c) by (by rewrite <- Hw).
    assert (He' : err b' = CERR_NONE) by (rewrite <- Hw; simpl; congruence).
    clear Hw. rewrite He'. cbn [failed]. split; [|done].
    destruct (Hok He') as (Hn' & _ & _ & _ & Hlw & _).
    apply memcpy_at_Some in Hcpy as (_ & _ & ->).
    apply (holds_push b); [done|done|apply c_bytes_no_nul|done| |].
    + unfold strlen in Hn'. lia.
    + rewrite Hch', Hn'. rewrite app_assoc, take_app_length'.
      * by rewrite Gp by lia.
      * rewrite length_app, length_take, length_app. cbn [length].
        unfold strlen in *.
        assert (Z.to_nat (n_chars b) <= length (chars b1))%nat; [|lia].
        apply (f_equal length) in Gp; [|lia]. rewrite !length_take in Gp. lia.
  - (* the growth failed *)
    injection Hw as <-.
    assert (Hbad : err b1 <> CERR_NONE).
    { intros He1. destruct (Hok He1) as (Hn' & _). pose proof (strlen_nonneg s). lia. }
    destruct (Hko Hbad) as [[] _].
    destruct (failed (err b1)) eqn:Hf; [|by apply failed_false in Hf].
    split; [apply (holds_same b); try done; apply Gp; lia|].
    destruct (Gbad eq_refl) as [-> | ->]; done.
Qed.

Lemma holds_placeholder : holds cbook_placeholder_instance [].
Proof. by apply holds_empty. Qed.

(** [cbook_clone] on the words. *)
Lemma cbook_clone_holds ok o b ss b' :
  wf b -> holds b ss -> cbook_clone ok o b = Some b' ->
  b' = cbook_placeholder_instance
  \/ (err b = CERR_NONE /\ err b' = CERR_NONE /\ holds b' ss
      /\ live_groups b' = live_groups b /\ n_groups b' = n_groups b
      /\ n_words b' = n_words b /\ n_chars b' = n_chars b
      /\ new_group b' = new_group b).
Proof.
  intros Hwf Hh Hc. pose proof Hwf as [Hs _].
  pose proof Hs as [Hnc Hnw Hng Hlc Hlw Hlg _ _ _ _ _ _].
  unfold cbook_clone in Hc.
  destruct (failed (err b)) eqn:Hf; simpl in Hc; [injection Hc as <-; by left|].
  apply failed_false in Hf.
  destruct ok; simpl in Hc; [|injection Hc as <-; by left].
  destruct (grow o calloc_instance _ _ _) as [b1 [|]]; [|injection Hc as <-; by left].
  destruct (region (chars b) _) as [src_c|] eqn:Rc; [|done]. simpl in Hc.
  destruct (memcpy_at (chars b1) 0 src_c) as [tmp_c|] eqn:Mc; [|done]. simpl in Hc.
  destruct (region (words b) _) as [src_w|] eqn:Rw; [|done]. simpl in Hc.
  destruct (memcpy_at (words b1) 0 src_w) as [tmp_w|] eqn:Mw; [|done]. simpl in Hc.
  destruct (region (groups b) _) as [src_g|] eqn:Rg; [|done]. simpl in Hc.
  destruct (memcpy_at (groups b1) 0 src_g) as [tmp_g|] eqn:Mg; [|done]. simpl in Hc.
  injection Hc as <-. right.
  apply region_Some in Rc as [_ ->]. apply region_Some in Rw as [_ ->].
  apply region_Some in Rg as [_ ->].
  apply memcpy_at_Some in Mc as (_ & _ & ->).
  apply memcpy_at_Some in Mw as (_ & _ & ->).
  apply memcpy_at_Some in Mg as (_ & _ & ->).
  simpl. split_and!; try done.
  - apply (holds_same b); try done.
    + unfold live_words. simpl. rewrite take_app_length'; [done|].
      rewrite length_take. lia.
    + simpl. rewrite take_app_length'; [done|]. rewrite length_take. lia.
  - unfold live_groups. simpl. rewrite take_app_length'; [done|].
    rewrite length_take. lia.
Qed.

(** Every call keeps the book a sequence of words. *)
Lemma step_holds o b b' v ss :
  wf b -> typed o -> holds b ss -> step o b = Some (b', v) ->
  exists ss', holds b' ss'.
Proof.
  intros Hwf Ht Hh Hst. pose proof Hwf as [Hs _].
  destruct (failed (err b)) eqn:Hf.
  { exists ss. destruct (error_control o) eqn:Hc.
    - destruct o; try discriminate Hc; simpl in Hst; injection Hst as <- _;
        [done|].
      unfold cbook_repair. destruct (cerr_eqb _ _); [done|].
      by apply (holds_same b).
    - rewrite SharedClaims.cbook_step_failed in Hst by done.
      by injection Hst as <- _. }
  apply failed_false in Hf.
  destruct (reads o) eqn:Hro.
  { exists ss. by rewrite (step_reads o b b' v Hro Hst). }
  destruct o; try discriminate Hro; simpl in Hst.
  - (* clear *) injection Hst as <- _. exists []. unfold cbook_clear.
    rewrite Hf. simpl. by apply holds_empty.
  - (* pop_group *)
    destruct (cbook_pop_group b) as [b1|] eqn:Hp; [|done].
    injection Hst as <- _.
    destruct (Z.eq_dec (n_groups b) 0) as [Hz|Hz].
    { exists ss. unfold cbook_pop_group in Hp. rewrite Hz, Hf in Hp.
      by injection Hp as <-. }
    pose proof Hs as [_ _ Hg _ _ _ _ _ _ _ _ _].
    destruct (cbook_pop_group_spec b Hwf Hf) as (b2 & g & w & Hp' & _ & _ & Hlg
      & Hlw & Hnc & Hnw & _ & _ & Hwd & _); [lia|].
    rewrite Hp in Hp'. injection Hp' as <-.
    destruct (live_groups_last b Hs) as (g' & Hlg' & _ & Hrg & _); [lia|].
    rewrite Hlg in Hlg'. injection Hlg' as <-.
    exists (take (Z.to_nat g) ss).
    eapply (holds_cut b); try done. apply (pop_chars b). by left.
  - (* pop_word *)
    destruct (cbook_pop_word b) as [b1|] eqn:Hp; [|done].
    injection Hst as <- _.
    destruct (Z.eq_dec (n_words b) 0) as [Hz|Hz].
    { exists ss. unfold cbook_pop_word in Hp. rewrite Hz, Hf in Hp.
      by injection Hp as <-. }
    pose proof Hs as [_ Hw Hg _ _ _ _ _ _ _ _ _].
    destruct (Z.eq_dec (n_groups b) 0) as [Hzg|Hzg].
    { rewrite cbook_pop_word_undefined in Hp by (done || lia). done. }
    destruct (cbook_pop_word_spec b Hwf Hf) as (b2 & g & w & Hp' & _ & _ & _
      & Hlw & Hnc & Hnw & _ & _ & Hwd & _); [lia..|].
    rewrite Hp in Hp'. injection Hp' as <-.
    exists (take (Z.to_nat (n_words b - 1)) ss).
    eapply (holds_cut b); try done; [lia|]. apply (pop_chars b). by right.
  - (* prealloc *)
    injection Hst as <- _. exists ss. unfold cbook_prealloc. rewrite Hf. simpl.
    simpl in Ht. destruct Ht as (Hc & Hw & Hg).
    destruct (book_grow_spec o b bytes_number words_number groups_number Hs)
      as (_ & [] & _); [lia..|].
    pose proof Hs as [Hnc _ _ Hlc _ _ _ _ _ _ _ _].
    apply (holds_same b); try done. apply grow_prefix; [done|lia].
  - (* prepare_new_group *)
    injection Hst as <- _. exists ss. unfold cbook_prepare_new_group.
    rewrite Hf. simpl. by apply (holds_same b).
  - (* repair *)
    injection Hst as <- _. exists ss. unfold cbook_repair. rewrite Hf. simpl.
    by apply (holds_same b).
  - (* undo_new_group *)
    injection Hst as <- _. exists ss. unfold cbook_undo_new_group.
    destruct (_ || _); [done|]. by apply (holds_same b).
  - (* write *)
    destruct (cbook_write_holds o b str ss Hwf Hf Ht Hh) as (b1 & Hw & _ & Hh1 & _).
    rewrite Hw in Hst. injection Hst as <- _. eauto.
  - (* zero *)
    destruct (cbook_zero_spec b Hwf Hf) as [Hz _]. rewrite Hz in Hst.
    injection Hst as <- _. exists []. by apply holds_empty.
Qed.

(** Every book a program can hold is a sequence of words, each stored
    with its terminator, one after the other from the start of the byte
    buffer. *)
Lemma reachable_holds b : reachable b -> exists ss, holds b ss.
Proof.
  induction 1 as [ok o|b ok o b' Hr [ss IH] Hc|b o b' v Hr [ss IH] Ht Hs].
  - exists []. apply holds_empty; unfold cbook_create;
      destruct ok; simpl; try done;
      destruct (grow o calloc_instance 1 1 1) as [b [|]]; done.
  - destruct (cbook_clone_holds ok o b ss b' (book_reachable_wf b Hr) IH Hc)
      as [->|(_ & _ & Hh & _)]; [exists []; apply holds_placeholder|eauto].
  - eapply step_holds; eauto using book_reachable_wf.
Qed.

(** ** Reading the words back *)

Lemma word_text_holds b ss (i : nat) s :
  shape b -> err b = CERR_NONE -> holds b ss -> ss !! i = Some s ->
  word_text b (Z.of_nat i) = Some (string_of_list_ascii s).
Proof.
  intros Hs He Hh Hi. pose proof (holds_length b ss Hs Hh) as Hlen.
  pose proof Hs as [Hnc Hnw _ Hlc Hlw _ _ _ _ _ _ _].
  pose proof Hh as [H1 H2 H3 H4].
  pose proof (lookup_lt_Some _ _ _ Hi) as Hlt.
  unfold word_text, cbook_word. rewrite He. simpl.
  destruct (Z.leb_spec (n_words b) (Z.of_nat i)); [lia|].
  rewrite load_in, Nat2Z.id by lia.
  assert (Hw : words b !! i = Some (Z.of_nat (length (flat (take i ss))))).
  { rewrite <- (offsets_lookup ss i Hlt), <- H2. unfold live_words.
    by rewrite lookup_take_lt by lia. }
  rewrite Hw. simpl.
  pose proof (flat_take_length ss i) as Hle.
  rewrite ptr_into_in by lia. simpl.
  unfold string_at. destruct (Z.ltb_spec (Z.of_nat (length (flat (take i ss)))) 0);
    [lia|].
  rewrite Nat2Z.id.
  rewrite <- (take_drop (Z.to_nat (n_chars b)) (chars b)), H3.
  rewrite drop_app_le by lia. rewrite (flat_drop ss i s Hi).
  rewrite <- app_assoc. simpl. apply c_string_app.
  rewrite Forall_forall in H1. apply H1. by eapply list_elem_of_lookup_2.
Qed.

Lemma word_text_out b i :
  failed (err b) = true \/ cbook_words_number b <= i ->
  word_text b i = Some EmptyString.
Proof.
  unfold word_text, cbook_word, cbook_words_number.
  destruct (failed (err b)); [done|]. simpl. intros [?|?]; [done|].
  destruct (Z.leb_spec (n_words b) i); [done|lia].
Qed.

(** Two error-free books that hold the same words read alike. *)
Lemma holds_same_texts b b' ss :
  shape b -> shape b' -> err b = CERR_NONE -> err b' = CERR_NONE ->
  holds b ss -> holds b' ss ->
  forall i, 0 <= i -> word_text b' i = word_text b i.
Proof.
  intros Hs Hs' He He' Hh Hh' i Hi.
  pose proof (holds_length b ss Hs Hh) as Hl.
  pose proof (holds_length b' ss Hs' Hh') as Hl'.
  destruct (ss !! Z.to_nat i) as [s|] eqn:Hlk.
  - rewrite <- (Z2Nat.id i) by lia.
    by rewrite (word_text_holds b ss _ s), (word_text_holds b' ss _ s).
  - apply lookup_ge_None in Hlk. destruct Hs, Hs'.
    rewrite !word_text_out; [done|right|right];
      unfold cbook_words_number; rewrite ?He, ?He'; simpl; lia.
Qed.

(** X15: what is written is read back.  After a successful write, the
    word at the old number of words is the string written (its characters
    up to the first NUL), the byte length has grown by its length plus one,
    and every earlier word reads as before, even where the byte buffer was
    reallocated.  After a failed write and [cbook_repair], every word reads
    as before. *)
Theorem cbook_write_read_back (b : cbook) (o : allocs) (s : string) :
  reachable b -> err b = CERR_NONE -> strlen s + 1 <= SIZE_MAX ->
  exists b', cbook_write o b s = Some b'
    /\ (err b' = CERR_NONE ->
        cbook_words_number b' = cbook_words_number b + 1
        /\ cbook_length b' = cbook_length b + strlen s + 1
        /\ word_text b' (cbook_words_number b)
           = Some (string_of_list_ascii (c_bytes s))
        /\ (Ascii.zero ∉ list_ascii_of_string s ->
            word_text b' (cbook_words_number b) = Some s)
        /\ (forall i, 0 <= i < cbook_words_number b ->
              word_text b' i = word_text b i))
    /\ (err b' <> CERR_NONE ->
        observe (cbook_repair b') = observe b
        /\ forall i, 0 <= i -> word_text (cbook_repair b') i = word_text b i).
Proof.
  intros Hr He Ht. pose proof (book_reachable_wf b Hr) as Hwf.
  pose proof Hwf as [Hs _].
  destruct (reachable_holds b Hr) as [ss Hh].
  destruct (cbook_write_holds o b s ss Hwf He Ht Hh)
    as (b' & Hw & Hwf' & Hh' & Hinv).
  destruct (cbook_write_spec o b s Hwf He Ht) as (b'' & Hw' & _ & Hok & Hko).
  rewrite Hw in Hw'. injection Hw' as <-.
  pose proof Hwf' as [Hs' _].
  pose proof (holds_length b ss Hs Hh) as Hlen.
  exists b'. split; [done|]. split.
  - intros He'. rewrite He' in Hh'. cbn [failed] in Hh'.
    destruct (Hok He') as (Hnc & Hnw & _).
    unfold cbook_words_number, cbook_length. rewrite He, He'. simpl.
    assert (Hlast : word_text b' (n_words b)
                    = Some (string_of_list_ascii (c_bytes s))).
    { destruct Hs. rewrite <- (Z2Nat.id (n_words b)) by lia.
      apply (word_text_holds b' (ss ++ [c_bytes s])); try done.
      rewrite lookup_app_r by lia. by rewrite <- Hlen, Nat.sub_diag. }
    split_and!; [done|lia|done| |].
    + intros Hz. by rewrite Hlast, c_bytes_no_nul_string.
    + intros i Hi. destruct (ss !! Z.to_nat i) as [t|] eqn:Hlk;
        [|apply lookup_ge_None in Hlk; lia].
      rewrite <- (Z2Nat.id i) by lia.
      rewrite (word_text_holds b ss _ t) by done.
      apply (word_text_holds b' (ss ++ [c_bytes s])); try done.
      by apply lookup_app_l_Some.
  - intros He'. destruct (failed (err b')) eqn:Hf;
      [|by apply failed_false in Hf].
    destruct (Hko He') as [[Fc Fw Fg _ _ _ _ _ _] _].
    assert (Hrep : err (cbook_repair b') = CERR_NONE
                   /\ n_chars (cbook_repair b') = n_chars b
                   /\ n_words (cbook_repair b') = n_words b
                   /\ n_groups (cbook_repair b') = n_groups b
                   /\ holds (cbook_repair b') ss
                   /\ shape (cbook_repair b')).
    { unfold cbook_repair. destruct (err b') eqn:Heb; try done; simpl;
        (split_and!; [done|done|done|done| |by apply shape_set_err]);
        by apply (holds_same b'). }
    destruct Hrep as (Hre & Hrc & Hrw & Hrg & Hrh & Hrs).
    split.
    + unfold observe, cbook_length, cbook_words_number, cbook_groups_number.
      rewrite Hre, He. simpl. congruence.
    + by apply (holds_same_texts b (cbook_repair b') ss).
Qed.

Lemma cbook_write_read_back_witness :
  exists b', cbook_write zero_cells (cbook_create true zero_cells) "ab" = Some b'
    /\ (err b' = CERR_NONE ->
        cbook_words_number b' = cbook_words_number (cbook_create true zero_cells) + 1
        /\ cbook_length b'
           = cbook_length (cbook_create true zero_cells) + strlen "ab" + 1
        /\ word_text b' (cbook_words_number (cbook_create true zero_cells))
           = Some (string_of_list_ascii (c_bytes "ab"))
        /\ (Ascii.zero ∉ list_ascii_of_string "ab" ->
            word_text b' (cbook_words_number (cbook_create true zero_cells))
            = Some "ab"%string)
        /\ (forall i,
              0 <= i < cbook_words_number (cbook_create true zero_cells) ->
              word_text b' i = word_text (cbook_create true zero_cells) i))
    /\ (err b' <> CERR_NONE ->
        observe (cbook_repair b') = observe (cbook_create true zero_cells)
        /\ forall i, 0 <= i ->
             word_text (cbook_repair b') i
             = word_text (cbook_create true zero_cells) i).
Proof.
  apply cbook_write_read_back;
    [apply reach_create|reflexivity|vm_compute; discriminate].
Defined.

(** X16: the pops cut the tail only.  [cbook_pop_group] removes the last
    group with its words, [cbook_pop_word] the last word; the words that
    stay read as before. *)
Theorem cbook_pops_keep_the_rest (b : cbook) :
  reachable b -> err b = CERR_NONE ->
  (exists b1, cbook_pop_group b = Some b1
     /\ err b1 = CERR_NONE
     /\ cbook_groups_number b1 = Z.max 0 (cbook_groups_number b - 1)
     /\ cbook_words_number b1 <= cbook_words_number b
     /\ (0 < cbook_groups_number b ->
         cbook_words_number b1 < cbook_words_number b)
     /\ (forall i, 0 <= i < cbook_words_number b1 ->
           word_text b1 i = word_text b i))
  /\ (forall b2, cbook_pop_word b = Some b2 ->
        err b2 = CERR_NONE
        /\ cbook_words_number b2 = Z.max 0 (cbook_words_number b - 1)
        /\ (forall i, 0 <= i < cbook_words_number b2 ->
              word_text b2 i = word_text b i)).
Proof.
  intros Hr He. pose proof (book_reachable_wf b Hr) as Hwf.
  pose proof Hwf as [Hs _].
  pose proof Hs as [_ Hw Hg _ _ _ _ _ _ _ _ _].
  destruct (reachable_holds b Hr) as [ss Hh].
  pose proof (holds_length b ss Hs Hh) as Hlen.
  assert (Hcut : forall b' g w,
    0 <= g < n_words b -> load (words b) g = Some w ->
    words b' = words b -> chars b' = chars b -> n_words b' = g ->
    n_chars b' = w -> wf b' -> err b' = CERR_NONE ->
    forall i, 0 <= i < n_words b' -> word_text b' i = word_text b i).
  { intros b' g w Hgr Hl Hwd Hch Hnw Hnc Hwf' He' i Hi.
    pose proof (holds_cut b b' ss g w Hs Hh Hgr Hl Hwd Hch Hnw Hnc) as Hh'.
    destruct (ss !! Z.to_nat i) as [t|] eqn:Hlk;
      [|apply lookup_ge_None in Hlk; lia].
    rewrite <- (Z2Nat.id i) by lia.
    rewrite (word_text_holds b ss _ t) by done.
    apply (word_text_holds b' (take (Z.to_nat g) ss)); try done;
      [by destruct Hwf'|].
    rewrite lookup_take_lt by lia. done. }
  unfold cbook_groups_number, cbook_words_number. rewrite He. simpl. split.
  - destruct (Z.eq_dec (n_groups b) 0) as [Hz|Hz].
    { exists b. unfold cbook_pop_group. rewrite Hz, He. simpl.
      rewrite ?He, ?Hz. simpl. split_and!; try done; lia. }
    destruct (cbook_pop_group_spec b Hwf He) as (b1 & g & w & Hp & Hwf1 & He1
      & Hlg & Hlw & Hnc & Hnw & Hng & _ & Hwd & _); [lia|].
    destruct (live_groups_last b Hs) as (g' & Hlg' & _ & Hrg & _); [lia|].
    rewrite Hlg in Hlg'. injection Hlg' as <-.
    exists b1. rewrite He1. simpl. split_and!; [done|done|lia|lia|lia|].
    apply (Hcut b1 g w); try done. apply (pop_chars b). by left.
  - intros b2 Hp.
    destruct (Z.eq_dec (n_words b) 0) as [Hz|Hz].
    { unfold cbook_pop_word in Hp. rewrite Hz, He in Hp. simpl in Hp.
      injection Hp as <-. rewrite ?He, ?Hz. simpl. split_and!; try done; lia. }
    destruct (Z.eq_dec (n_groups b) 0) as [Hzg|Hzg].
    { rewrite cbook_pop_word_undefined in Hp by (done || lia). done. }
    destruct (cbook_pop_word_spec b Hwf He) as (b2' & g & w & Hp' & Hwf2 & He2
      & _ & Hlw & Hnc & Hnw & _ & _ & Hwd & _); [lia..|].
    rewrite Hp in Hp'. injection Hp' as <-.
    rewrite He2. simpl. split_and!; [done|lia|].
    apply (Hcut b2 (n_words b - 1) w); try done; [lia|].
    apply (pop_chars b). by right.
Qed.

Lemma run_stays_reachable ops : forall b b',
  reachable b -> Forall typed ops -> run ops b = Some b' -> reachable b'.
Proof.
  induction ops as [|o ops IH]; intros b b' Hr Ht Hrun; simpl in Hrun.
  - by injection Hrun as <-.
  - apply Forall_cons in Ht as [Ho Ht].
    destruct (step o b) as [[b1 v]|] eqn:Hs; [|done]. simpl in Hrun.
    apply (IH b1); [|done..]. by eapply reach_step.
Qed.

Lemma sample_reachable : reachable sample.
Proof.
  apply (run_stays_reachable sample_ops (cbook_create true zero_cells));
    [apply reach_create| |vm_compute; reflexivity].
  repeat constructor; vm_compute; discriminate.
Qed.

Lemma cbook_pops_keep_the_rest_witness :
  (exists b1, cbook_pop_group sample = Some b1
     /\ err b1 = CERR_NONE
     /\ cbook_groups_number b1 = Z.max 0 (cbook_groups_number sample - 1)
     /\ cbook_words_number b1 <= cbook_words_number sample
     /\ (0 < cbook_groups_number sample ->
         cbook_words_number b1 < cbook_words_number sample)
     /\ (forall i, 0 <= i < cbook_words_number b1 ->
           word_text b1 i = word_text sample i))
  /\ (forall b2, cbook_pop_word sample = Some b2 ->
        err b2 = CERR_NONE
        /\ cbook_words_number b2 = Z.max 0 (cbook_words_number sample - 1)
        /\ (forall i, 0 <= i < cbook_words_number b2 ->
              word_text b2 i = word_text sample i)).
Proof.
  apply cbook_pops_keep_the_rest; [exact sample_reachable|reflexivity].
Defined.

(** ** Groups *)

(** A group is a non-empty range of word indices that ends where the next
    group starts, or at the last word. *)
Lemma group_range b g :
  shape b -> 0 <= g < n_groups b ->
  exists start len,
    load (groups b) g = Some start /\ group_size b g = Some len
    /\ 1 <= len /\ 0 <= start /\ start + len <= n_words b
    /\ (g + 1 < n_groups b -> load (groups b) (g + 1) = Some (start + len))
    /\ (g + 1 = n_groups b -> start + len = n_words b).
Proof.
  intros Hs Hg. pose proof (shape_sizes b Hs) as (Hzw & Hzg & _).
  destruct (live_groups_lookup b g Hs Hg) as (start & Hl & Hlv & Hst).
  exists start. unfold group_size. rewrite Hl.
  destruct (Z.leb_spec (n_groups b) g); [lia|].
  rewrite size_wrap_id by lia.
  destruct (Z.eqb_spec g (n_groups b - 1)) as [Hlast|Hmid]; simpl.
  - rewrite size_wrap_id by lia. eexists. split_and!; try done; lia.
  - destruct (live_groups_lookup b (g + 1) Hs) as (nxt & Hl' & Hlv' & Hnx); [lia|].
    rewrite Hl'. simpl.
    assert (start < nxt).
    { destruct Hs. eapply (sorted_lookup_lt (live_groups b)); eauto. lia. }
    rewrite size_wrap_id by lia. eexists. split_and!; try done; try lia.
    intros _. f_equal. lia.
Qed.

(** X17: the groups partition the words.  Every group is a non-empty run
    of consecutive words: it starts where the previous one ends, the last
    one ends at the last word, [cbook_word_index] numbers its words from
    its start, and [cbook_word_in_group] reads the word [cbook_word] reads
    at that index.  Outside of a group the answers are 0 and the empty
    string.  On a book made and used without [cbook_zero] the first group
    starts at word 0, so that every word belongs to a group. *)
Theorem cbook_groups_partition (b : cbook) :
  reachable b -> err b = CERR_NONE ->
  (forall g, 0 <= g < cbook_groups_number b ->
     exists start len,
       cbook_word_index b g 0 = Some start
       /\ cbook_group_length b g = Some len
       /\ 1 <= len /\ 0 <= start /\ start + len <= cbook_words_number b
       /\ (g + 1 < cbook_groups_number b ->
           cbook_word_index b (g + 1) 0 = Some (start + len))
       /\ (g + 1 = cbook_groups_number b ->
           start + len = cbook_words_number b)
       /\ (forall i, 0 <= i < len ->
             cbook_word_index b g i = Some (start + i)
             /\ group_word_text b g i = word_text b (start + i))
       /\ (forall i, len <= i ->
             cbook_word_index b g i = Some 0
             /\ group_word_text b g i = Some EmptyString))
  /\ (forall g i, cbook_groups_number b <= g ->
        cbook_group_length b g = Some 0
        /\ cbook_word_index b g i = Some 0
        /\ group_word_text b g i = Some EmptyString)
  /\ (forall ok o ops,
        Forall typed ops -> Forall not_zero ops ->
        run ops (cbook_create ok o) = Some b ->
        (0 < cbook_words_number b -> 0 < cbook_groups_number b)
        /\ (0 < cbook_groups_number b -> cbook_word_index b 0 0 = Some 0)).
Proof.
  intros Hr He. pose proof (book_reachable_wf b Hr) as Hwf.
  pose proof Hwf as [Hs _]. pose proof (shape_sizes b Hs) as (Hzw & Hzg & _).
  unfold cbook_groups_number, cbook_words_number. rewrite He. simpl.
  assert (Hidx : forall g start len i,
    load (groups b) g = Some start -> group_size b g = Some len ->
    0 <= start -> start + len <= n_words b -> 0 <= i < len ->
    cbook_word_index b g i = Some (start + i)
    /\ group_word_text b g i = word_text b (start + i)).
  { intros g start len i Hl Hsz Hst Hend Hi.
    unfold cbook_word_index, group_word_text, cbook_word_in_group, no_such_word,
      word_text, cbook_word.
    rewrite He, Hsz, Hl. simpl.
    destruct (Z.eqb_spec len 0); [lia|].
    destruct (Z.leb_spec len i); [lia|]. simpl.
    rewrite size_wrap_id by lia.
    destruct (Z.leb_spec (n_words b) (start + i)); [lia|]. done. }
  assert (Hout : forall g len i,
    group_size b g = Some len -> len = 0 \/ len <= i ->
    cbook_word_index b g i = Some 0
    /\ group_word_text b g i = Some EmptyString).
  { intros g len i Hsz Hi.
    unfold cbook_word_index, group_word_text, cbook_word_in_group, no_such_word.
    rewrite He, Hsz. simpl.
    destruct (Z.eqb_spec len 0); [done|].
    destruct (Z.leb_spec len i); [done|lia]. }
  split_and!.
  - intros g Hg.
    destruct (group_range b g Hs Hg)
      as (start & len & Hl & Hsz & Hlen & Hst & Hend & Hnext & Hlast).
    exists start, len. unfold cbook_group_length. rewrite He. simpl.
    destruct (Hidx g start len 0 Hl Hsz Hst Hend) as [Hi0 _]; [lia|].
    rewrite Z.add_0_r in Hi0.
    split_and!; try done.
    + intros Hn.
      destruct (group_range b (g + 1) Hs)
        as (start' & len' & Hl' & Hsz' & Hlen' & Hst' & Hend' & _); [lia|].
      rewrite (Hnext Hn) in Hl'. injection Hl' as <-.
      destruct (Hidx (g + 1) (start + len) len' 0 (Hnext Hn) Hsz') as [Hi1 _];
        [lia..|].
      by rewrite Z.add_0_r in Hi1.
    + intros i Hi. by apply (Hidx g start len i).
    + intros i Hi. apply (Hout g len i); auto.
  - intros g i Hg.
    assert (Hsz : group_size b g = Some 0).
    { unfold group_size. by destruct (Z.leb_spec (n_groups b) g); [|lia]. }
    unfold cbook_group_length. rewrite He. simpl.
    split; [done|]. apply (Hout g 0 i); auto.
  - intros ok o ops Ht Hnz Hrun.
    destruct (run_grouped ops (cbook_create ok o)
                (book_wf_create ok o) (grouped_create ok o) Ht Hnz)
      as (b' & Hrun' & _ & Hgr).
    rewrite Hrun in Hrun'. injection Hrun' as <-. split.
    + intros Hw. by apply grouped_has_group.
    + intros Hg. destruct Hgr as [_ _ Hfirst]. specialize (Hfirst Hg).
      destruct (group_range b 0 Hs)
        as (start & len & Hl & Hsz & Hlen & Hst & Hend & _); [lia|].
      destruct (live_groups_lookup b 0 Hs) as (g0 & Hl0 & Hlv0 & _); [lia|].
      change (Z.to_nat 0) with 0%nat in Hlv0.
      rewrite Hfirst in Hlv0. injection Hlv0 as <-.
      rewrite Hl in Hl0. injection Hl0 as ->.
      destruct (Hidx 0 0 len 0 Hl Hsz) as [Hi0 _]; [lia..|]. done.
Qed.

Lemma cbook_groups_partition_witness :
  exists start len,
    cbook_word_index sample 1 0 = Some start
    /\ cbook_group_length sample 1 = Some len
    /\ 1 <= len /\ 0 <= start /\ start + len <= cbook_words_number sample
    /\ (1 + 1 < cbook_groups_number sample ->
        cbook_word_index sample (1 + 1) 0 = Some (start + len))
    /\ (1 + 1 = cbook_groups_number sample ->
        start + len = cbook_words_number sample)
    /\ (forall i, 0 <= i < len ->
          cbook_word_index sample 1 i = Some (start + i)
          /\ group_word_text sample 1 i = word_text sample (start + i))
    /\ (forall i, len <= i ->
          cbook_word_index sample 1 i = Some 0
          /\ group_word_text sample 1 i = Some EmptyString).
Proof.
  destruct (cbook_groups_partition sample sample_reachable eq_refl) as [H _].
  apply H. vm_compute. split; [discriminate|reflexivity].
Defined.

(** Writes into an open group add words to it. *)
Lemma writes_extend ws : forall b ss,
  wf b -> err b = CERR_NONE -> new_group b = false -> holds b ss ->
  Forall typed (write_all ws) ->
  exists b1, run (write_all ws) b = Some b1 /\ wf b1
    /\ (err b1 = CERR_NONE ->
        holds b1 (ss ++ ((fun w : allocs * string => c_bytes w.2) <$> ws))
        /\ live_groups b1 = live_groups b /\ n_groups b1 = n_groups b
        /\ n_words b1 = n_words b + Z.of_nat (length ws)).
Proof.
  induction ws as [|[o s] ws IH]; intros b ss Hwf He Hng Hh Ht.
  - exists b. cbn [write_all fmap list_fmap run length].
    rewrite app_nil_r. split_and!; [done|done|]. intros _.
    split_and!; try done. lia.
  - unfold write_all in *. rewrite fmap_cons in *. cbn [run step fst snd].
    apply Forall_cons in Ht as [Ho Ht]. simpl in Ho.
    destruct (cbook_write_holds o b s ss Hwf He Ho Hh) as (b' & Hw & Hwf' & Hh' & _).
    destruct (cbook_write_spec o b s Hwf He Ho) as (b'' & Hw' & _ & Hok & _).
    rewrite Hw in Hw'. injection Hw' as <-. rewrite Hw. simpl.
    destruct (failed (err b')) eqn:Hf.
    + fold (write_all ws). rewrite CbookClaims.writes_failed by done.
      exists b'. split_and!; try done. intros He'. by rewrite He' in Hf.
    + apply failed_false in Hf.
      destruct (Hok Hf) as (_ & Hnw & Hgn & Hfl & _ & Hlg).
      rewrite Hng in Hgn, Hlg. rewrite app_nil_r in Hlg.
      rewrite Z.add_0_r in Hgn.
      destruct (IH b' (ss ++ [c_bytes s]) Hwf' Hf Hfl Hh' Ht)
        as (b1 & Hrun & Hwf1 & Hrest).
      exists b1. split_and!; try done. intros He1.
      destruct (Hrest He1) as (Hh1 & Hlg1 & Hgn1 & Hnw1).
      rewrite <- app_assoc in Hh1. simpl in Hh1.
      cbn [negb] in Hgn. split_and!; [done|congruence|lia|cbn [length]; lia].
Qed.

(** X18: [cbook_pop_group] undoes a group.  After [prepare_new_group] and
    any number (at least one) of successful writes, the book has one group
    more; [cbook_pop_group] then restores the byte length, the number of
    words and the number of groups, and every word reads as before. *)
Theorem cbook_pop_group_undoes_group (b : cbook) (w : allocs * string)
    (ws : list (allocs * string)) :
  reachable b -> err b = CERR_NONE -> Forall typed (write_all (w :: ws)) ->
  exists b1, run (PrepareNewGroup :: write_all (w :: ws)) b = Some b1
    /\ (err b1 = CERR_NONE ->
        cbook_groups_number b1 = cbook_groups_number b + 1
        /\ cbook_words_number b1
           = cbook_words_number b + Z.of_nat (length (w :: ws))
        /\ exists b2, cbook_pop_group b1 = Some b2
             /\ observe b2 = observe b
             /\ forall i, 0 <= i -> word_text b2 i = word_text b i).
Proof.
  intros Hr He Ht. pose proof (book_reachable_wf b Hr) as Hwf.
  pose proof Hwf as [Hs _].
  destruct (reachable_holds b Hr) as [ss Hh].
  pose proof (holds_length b ss Hs Hh) as Hlen.
  destruct w as [o s]. unfold write_all in *. rewrite fmap_cons in *.
  cbn [run step fst snd]. unfold cbook_prepare_new_group. rewrite He. simpl.
  apply Forall_cons in Ht as [Ho Ht]. simpl in Ho.
  set (b0 := set_new_group true b).
  assert (Hwf0 : wf b0) by (by apply wf_set_new_group).
  assert (Hh0 : holds b0 ss) by (by apply (holds_same b)).
  destruct (cbook_write_holds o b0 s ss Hwf0 He Ho Hh0)
    as (b' & Hw & Hwf' & Hh' & _).
  destruct (cbook_write_spec o b0 s Hwf0 He Ho) as (b'' & Hw' & _ & Hok & _).
  rewrite Hw in Hw'. injection Hw' as <-. rewrite Hw. simpl.
  fold (write_all ws).
  destruct (failed (err b')) eqn:Hf.
  { rewrite CbookClaims.writes_failed by done.
    exists b'. split; [done|]. intros He'. by rewrite He' in Hf. }
  apply failed_false in Hf.
  destruct (Hok Hf) as (_ & Hnw & Hgn & Hfl & _ & Hlg). simpl in Hnw, Hgn, Hlg.
  change (live_groups b0) with (live_groups b) in Hlg.
  destruct (writes_extend ws b' (ss ++ [c_bytes s]) Hwf' Hf Hfl Hh' Ht)
    as (b1 & Hrun & Hwf1 & Hrest).
  exists b1. split; [done|]. intros He1.
  destruct (Hrest He1) as (Hh1 & Hlg1 & Hgn1 & Hnw1).
  pose proof Hwf1 as [Hs1 _].
  pose proof Hs as [_ Hrw Hrg _ _ _ _ _ _ _ _ _].
  unfold cbook_groups_number, cbook_words_number. rewrite He, He1. simpl.
  split_and!; [lia|cbn [length]; lia|].
  destruct (cbook_pop_group_spec b1 Hwf1 He1) as (b2 & g & wd & Hp & Hwf2 & He2
    & Hlgr & Hlw & Hnc2 & Hnw2 & Hng2 & _ & Hwd2 & _); [lia|].
  assert (Hg : g = n_words b).
  { destruct (live_groups_lookup b1 (n_groups b1 - 1) Hs1) as (g' & Hl' & Hlv' & _);
      [lia|].
    rewrite Hlgr in Hl'. injection Hl' as <-.
    rewrite Hlg1, Hlg in Hlv'.
    pose proof (CbookClaims.live_groups_length b Hs) as Hll.
    rewrite lookup_app_r in Hlv' by lia.
    replace (Z.to_nat (n_groups b1 - 1) - length (live_groups b))%nat
      with 0%nat in Hlv' by lia.
    simpl in Hlv'. congruence. }
  rewrite Hg in *. clear Hg.
  assert (Hh2 : holds b2 ss).
  { replace ss with (take (Z.to_nat (n_words b))
                       ((ss ++ [c_bytes s])
                          ++ ((fun w : allocs * string => c_bytes w.2) <$> ws))).
    - apply (holds_cut b1 b2 _ (n_words b) wd Hs1 Hh1);
        [lia|done|done|apply (pop_chars b1); by left|done|done].
    - rewrite <- app_assoc, <- Hlen. by rewrite take_app_length. }
  exists b2. split; [done|]. split.
  - unfold observe, cbook_length, cbook_words_number, cbook_groups_number.
    rewrite He, He2. simpl.
    destruct Hh as [_ _ _ H4], Hh2 as [_ _ _ H4'].
    rewrite H4, H4', Hnw2, Hng2. f_equal. lia.
  - destruct Hwf2 as [Hs2 _]. by apply (holds_same_texts b b2 ss).
Qed.

Lemma cbook_pop_group_undoes_group_witness :
  exists b1,
    run (PrepareNewGroup :: write_all [(zero_cells, "x"%string); (zero_cells, "yz"%string)])
      sample = Some b1
    /\ (err b1 = CERR_NONE ->
        cbook_groups_number b1 = cbook_groups_number sample + 1
        /\ cbook_words_number b1
           = cbook_words_number sample
             + Z.of_nat (length [(zero_cells, "x"%string); (zero_cells, "yz"%string)])
        /\ exists b2, cbook_pop_group b1 = Some b2
             /\ observe b2 = observe sample
             /\ forall i, 0 <= i -> word_text b2 i = word_text sample i).
Proof.
  apply (cbook_pop_group_undoes_group sample (zero_cells, "x"%string)
           [(zero_cells, "yz"%string)]).
  - exact sample_reachable.
  - reflexivity.
  - repeat constructor; vm_compute; discriminate.
Defined.

(** ** Clones and reserved storage *)

Lemma load_live_groups b i :
  shape b -> 0 <= i < n_groups b ->
  load (groups b) i = live_groups b !! Z.to_nat i.
Proof.
  intros Hs Hi. destruct (live_groups_lookup b i Hs Hi) as (g & -> & -> & _). done.
Qed.

Lemma same_group_reads b b' :
  shape b -> shape b' -> err b = CERR_NONE -> err b' = CERR_NONE ->
  live_groups b' = live_groups b -> n_groups b' = n_groups b ->
  n_words b' = n_words b ->
  forall g i, 0 <= g ->
    cbook_group_length b' g = cbook_group_length b g
    /\ cbook_word_index b' g i = cbook_word_index b g i.
Proof.
  intros Hs Hs' He He' Hlg Hng Hnw g i Hg.
  pose proof (shape_sizes b Hs) as (_ & Hzg & _).
  assert (Hsz : group_size b' g = group_size b g).
  { unfold group_size. rewrite Hng, Hnw.
    destruct (Z.leb_spec (n_groups b) g); [done|].
    rewrite size_wrap_id by (destruct Hs; lia).
    rewrite (load_live_groups b g), (load_live_groups b' g), Hlg by (done || lia).
    destruct (Z.eqb_spec g (n_groups b - 1)); [done|].
    rewrite (load_live_groups b (g + 1)), (load_live_groups b' (g + 1)), Hlg
      by (done || lia). done. }
  unfold cbook_group_length, cbook_word_index, no_such_word.
  rewrite He, He', Hsz. simpl. split; [done|].
  destruct (group_size b g) as [len|] eqn:Hgs; [|done]. simpl.
  destruct ((len =? 0) || (len <=? i)) eqn:Hbad; [done|].
  assert (g < n_groups b).
  { unfold group_size in Hgs. destruct (Z.leb_spec (n_groups b) g); [|done].
    injection Hgs as <-. done. }
  by rewrite (load_live_groups b g), (load_live_groups b' g), Hlg by (done || lia).
Qed.

(** Static [grow] succeeds when the sizes fit and the allocator gives what
    is asked for; it fails when a needed block is refused. *)
Lemma grow_ok o b c w g :
  is_Some (for_chars o) -> is_Some (for_words o) -> is_Some (for_groups o) ->
  w * sizeof_size_t <= SIZE_MAX -> g * sizeof_size_t <= SIZE_MAX ->
  (grow o b c w g).2 = true.
Proof.
  intros [jc Hc] [jw Hw] [jg Hg] Hsw Hsg.
  unfold grow, grow_chars, grow_words, grow_groups, realloc.
  rewrite Hc, Hw, Hg.
  destruct (safe_mul w sizeof_size_t) eqn:H1; [|apply safe_mul_None in H1; lia].
  destruct (safe_mul g sizeof_size_t) eqn:H2; [|apply safe_mul_None in H2; lia].
  destruct (n_alloc_chars b <? c); simpl;
    (destruct (_ <? w); simpl; (destruct (_ <? g); done)).
Qed.

Lemma grow_refused o b c w g :
  n_alloc_chars b < c -> n_alloc_words b < w -> n_alloc_groups b < g ->
  for_chars o = None \/ for_words o = None \/ for_groups o = None ->
  (grow o b c w g).2 = false.
Proof.
  intros Hc Hw Hg Hno.
  unfold grow, grow_chars, grow_words, grow_groups, realloc.
  destruct (safe_mul w sizeof_size_t); [|done].
  destruct (safe_mul g sizeof_size_t); [|done].
  destruct (Z.ltb_spec (n_alloc_chars b) c); [|lia].
  destruct (for_chars o); simpl; [|done].
  destruct (Z.ltb_spec (n_alloc_words b) w); [|lia].
  destruct (for_words o); simpl; [|done].
  destruct (Z.ltb_spec (n_alloc_groups b) g); [|lia].
  destruct (for_groups o); simpl; [|done].
  destruct Hno as [?|[?|?]]; done.
Qed.

(** X19: a clone of an error-free book made with successful allocations
    is an error-free book with the same lengths, words and groups; in every
    other case (the original has an error set, or an allocation fails) the
    result is the placeholder. *)
Theorem cbook_clone_same (b : cbook) (ok : bool) (o : allocs) :
  reachable b ->
  exists b', cbook_clone ok o b = Some b'
    /\ (err b = CERR_NONE -> ok = true ->
        is_Some (for_chars o) -> is_Some (for_words o) ->
        is_Some (for_groups o) ->
        err b' = CERR_NONE
        /\ observe b' = observe b
        /\ (forall i, 0 <= i -> word_text b' i = word_text b i)
        /\ (forall g i, 0 <= g ->
              cbook_group_length b' g = cbook_group_length b g
              /\ cbook_word_index b' g i = cbook_word_index b g i))
    /\ (err b <> CERR_NONE \/ ok = false \/ for_chars o = None
        \/ for_words o = None \/ for_groups o = None ->
        b' = cbook_placeholder_instance).
Proof.
  intros Hr. pose proof (book_reachable_wf b Hr) as Hwf.
  pose proof Hwf as [Hs _].
  destruct (reachable_holds b Hr) as [ss Hh].
  destruct (cbook_clone_spec ok o b Hwf) as (b' & Hc & Hwf' & _).
  destruct (cbook_clone_holds ok o b ss b' Hwf Hh Hc) as [Hpl|Hsame].
  - exists b'. split; [done|]. split; [|done].
    intros He -> Hoc How Hog. exfalso.
    destruct (wf_alloc_pos b Hwf He) as (? & ? & ?).
    pose proof Hs as [_ _ _ _ _ _ _ Hzw Hzg _ _ _].
    pose proof (grow_ok o calloc_instance (n_alloc_chars b) (n_alloc_words b)
                  (n_alloc_groups b) Hoc How Hog Hzw Hzg) as Hg.
    unfold cbook_clone in Hc. rewrite He in Hc. simpl in Hc.
    destruct (grow o calloc_instance _ _ _) as [b1 [|]]; [|done].
    destruct (region (chars b) _) as [x1|]; [|done]. simpl in Hc.
    destruct (memcpy_at (chars b1) 0 x1) as [y1|]; [|done]. simpl in Hc.
    destruct (region (words b) _) as [x2|]; [|done]. simpl in Hc.
    destruct (memcpy_at (words b1) 0 x2) as [y2|]; [|done]. simpl in Hc.
    destruct (region (groups b) _) as [x3|]; [|done]. simpl in Hc.
    destruct (memcpy_at (groups b1) 0 x3) as [y3|]; [|done]. simpl in Hc.
    injection Hc as <-. done.
  - destruct Hsame as (He & He' & Hh' & Hlg & Hng & Hnw & Hnc & Hfl).
    pose proof Hwf' as [Hs' _].
    exists b'. split; [done|]. split.
    + intros _ _ _ _ _. split_and!; [done| | |].
      * unfold observe, cbook_length, cbook_words_number, cbook_groups_number.
        rewrite He, He'. simpl. congruence.
      * by apply (holds_same_texts b b' ss).
      * by apply same_group_reads.
    + intros Hbad. exfalso.
      destruct (wf_alloc_pos b Hwf He) as (? & ? & ?).
      unfold cbook_clone in Hc. rewrite He in Hc. simpl in Hc.
      destruct Hbad as [?|[->|Hno]]; [done| |].
      { simpl in Hc. injection Hc as <-. done. }
      destruct ok; simpl in Hc; [|injection Hc as <-; done].
      rewrite (surjective_pairing (grow o calloc_instance _ _ _)) in Hc.
      rewrite grow_refused in Hc by (simpl; done || lia).
      injection Hc as <-. done.
Qed.

Lemma cbook_clone_same_witness :
  exists b', cbook_clone true zero_cells sample = Some b'
    /\ (err sample = CERR_NONE -> true = true ->
        is_Some (for_chars zero_cells) -> is_Some (for_words zero_cells) ->
        is_Some (for_groups zero_cells) ->
        err b' = CERR_NONE
        /\ observe b' = observe sample
        /\ (forall i, 0 <= i -> word_text b' i = word_text sample i)
        /\ (forall g i, 0 <= g ->
              cbook_group_length b' g = cbook_group_length sample g
              /\ cbook_word_index b' g i = cbook_word_index sample g i))
    /\ (err sample <> CERR_NONE \/ true = false \/ for_chars zero_cells = None
        \/ for_words zero_cells = None \/ for_groups zero_cells = None ->
        b' = cbook_placeholder_instance).
Proof. apply cbook_clone_same. exact sample_reachable. Defined.

Lemma fit_chars_room fuel ns nc nch :
  0 <= nc - nch <= SIZE_MAX -> ns <= nc - nch ->
  fit_chars fuel ns nc nch = Some (Some nc).
Proof.
  intros Hr Hfit. destruct fuel; simpl; rewrite size_wrap_id by lia;
    by destruct (Z.ltb_spec (nc - nch) ns); [lia|].
Qed.

Lemma grow_nothing o b c w g :
  c <= n_alloc_chars b -> w <= n_alloc_words b -> g <= n_alloc_groups b ->
  w * sizeof_size_t <= SIZE_MAX -> g * sizeof_size_t <= SIZE_MAX ->
  grow o b c w g = (b, true).
Proof.
  intros Hc Hw Hg Hsw Hsg. unfold grow, grow_chars, grow_words, grow_groups.
  destruct (safe_mul w sizeof_size_t) eqn:H1; [|apply safe_mul_None in H1; lia].
  destruct (safe_mul g sizeof_size_t) eqn:H2; [|apply safe_mul_None in H2; lia].
  destruct (Z.ltb_spec (n_alloc_chars b) c); [lia|]. simpl.
  destruct (Z.ltb_spec (n_alloc_words b) w); [lia|]. simpl.
  destruct (Z.ltb_spec (n_alloc_groups b) g); [lia|]. done.
Qed.

(** X20: reserved storage is enough.  A write that fits the storage the
    book already has (room for the bytes with the terminator, a free word
    slot and a free group slot) allocates nothing: it succeeds even when
    the allocator refuses every request, and leaves the three capacities
    as they are.  [cbook_prealloc] never shrinks a capacity; when it
    succeeds the capacities are at least what was asked for, and the
    lengths and the words are untouched. *)
Theorem cbook_reserved_is_enough (b : cbook) (o : allocs) (s : string)
    (c w g : Z) :
  reachable b -> err b = CERR_NONE -> strlen s + 1 <= SIZE_MAX ->
  0 <= c <= SIZE_MAX -> 0 <= w <= SIZE_MAX -> 0 <= g <= SIZE_MAX ->
  (cbook_length b + strlen s + 1 <= n_alloc_chars b ->
   cbook_words_number b < n_alloc_words b ->
   cbook_groups_number b < n_alloc_groups b ->
   exists b', cbook_write no_memory b s = Some b'
     /\ err b' = CERR_NONE
     /\ n_alloc_chars b' = n_alloc_chars b
     /\ n_alloc_words b' = n_alloc_words b
     /\ n_alloc_groups b' = n_alloc_groups b)
  /\ (n_alloc_chars b <= n_alloc_chars (cbook_prealloc o b c w g)
      /\ n_alloc_words b <= n_alloc_words (cbook_prealloc o b c w g)
      /\ n_alloc_groups b <= n_alloc_groups (cbook_prealloc o b c w g))
  /\ (err (cbook_prealloc o b c w g) = CERR_NONE ->
      c <= n_alloc_chars (cbook_prealloc o b c w g)
      /\ w <= n_alloc_words (cbook_prealloc o b c w g)
      /\ g <= n_alloc_groups (cbook_prealloc o b c w g)
      /\ observe (cbook_prealloc o b c w g) = observe b
      /\ forall i, 0 <= i ->
           word_text (cbook_prealloc o b c w g) i = word_text b i).
Proof.
  intros Hr He Ht Hc Hw Hg. pose proof (book_reachable_wf b Hr) as Hwf.
  pose proof Hwf as [Hs _].
  pose proof Hs as [Hnc Hnw Hng Hlc Hlw Hlg Hzc Hzw Hzg _ _ _].
  pose proof (strlen_nonneg s) as Hsl.
  destruct (reachable_holds b Hr) as [ss Hh].
  split; [|split].
  - unfold cbook_length, cbook_words_number, cbook_groups_number.
    rewrite He. simpl. intros Hfc Hfw Hfg.
    destruct (cbook_write_spec no_memory b s Hwf He Ht) as (b' & Hwr & _ & _ & _).
    exists b'. split; [done|].
    unfold cbook_write in Hwr. rewrite He in Hwr. cbn [failed] in Hwr.
    rewrite (size_wrap_id (strlen s + 1)) in Hwr by lia.
    rewrite fit_chars_room in Hwr by lia. simpl in Hwr.
    destruct (Z.leb_spec (n_alloc_words b) (n_words b)); [lia|].
    destruct (Z.leb_spec (n_alloc_groups b) (n_groups b)); [lia|].
    rewrite !Z.mul_1_r in Hwr.
    rewrite (size_wrap_id (n_alloc_words b)) in Hwr
      by (unfold sizeof_size_t in *; lia).
    rewrite (size_wrap_id (n_alloc_groups b)) in Hwr
      by (unfold sizeof_size_t in *; lia).
    rewrite grow_nothing in Hwr by (done || lia). simpl in Hwr.
    assert (Hb2 : exists b2,
      (if new_group b
       then tmp ← store (groups b) (n_groups b) (n_words b);
            Some (set_new_group false
                    (set_n_groups (size_wrap (n_groups b + 1)) (set_groups tmp b)))
       else Some b) = Some b2
      /\ err b2 = err b /\ n_alloc_chars b2 = n_alloc_chars b
      /\ n_alloc_words b2 = n_alloc_words b
      /\ n_alloc_groups b2 = n_alloc_groups b).
    { destruct (new_group b); [|by exists b].
      destruct (store _ _ _) as [tmp|]; [|done]. by eexists. }
    destruct Hb2 as (b2 & Hb2 & He2 & Hc2 & Hw2 & Hg2).
    rewrite Hb2 in Hwr. simpl in Hwr.
    destruct (memcpy_at _ _ _) as [tmp_c|]; [|done]. simpl in Hwr.
    destruct (store (words b2) _ _) as [tmp_w|]; [|done]. simpl in Hwr.
    injection Hwr as <-. simpl. rewrite He2, Hc2, Hw2, Hg2. done.
  - unfold cbook_prealloc. rewrite He. simpl.
    destruct (book_grow_spec o b c w g Hs) as (_ & Hfr & _); [lia..|].
    destruct Hfr as [_ _ _ _ _ _ F1 F2 F3]. split_and!; assumption.
  - unfold cbook_prealloc. rewrite He. simpl. intros He'.
    destruct (book_grow_spec o b c w g Hs) as (Hs' & Hfr & Hcase); [lia..|].
    pose proof (grow_prefix o b c w g (Z.to_nat (n_chars b)) Hlc) as Hp.
    destruct (grow o b c w g) as [b' [|]]; simpl in *.
    + destruct Hcase as (_ & ? & ? & ?). destruct Hfr.
      split_and!; [done..| |].
      * unfold observe, cbook_length, cbook_words_number, cbook_groups_number.
        rewrite He, He'. simpl. congruence.
      * apply (holds_same_texts b b' ss); try done.
        apply (holds_same b); try done. apply Hp. lia.
    + destruct Hcase as [->|Hm]; [done|congruence].
Qed.

Lemma cbook_reserved_is_enough_witness :
  exists b',
    cbook_write no_memory (cbook_prealloc zero_cells sample 64 8 4) "efg" = Some b'
    /\ err b' = CERR_NONE
    /\ n_alloc_chars b' = n_alloc_chars (cbook_prealloc zero_cells sample 64 8 4)
    /\ n_alloc_words b' = n_alloc_words (cbook_prealloc zero_cells sample 64 8 4)
    /\ n_alloc_groups b'
       = n_alloc_groups (cbook_prealloc zero_cells sample 64 8 4).
Proof.
  destruct (cbook_reserved_is_enough
              (cbook_prealloc zero_cells sample 64 8 4) zero_cells "efg" 0 0 0)
    as (H & _).
  - apply (reach_step sample (Prealloc zero_cells 64 8 4) _ RVoid);
      [exact sample_reachable|simpl; unfold SIZE_MAX; lia|reflexivity].
  - reflexivity.
  - vm_compute. discriminate.
  - unfold SIZE_MAX. lia.
  - unfold SIZE_MAX. lia.
  - unfold SIZE_MAX. lia.
  - apply H; vm_compute; (reflexivity || discriminate).
Defined.

(** X21: [cbook_zero] wipes the whole byte buffer.  Afterwards the book is
    empty with its capacities unchanged, every byte of the buffer is NUL,
    and every position of the buffer reads as the empty string, so that no
    pointer obtained before still shows a word; [cbook_clear] leaves the
    bytes where they are. *)
Theorem cbook_zero_wipes (b : cbook) :
  reachable b -> err b = CERR_NONE ->
  exists b', cbook_zero b = Some b'
    /\ err b' = CERR_NONE
    /\ observe b' = (0, 0, 0)
    /\ n_alloc_chars b' = n_alloc_chars b
    /\ n_alloc_words b' = n_alloc_words b
    /\ n_alloc_groups b' = n_alloc_groups b
    /\ Z.of_nat (length (chars b')) = n_alloc_chars b
    /\ Forall (fun c => c = Ascii.zero) (chars b')
    /\ (forall off, 0 <= off < n_alloc_chars b ->
          deref b' (Chars off) = Some EmptyString)
    /\ chars (cbook_clear b) = chars b.
Proof.
  intros Hr He. pose proof (book_reachable_wf b Hr) as Hwf.
  pose proof Hwf as [Hs _].
  pose proof Hs as [_ _ _ Hlc _ _ _ _ _ _ _ _].
  destruct (cbook_zero_spec b Hwf He) as [Hz _]. rewrite Hz.
  eexists; split; [reflexivity|]. simpl.
  split_and!; try done.
  - unfold observe, cbook_length, cbook_words_number, cbook_groups_number.
    simpl. by rewrite He.
  - rewrite length_replicate. lia.
  - apply Forall_replicate. done.
  - intros off Hoff. unfold string_at.
    destruct (Z.ltb_spec off 0); [lia|].
    rewrite drop_replicate.
    destruct (Z.to_nat (n_alloc_chars b) - Z.to_nat off)%nat eqn:Hn; [lia|].
    done.
  - unfold cbook_clear. by rewrite He.
Qed.

Lemma cbook_zero_wipes_witness :
  exists b', cbook_zero sample = Some b'
    /\ err b' = CERR_NONE
    /\ observe b' = (0, 0, 0)
    /\ n_alloc_chars b' = n_alloc_chars sample
    /\ n_alloc_words b' = n_alloc_words sample
    /\ n_alloc_groups b' = n_alloc_groups sample
    /\ Z.of_nat (length (chars b')) = n_alloc_chars sample
    /\ Forall (fun c => c = Ascii.zero) (chars b')
    /\ (forall off, 0 <= off < n_alloc_chars sample ->
          deref b' (Chars off) = Some EmptyString)
    /\ chars (cbook_clear sample) = chars sample.
Proof. apply cbook_zero_wipes; [exact sample_reachable|reflexivity]. Defined.

End CbookProps.

(** * Properties shared by the three containers *)

Module SharedProps.

(** On an invalid instance every call does nothing, [repair] included. *)
Lemma cinputs_step_invalid o c :
  Cinputs.err c = CERR_INVALID ->
  Cinputs.step o c = Some (c, Cinputs.default_ret o c).
Proof.
  intros He. destruct (Cinputs.error_control o) eqn:Hc.
  - destruct o; try discriminate Hc; simpl; [done|].
    unfold Cinputs.cinputs_repair. by rewrite He.
  - apply SharedClaims.cinputs_step_failed; [by rewrite He|done].
Qed.

Lemma cref_step_invalid o r :
  Cref.err r = CERR_INVALID ->
  Cref.step o r = Some (r, Cref.default_ret o r).
Proof.
  intros He. destruct (Cref.error_control o) eqn:Hc.
  - destruct o; try discriminate Hc; simpl; [done|].
    unfold Cref.cref_repair. by rewrite He.
  - apply SharedClaims.cref_step_failed; [by rewrite He|done].
Qed.

Lemma cbook_step_invalid o b :
  Cbook.err b = CERR_INVALID ->
  Cbook.step o b = Some (b, Cbook.default_ret o b).
Proof.
  intros He. destruct (Cbook.error_control o) eqn:Hc.
  - destruct o; try discriminate Hc; simpl; [done|].
    unfold Cbook.cbook_repair. by rewrite He.
  - apply SharedClaims.cbook_step_failed; [by rewrite He|done].
Qed.

Lemma run_invalid_cinputs ops c :
  Cinputs.err c = CERR_INVALID -> Cinputs.run ops c = Some c.
Proof.
  intros He. induction ops as [|o ops IH]; simpl; [done|].
  by rewrite cinputs_step_invalid.
Qed.

Lemma run_invalid_cref ops r :
  Cref.err r = CERR_INVALID -> Cref.run ops r = Some r.
Proof.
  intros He. induction ops as [|o ops IH]; simpl; [done|].
  by rewrite cref_step_invalid.
Qed.

Lemma run_invalid_cbook ops b :
  Cbook.err b = CERR_INVALID -> Cbook.run ops b = Some b.
Proof.
  intros He. induction ops as [|o ops IH]; simpl; [done|].
  by rewrite cbook_step_invalid.
Qed.

(** The only invalid instance a program can hold is the placeholder. *)
Lemma cinputs_invalid_placeholder c :
  Cinputs.reachable c -> Cinputs.err c = CERR_INVALID ->
  c = Cinputs.cinputs_placeholder_instance.
Proof.
  intros Hr He. destruct (CinputsProps.reachable_cases c Hr) as [->|[_ ?]]; done.
Qed.

Lemma cref_clone_cases ok o r r' :
  Cref.cref_clone ok o r = Some r' ->
  r' = Cref.cref_placeholder_instance \/ Cref.err r' = CERR_NONE.
Proof.
  unfold Cref.cref_clone. destruct (_ || _); [intros [= <-]; by left|].
  destruct (Cref.grow o _ _) as [g [|]]; [|intros [= <-]; by left].
  destruct (region _ _); [|done]. simpl.
  destruct (memcpy_at _ _ _); [|done]. simpl. intros [= <-]. by right.
Qed.

Lemma cref_step_not_invalid o r r' v :
  Cref.wf r -> Cref.typed o -> Cref.step o r = Some (r', v) ->
  Cref.err r <> CERR_INVALID -> Cref.err r' <> CERR_INVALID.
Proof.
  intros Hwf Ht Hs Hinv.
  destruct (failed (Cref.err r)) eqn:Hf.
  { destruct (Cref.error_control o) eqn:Hc.
    - destruct o; try discriminate Hc; simpl in Hs; injection Hs as <- _; [done|].
      unfold Cref.cref_repair. destruct (cerr_eqb _ _); done.
    - rewrite SharedClaims.cref_step_failed in Hs by done.
      by injection Hs as <- _. }
  apply failed_false in Hf.
  pose proof (CrefFacts.ref_range r Hwf) as Hrg.
  pose proof (CrefFacts.ref_live_length r Hwf) as Hll.
  destruct o; simpl in Hs, Ht.
  - injection Hs as <- _. unfold Cref.cref_clear. by rewrite Hf.
  - destruct (Cref.cref_clone calloc_ok o r); [|done]. by injection Hs as <- _.
  - destruct (Cref.cref_count r index); [|done]. by injection Hs as <- _.
  - by injection Hs as <- _.
  - destruct (Cref.cref_find r ptr'); [|done]. by injection Hs as <- _.
  - by injection Hs as <- _.
  - injection Hs as <- _. unfold Cref.cref_prealloc. rewrite Hf. simpl.
    destruct (CrefFacts.grow_wf o r slots_number Hwf Hf) as (_ & _ & _ & _ & Hc);
      [lia|].
    destruct (Cref.grow o r slots_number) as [g [|]]; simpl in *.
    + destruct Hc as [-> _]. done.
    + destruct Hc as [-> | ->]; done.
  - destruct (Cref.cref_ptr r index); [|done]. by injection Hs as <- _.
  - destruct (Z.le_gt_cases (Cref.n r) index).
    + destruct (CrefFacts.ref_out_of_range r index) as (Hp & _); [by right|].
      rewrite Hp in Hs. by injection Hs as <- _.
    + destruct (Cref.live r !! Z.to_nat index) as [s|] eqn:Hlk;
        [|apply lookup_ge_None in Hlk; lia].
      destruct (CrefFacts.cref_pull_index_spec r index s Hwf Hf)
        as (r1 & Hp & _ & He1 & _); [lia|done|].
      rewrite Hp in Hs. simpl in Hs. injection Hs as <- _. congruence.
  - destruct (CrefFacts.cref_pull_ptr_spec r ptr' Hwf Hf) as (r1 & Hp & _ & He1 & _).
    rewrite Hp in Hs. simpl in Hs. injection Hs as <- _. congruence.
  - destruct (Z.le_gt_cases (Cref.n r) index).
    + destruct (CrefFacts.ref_out_of_range r index) as (_ & Hp & _); [by right|].
      rewrite Hp in Hs. by injection Hs as <- _.
    + destruct (CrefFacts.cref_purge_index_spec r index Hwf Hf)
        as (r1 & Hp & _ & _ & He1); [lia|].
      rewrite Hp in Hs. simpl in Hs. injection Hs as <- _. congruence.
  - destruct (CrefFacts.cref_purge_ptr_spec r ptr' Hwf Hf) as (r1 & Hp & _ & He1 & _).
    rewrite Hp in Hs. simpl in Hs. injection Hs as <- _. congruence.
  - destruct (CrefFacts.cref_push_spec o r ptr' Hwf Hf) as (r1 & Hp & _ & _ & Hbad).
    rewrite Hp in Hs. injection Hs as <- _.
    destruct (Cref.err r1) eqn:He1; try done.
    destruct Hbad as [-> | ->]; [done|simpl in He1; done..].
  - injection Hs as <- _. unfold Cref.cref_repair. by rewrite Hf.
  - injection Hs as <- _. unfold Cref.cref_set_default_ptr. by rewrite Hf.
Qed.

Lemma cref_invalid_placeholder r :
  Cref.reachable r -> Cref.err r = CERR_INVALID ->
  r = Cref.cref_placeholder_instance.
Proof.
  induction 1 as [ok o|r ok o r' Hr IH Hc|r o r' v Hr IH Ht Hs]; intros He.
  - unfold Cref.cref_create in *. destruct ok; [|done]. simpl in *.
    by destruct (Cref.grow o _ 1) as [g [|]].
  - destruct (cref_clone_cases ok o r r' Hc) as [->|He']; [done|congruence].
  - destruct (Cref.err r) eqn:Her;
      try (exfalso;
           eapply (cref_step_not_invalid o r r' v);
           eauto using CrefFacts.ref_reachable_wf; congruence).
    specialize (IH eq_refl). subst r.
    rewrite cref_step_invalid in Hs by done. by injection Hs as <- _.
Qed.

Lemma cbook_step_not_invalid o b b' v :
  Cbook.reachable b -> Cbook.typed o -> Cbook.step o b = Some (b', v) ->
  Cbook.err b <> CERR_INVALID -> Cbook.err b' <> CERR_INVALID.
Proof.
  intros Hr Ht Hs Hinv. pose proof (CbookFacts.book_reachable_wf b Hr) as Hwf.
  destruct (failed (Cbook.err b)) eqn:Hf.
  { destruct (Cbook.error_control o) eqn:Hc.
    - destruct o; try discriminate Hc; simpl in Hs; injection Hs as <- _; [done|].
      unfold Cbook.cbook_repair. destruct (cerr_eqb _ _); done.
    - rewrite SharedClaims.cbook_step_failed in Hs by done.
      by injection Hs as <- _. }
  apply failed_false in Hf.
  destruct (Cbook.reads o) eqn:Hro.
  { by rewrite (CbookGroups.step_reads o b b' v Hro Hs). }
  pose proof Hwf as [Hsh _].
  pose proof Hsh as [_ Hw Hg _ _ _ _ _ _ _ _ _].
  destruct o; try discriminate Hro; simpl in Hs, Ht.
  - injection Hs as <- _. unfold Cbook.cbook_clear. by rewrite Hf.
  - destruct (Z.eq_dec (Cbook.n_groups b) 0) as [Hz|Hz].
    { unfold Cbook.cbook_pop_group in Hs. rewrite Hz, Hf in Hs.
      by injection Hs as <- _. }
    destruct (CbookFacts.cbook_pop_group_spec b Hwf Hf)
      as (b1 & g & w & Hp & _ & He1 & _); [lia|].
    rewrite Hp in Hs. simpl in Hs. injection Hs as <- _. congruence.
  - destruct (Z.eq_dec (Cbook.n_words b) 0) as [Hz|Hz].
    { unfold Cbook.cbook_pop_word in Hs. rewrite Hz, Hf in Hs.
      by injection Hs as <- _. }
    destruct (Z.eq_dec (Cbook.n_groups b) 0) as [Hzg|Hzg].
    { rewrite CbookFacts.cbook_pop_word_undefined in Hs by (done || lia). done. }
    destruct (CbookFacts.cbook_pop_word_spec b Hwf Hf)
      as (b1 & g & w & Hp & _ & He1 & _); [lia..|].
    rewrite Hp in Hs. simpl in Hs. injection Hs as <- _. congruence.
  - injection Hs as <- _. unfold Cbook.cbook_prealloc. rewrite Hf. simpl.
    destruct (CbookProps.grow_fields o b bytes_number words_number groups_number)
      as (_ & _ & _ & _ & Hok & Hbad).
    destruct (Cbook.grow o b _ _ _) as [b1 [|]]; simpl in *.
    + by rewrite Hok, Hf.
    + destruct (Hbad eq_refl) as [-> | ->]; done.
  - injection Hs as <- _. unfold Cbook.cbook_prepare_new_group. by rewrite Hf.
  - injection Hs as <- _. unfold Cbook.cbook_repair. by rewrite Hf.
  - injection Hs as <- _. unfold Cbook.cbook_undo_new_group.
    by destruct (_ || _).
  - destruct (CbookProps.reachable_holds b Hr) as [ss Hh].
    destruct (CbookProps.cbook_write_holds o b str ss Hwf Hf Ht Hh)
      as (b1 & Hw1 & _ & _ & Hn).
    rewrite Hw1 in Hs. by injection Hs as <- _.
  - destruct (CbookFacts.cbook_zero_spec b Hwf Hf) as [Hz _]. rewrite Hz in Hs.
    injection Hs as <- _. simpl. by rewrite Hf.
Qed.

Lemma cbook_invalid_placeholder b :
  Cbook.reachable b -> Cbook.err b = CERR_INVALID ->
  b = Cbook.cbook_placeholder_instance.
Proof.
  induction 1 as [ok o|b ok o b' Hr IH Hc|b o b' v Hr IH Ht Hs]; intros He.
  - unfold Cbook.cbook_create in *. destruct ok; [|done]. simpl in *.
    by destruct (Cbook.grow o _ 1 1 1) as [g [|]].
  - destruct (CbookProps.reachable_holds b Hr) as [ss Hh].
    destruct (CbookProps.cbook_clone_holds ok o b ss b'
                (CbookFacts.book_reachable_wf b Hr) Hh Hc)
      as [->|(_ & He' & _)]; [done|congruence].
  - destruct (Cbook.err b) eqn:Heb;
      try (exfalso; eapply (cbook_step_not_invalid o b b' v); eauto; congruence).
    specialize (IH eq_refl). subst b.
    rewrite cbook_step_invalid in Hs by done. by injection Hs as <- _.
Qed.

(** X22: the placeholder is final.  The only instance with the error
    INVALID that a program can hold is the placeholder, which [create]
    returns when an allocation fails (and [cinputs_create] when the
    capacity asked for is 0); on it every call, [repair] included, changes
    nothing and returns its default value, so that no sequence of calls
    makes it usable. *)
Theorem placeholder_is_final :
  (forall c, Cinputs.reachable c -> Cinputs.err c = CERR_INVALID ->
     c = Cinputs.cinputs_placeholder_instance)
  /\ (forall r, Cref.reachable r -> Cref.err r = CERR_INVALID ->
        r = Cref.cref_placeholder_instance)
  /\ (forall b, Cbook.reachable b -> Cbook.err b = CERR_INVALID ->
        b = Cbook.cbook_placeholder_instance)
  /\ (forall o ops,
        Cinputs.step o Cinputs.cinputs_placeholder_instance
        = Some (Cinputs.cinputs_placeholder_instance,
                Cinputs.default_ret o Cinputs.cinputs_placeholder_instance)
        /\ Cinputs.run ops Cinputs.cinputs_placeholder_instance
           = Some Cinputs.cinputs_placeholder_instance)
  /\ (forall o ops,
        Cref.step o Cref.cref_placeholder_instance
        = Some (Cref.cref_placeholder_instance,
                Cref.default_ret o Cref.cref_placeholder_instance)
        /\ Cref.run ops Cref.cref_placeholder_instance
           = Some Cref.cref_placeholder_instance)
  /\ (forall o ops,
        Cbook.step o Cbook.cbook_placeholder_instance
        = Some (Cbook.cbook_placeholder_instance,
                Cbook.default_ret o Cbook.cbook_placeholder_instance)
        /\ Cbook.run ops Cbook.cbook_placeholder_instance
           = Some Cbook.cbook_placeholder_instance)
  /\ (forall ok o m,
        ok = false \/ o = None \/ m = 0 ->
        Cinputs.cinputs_create ok o m = Cinputs.cinputs_placeholder_instance)
  /\ (forall ok o,
        ok = false \/ o = None ->
        Cref.cref_create ok o = Cref.cref_placeholder_instance)
  /\ (forall ok o,
        ok = false \/ Cbook.for_chars o = None \/ Cbook.for_words o = None
        \/ Cbook.for_groups o = None ->
        Cbook.cbook_create ok o = Cbook.cbook_placeholder_instance).
Proof.
  split_and!.
  - apply cinputs_invalid_placeholder.
  - apply cref_invalid_placeholder.
  - apply cbook_invalid_placeholder.
  - intros o ops. split; [by apply cinputs_step_invalid|by apply run_invalid_cinputs].
  - intros o ops. split; [by apply cref_step_invalid|by apply run_invalid_cref].
  - intros o ops. split; [by apply cbook_step_invalid|by apply run_invalid_cbook].
  - intros ok o m Hbad. unfold Cinputs.cinputs_create, Cinputs.resize.
    destruct ok; [|done]. simpl.
    destruct Hbad as [?|[-> | ->]]; [done| |done].
    destruct (m =? 0); [done|].
    by destruct (safe_mul m Cinputs.sizeof_slot).
  - intros ok o Hbad. unfold Cref.cref_create. destruct ok; [|done]. simpl.
    destruct Hbad as [?| ->]; done.
  - intros ok o Hbad. unfold Cbook.cbook_create. destruct ok; [|done]. simpl.
    destruct Hbad as [?|Hbad]; [done|].
    rewrite (surjective_pairing (Cbook.grow o Cbook.calloc_instance 1 1 1)).
    by rewrite CbookProps.grow_refused.
Qed.

Lemma placeholder_is_final_witness :
  Cinputs.cinputs_create true Cinputs.zero_slots 0
  = Cinputs.cinputs_placeholder_instance
  /\ Cref.cref_create false Cref.zero_slots = Cref.cref_placeholder_instance
  /\ Cbook.cbook_create true Cbook.no_memory = Cbook.cbook_placeholder_instance.
Proof.
  destruct placeholder_is_final as (H1 & H2 & H3 & _ & _ & _ & _ & _ & _).
  split_and!.
  - apply H1; [apply Cinputs.reach_create; unfold SIZE_MAX; lia|reflexivity].
  - apply H2; [apply Cref.reach_create|reflexivity].
  - apply H3; [apply Cbook.reach_create|reflexivity].
Defined.

(** X23: a failed growth loses nothing.  When [cinputs_resize],
    [cref_prealloc], [cref_push] or [cbook_prealloc] on an error-free
    container ends with an error (PARAM, OVERFLOW or MEMORY), [repair]
    gives back a container in which every entry is as before the call: for
    the slot table and the registry the very same state, for the book the
    same lengths, words and groups (its storage may have grown in part). *)
Theorem failed_growth_loses_nothing :
  (forall c o m,
     Cinputs.reachable c -> Cinputs.err c = CERR_NONE -> 0 <= m <= SIZE_MAX ->
     Cinputs.err (Cinputs.cinputs_resize o c m) <> CERR_NONE ->
     Cinputs.cinputs_repair (Cinputs.cinputs_resize o c m) = c)
  /\ (forall r o m,
        Cref.reachable r -> Cref.err r = CERR_NONE -> 0 <= m <= SIZE_MAX ->
        Cref.err (Cref.cref_prealloc o r m) <> CERR_NONE ->
        Cref.cref_repair (Cref.cref_prealloc o r m) = r)
  /\ (forall r o p r',
        Cref.reachable r -> Cref.err r = CERR_NONE ->
        Cref.cref_push o r p = Some r' -> Cref.err r' <> CERR_NONE ->
        Cref.cref_repair r' = r)
  /\ (forall b o c w g,
        Cbook.reachable b -> Cbook.err b = CERR_NONE ->
        0 <= c <= SIZE_MAX -> 0 <= w <= SIZE_MAX -> 0 <= g <= SIZE_MAX ->
        Cbook.err (Cbook.cbook_prealloc o b c w g) <> CERR_NONE ->
        Cbook.observe (Cbook.cbook_repair (Cbook.cbook_prealloc o b c w g))
        = Cbook.observe b
        /\ (forall i, 0 <= i ->
              Cbook.word_text (Cbook.cbook_repair (Cbook.cbook_prealloc o b c w g)) i
              = Cbook.word_text b i)
        /\ (forall k i, 0 <= k ->
              Cbook.cbook_group_length
                (Cbook.cbook_repair (Cbook.cbook_prealloc o b c w g)) k
              = Cbook.cbook_group_length b k
              /\ Cbook.cbook_word_index
                   (Cbook.cbook_repair (Cbook.cbook_prealloc o b c w g)) k i
                 = Cbook.cbook_word_index b k i)).
Proof.
  split_and!.
  - intros c o m Hr He Hm Hbad. unfold Cinputs.cinputs_resize in *.
    rewrite He in *. simpl in *.
    rewrite CinputsProps.resize_cases in * by lia.
    assert (Hset : forall e, e <> CERR_INVALID ->
              Cinputs.cinputs_repair (Cinputs.set_err e c) = c).
    { intros e Hne. unfold Cinputs.cinputs_repair. simpl.
      destruct e; try done; destruct c; simpl in *; by subst. }
    destruct (m =? 0); [by apply Hset|].
    destruct (SIZE_MAX <? m * Cinputs.sizeof_slot); [by apply Hset|].
    destruct o as [junk|]; [|by apply Hset]. simpl in *.
    destruct (CinputsFacts.resize_spec (Some junk) c m
                (CinputsFacts.reachable_wf c Hr)) as (_ & _ & Hok); [lia|].
    unfold Cinputs.resize in *.
    destruct (m =? 0); [by apply Hset|].
    destruct (safe_mul m Cinputs.sizeof_slot); [|by apply Hset].
    simpl in *. destruct Hok as (_ & _ & He' & _); [done|]. congruence.
  - intros r o m Hr He Hm Hbad. unfold Cref.cref_prealloc in *.
    rewrite He in *. simpl in *.
    destruct (CrefFacts.grow_wf o r m (CrefFacts.ref_reachable_wf r Hr) He)
      as (_ & _ & _ & _ & Hc); [lia|].
    destruct (Cref.grow o r m) as [g [|]]; simpl in *.
    + destruct Hc as [? _]. done.
    + unfold Cref.cref_repair.
      destruct Hc as [-> | ->]; simpl; destruct r; simpl in *; by subst.
  - intros r o p r' Hr He Hp Hbad.
    destruct (CrefFacts.cref_push_spec o r p (CrefFacts.ref_reachable_wf r Hr) He)
      as (r1 & Hp1 & _ & _ & Hc).
    rewrite Hp in Hp1. injection Hp1 as <-. unfold Cref.cref_repair.
    destruct (Hc Hbad) as [-> | ->]; simpl; destruct r; simpl in *; by subst.
  - intros b o c w g Hr He Hc Hw Hg Hbad.
    pose proof (CbookFacts.book_reachable_wf b Hr) as Hwf.
    pose proof Hwf as [Hs _].
    destruct (CbookProps.reachable_holds b Hr) as [ss Hh].
    unfold Cbook.cbook_prealloc in *. rewrite He in *. simpl in *.
    destruct (CbookFacts.book_grow_spec o b c w g Hs) as (Hs' & Hfr & _); [lia..|].
    destruct (CbookProps.grow_fields o b c w g) as (_ & _ & _ & _ & Hok & Hko).
    pose proof Hs as [Hnc _ _ Hlc _ _ _ _ _ _ _ _].
    pose proof (CbookProps.grow_prefix o b c w g (Z.to_nat (Cbook.n_chars b)) Hlc)
      as Hp.
    destruct (Cbook.grow o b c w g) as [b1 [|]]; simpl in *.
    { rewrite Hok in Hbad by done. done. }
    set (b2 := Cbook.cbook_repair b1).
    assert (Hb2 : b2 = Cbook.set_err CERR_NONE b1).
    { unfold b2, Cbook.cbook_repair. by destruct (Hko eq_refl) as [-> | ->]. }
    assert (Hs2 : Cbook.shape b2)
      by (rewrite Hb2; by apply CbookFacts.shape_set_err).
    assert (He2 : Cbook.err b2 = CERR_NONE) by (by rewrite Hb2).
    destruct Hfr as [F1 F2 F3 F4 F5 F6 _ _ _].
    assert (Hh2 : Cbook.holds b2 ss).
    { rewrite Hb2. apply (CbookProps.holds_same b); try done. apply Hp. lia. }
    split_and!.
    + unfold Cbook.observe, Cbook.cbook_length, Cbook.cbook_words_number,
        Cbook.cbook_groups_number. rewrite He, He2, Hb2. simpl. congruence.
    + by apply (CbookProps.holds_same_texts b b2 ss).
    + intros k i Hk. apply CbookProps.same_group_reads; try done;
        by rewrite Hb2.
Qed.

Lemma failed_growth_loses_nothing_witness :
  Cinputs.cinputs_repair (Cinputs.cinputs_resize None Cinputs.full_table 5)
  = Cinputs.full_table
  /\ Cref.cref_repair (Cref.cref_prealloc None (Cref.single 42 3) 9)
     = Cref.single 42 3
  /\ Cref.cref_repair <$> Cref.cref_push None (Cref.single 42 3) 43
     = Some (Cref.single 42 3)
  /\ Cbook.observe
       (Cbook.cbook_repair (Cbook.cbook_prealloc Cbook.no_memory Cbook.sample 64 8 8))
     = Cbook.observe Cbook.sample.
Proof.
  destruct failed_growth_loses_nothing as (H1 & H2 & H3 & H4).
  split_and!.
  - apply H1; [exact CinputsProps.full_table_reachable|reflexivity
              |unfold SIZE_MAX; lia|vm_compute; discriminate].
  - apply H2; [apply CrefProps.single_reachable; unfold UINT_MAX; lia
              |reflexivity|unfold SIZE_MAX; lia|vm_compute; discriminate].
  - assert (Hp : Cref.cref_push None (Cref.single 42 3) 43
                 = Some (Cref.set_err CERR_MEMORY (Cref.single 42 3)))
      by reflexivity.
    rewrite Hp. apply (f_equal Some).
    apply (H3 (Cref.single 42 3) None 43);
      [apply CrefProps.single_reachable; unfold UINT_MAX; lia
      |reflexivity|exact Hp|discriminate].
  - apply H4; [exact CbookProps.sample_reachable|reflexivity
              |unfold SIZE_MAX; lia..|vm_compute; discriminate].
Defined.

End SharedProps.
